(** * ConvertaTXT: the batch ingestion pipeline and the text normaliser

    A shallow embedding of [src/App.tsx] (the React component that drives the
    application) and of the second copy of the component, which wraps every
    file in [processFileWithTimeout].

    - [JS]         JavaScript strings as sequences of UTF-16 code units, with
                   the [String.prototype] and [Array.prototype] methods the
                   component calls; [toLowerCase] with the case tables of
                   the Unicode Character Database.
    - [Normalizer] the conversion steps shared by [handleConvert] and
                   [handleDownload], and the same steps told on lines.
    - [File], [ProcessedFile], [World], [Action], [AppState]: the data, the
                   collaborators outside the component, and the React state
                   with the updates made to it.
    - [App]        [processFile], [handleFolderUpload], [handleDownload] of
                   [src/App.tsx]; a run is the sequence of its state updates.
    - [AppRun]     completed batches and the three ways the loop ends.
    - [Timed]      [processFile], [processFileWithTimeout] and
                   [handleFolderUpload] of the copy with the timer, with the
                   time of every update.
    - [ClassifierSpec], [Sample]: the routing tables in words, sample inputs.
    - [Extractors], [Ocr], [Zip]: the branches of [processOfficeFile] and of
                   the PDF loop, the OCR worker, the archive of
                   [handleDownload].
    - [Abort]      [abortControllerRef]: [handleCancel], the controller each
                   upload makes, and what the loop reads.
    - [Cases]      more sample inputs.

    The second half proves the properties: order of the results, counters,
    cancellation, timeouts, classification, normalisation, file names and
    the archive, the extraction branches. *)

From stdpp Require Import base list option sorting strings gmap.
From Stdlib Require DecimalString.
From Stdlib Require Import NArith Lia.

(* ===================================================================== *)
(** * JavaScript strings *)
(* ===================================================================== *)

Module JS.

(** A JavaScript string is a sequence of UTF-16 code units. *)
Abbreviation jsstring := (list N).

(** Literals: an ASCII Rocq string read as code units. *)
Definition str (s : String.string) : jsstring :=
  map Ascii.N_of_ascii (String.list_ascii_of_string s).
Arguments str s%_string.

Definition LF : N := 10.
Definition CR : N := 13.

(** [s.split(sep)] for a one-character separator: never the empty array,
    [''.split(sep)] is [['']]. *)
Fixpoint split (sep : N) (s : jsstring) : list jsstring :=
  match s with
  | [] => [[]]
  | c :: s' =>
      if N.eqb c sep then [] :: split sep s'
      else match split sep s' with
           | [] => [[c]]
           | l :: ls => (c :: l) :: ls
           end
  end.

(** [arr.join(sep)]. *)
Fixpoint join (sep : jsstring) (ls : list jsstring) : jsstring :=
  match ls with
  | [] => []
  | l :: ls' =>
      match ls' with
      | [] => l
      | _ :: _ => l ++ sep ++ join sep ls'
      end
  end.

(** [arr.pop()] on the result of a [split], which is never empty: the last
    element. *)
Definition pop (ls : list jsstring) : jsstring := List.last ls [].

(** ECMAScript WhiteSpace and LineTerminator code points, the characters
    [String.prototype.trim] strips.  All of them are in the basic plane. *)
Definition isWhiteSpace (c : N) : bool :=
  (N.eqb c 9 || N.eqb c 10 || N.eqb c 11 || N.eqb c 12 || N.eqb c 13
   || N.eqb c 32 || N.eqb c 160 || N.eqb c 5760
   || (N.leb 8192 c && N.leb c 8202)
   || N.eqb c 8232 || N.eqb c 8233 || N.eqb c 8239 || N.eqb c 8287
   || N.eqb c 12288 || N.eqb c 65279)%bool.

Fixpoint trimStart (s : jsstring) : jsstring :=
  match s with
  | [] => []
  | c :: s' => if isWhiteSpace c then trimStart s' else s
  end.

Fixpoint trimEnd (s : jsstring) : jsstring :=
  match s with
  | [] => []
  | c :: s' =>
      match trimEnd s' with
      | [] => if isWhiteSpace c then [] else [c]
      | t => c :: t
      end
  end.

(** [s.trim()]. *)
Definition trim (s : jsstring) : jsstring := trimEnd (trimStart s).

(** [s.replace(/\n/g, r)]: every line feed replaced by [r]. *)
Fixpoint replaceLF (r : jsstring) (s : jsstring) : jsstring :=
  match s with
  | [] => []
  | c :: s' => (if N.eqb c LF then r else [c]) ++ replaceLF r s'
  end.

(** [s.startsWith(p)]. *)
Fixpoint startsWith (s p : jsstring) : bool :=
  match p, s with
  | [], _ => true
  | _ :: _, [] => false
  | a :: p', b :: s' => N.eqb a b && startsWith s' p'
  end.

(** UTF-16: the code points of a string.  A high surrogate followed by a
    low one is one code point; any other code unit stands for itself. *)
Definition isHighSurrogate (c : N) : bool := N.leb 55296 c && N.leb c 56319.
Definition isLowSurrogate (c : N) : bool := N.leb 56320 c && N.leb c 57343.

Fixpoint codePoints (s : jsstring) : list N :=
  match s with
  | [] => []
  | hi :: t =>
      match t with
      | lo :: r =>
          if isHighSurrogate hi && isLowSurrogate lo
          then (65536 + (hi - 55296) * 1024 + (lo - 56320))%N :: codePoints r
          else hi :: codePoints t
      | [] => [hi]
      end
  end.

(** The code units of a code point. *)
Definition codeUnits (cp : N) : jsstring :=
  if N.ltb cp 65536 then [cp]
  else [(55296 + (cp - 65536) / 1024)%N; (56320 + (cp - 65536) mod 1024)%N].

(** The simple lower-case mappings of the Unicode Character Database
    (version 14.0): [(first, last, stride, target)] sends the code points
    [first], [first + stride], ... up to [last] to [target],
    [target + stride], ... *)
Definition lowerTable : list (N * N * N * N) :=
  [
   (65, 90, 1, 97); (192, 214, 1, 224); (216, 222, 1, 248);
   (256, 302, 2, 257); (306, 310, 2, 307); (313, 327, 2, 314);
   (330, 374, 2, 331); (376, 376, 1, 255); (377, 381, 2, 378);
   (385, 385, 1, 595); (386, 388, 2, 387); (390, 390, 1, 596);
   (391, 391, 1, 392); (393, 394, 1, 598); (395, 395, 1, 396);
   (398, 398, 1, 477); (399, 399, 1, 601); (400, 400, 1, 603);
   (401, 401, 1, 402); (403, 403, 1, 608); (404, 404, 1, 611);
   (406, 406, 1, 617); (407, 407, 1, 616); (408, 408, 1, 409);
   (412, 412, 1, 623); (413, 413, 1, 626); (415, 415, 1, 629);
   (416, 420, 2, 417); (422, 422, 1, 640); (423, 423, 1, 424);
   (425, 425, 1, 643); (428, 428, 1, 429); (430, 430, 1, 648);
   (431, 431, 1, 432); (433, 434, 1, 650); (435, 437, 2, 436);
   (439, 439, 1, 658); (440, 440, 1, 441); (444, 444, 1, 445);
   (452, 452, 1, 454); (453, 453, 1, 454); (455, 455, 1, 457);
   (456, 456, 1, 457); (458, 458, 1, 460); (459, 475, 2, 460);
   (478, 494, 2, 479); (497, 497, 1, 499); (498, 500, 2, 499);
   (502, 502, 1, 405); (503, 503, 1, 447); (504, 542, 2, 505);
   (544, 544, 1, 414); (546, 562, 2, 547); (570, 570, 1, 11365);
   (571, 571, 1, 572); (573, 573, 1, 410); (574, 574, 1, 11366);
   (577, 577, 1, 578); (579, 579, 1, 384); (580, 580, 1, 649);
   (581, 581, 1, 652); (582, 590, 2, 583); (880, 882, 2, 881);
   (886, 886, 1, 887); (895, 895, 1, 1011); (902, 902, 1, 940);
   (904, 906, 1, 941); (908, 908, 1, 972); (910, 911, 1, 973);
   (913, 929, 1, 945); (931, 939, 1, 963); (975, 975, 1, 983);
   (984, 1006, 2, 985); (1012, 1012, 1, 952); (1015, 1015, 1, 1016);
   (1017, 1017, 1, 1010); (1018, 1018, 1, 1019); (1021, 1023, 1, 891);
   (1024, 1039, 1, 1104); (1040, 1071, 1, 1072); (1120, 1152, 2, 1121);
   (1162, 1214, 2, 1163); (1216, 1216, 1, 1231); (1217, 1229, 2, 1218);
   (1232, 1326, 2, 1233); (1329, 1366, 1, 1377); (4256, 4293, 1, 11520);
   (4295, 4295, 1, 11559); (4301, 4301, 1, 11565); (5024, 5103, 1, 43888);
   (5104, 5109, 1, 5112); (7312, 7354, 1, 4304); (7357, 7359, 1, 4349);
   (7680, 7828, 2, 7681); (7838, 7838, 1, 223); (7840, 7934, 2, 7841);
   (7944, 7951, 1, 7936); (7960, 7965, 1, 7952); (7976, 7983, 1, 7968);
   (7992, 7999, 1, 7984); (8008, 8013, 1, 8000); (8025, 8031, 2, 8017);
   (8040, 8047, 1, 8032); (8072, 8079, 1, 8064); (8088, 8095, 1, 8080);
   (8104, 8111, 1, 8096); (8120, 8121, 1, 8112); (8122, 8123, 1, 8048);
   (8124, 8124, 1, 8115); (8136, 8139, 1, 8050); (8140, 8140, 1, 8131);
   (8152, 8153, 1, 8144); (8154, 8155, 1, 8054); (8168, 8169, 1, 8160);
   (8170, 8171, 1, 8058); (8172, 8172, 1, 8165); (8184, 8185, 1, 8056);
   (8186, 8187, 1, 8060); (8188, 8188, 1, 8179); (8486, 8486, 1, 969);
   (8490, 8490, 1, 107); (8491, 8491, 1, 229); (8498, 8498, 1, 8526);
   (8544, 8559, 1, 8560); (8579, 8579, 1, 8580); (9398, 9423, 1, 9424);
   (11264, 11311, 1, 11312); (11360, 11360, 1, 11361);
   (11362, 11362, 1, 619); (11363, 11363, 1, 7549); (11364, 11364, 1, 637);
   (11367, 11371, 2, 11368); (11373, 11373, 1, 593); (11374, 11374, 1, 625);
   (11375, 11375, 1, 592); (11376, 11376, 1, 594); (11378, 11378, 1, 11379);
   (11381, 11381, 1, 11382); (11390, 11391, 1, 575);
   (11392, 11490, 2, 11393); (11499, 11501, 2, 11500);
   (11506, 11506, 1, 11507); (42560, 42604, 2, 42561);
   (42624, 42650, 2, 42625); (42786, 42798, 2, 42787);
   (42802, 42862, 2, 42803); (42873, 42875, 2, 42874);
   (42877, 42877, 1, 7545); (42878, 42886, 2, 42879);
   (42891, 42891, 1, 42892); (42893, 42893, 1, 613);
   (42896, 42898, 2, 42897); (42902, 42920, 2, 42903);
   (42922, 42922, 1, 614); (42923, 42923, 1, 604); (42924, 42924, 1, 609);
   (42925, 42925, 1, 620); (42926, 42926, 1, 618); (42928, 42928, 1, 670);
   (42929, 42929, 1, 647); (42930, 42930, 1, 669); (42931, 42931, 1, 43859);
   (42932, 42946, 2, 42933); (42948, 42948, 1, 42900);
   (42949, 42949, 1, 642); (42950, 42950, 1, 7566); (42951, 42953, 2, 42952);
   (42960, 42960, 1, 42961); (42966, 42968, 2, 42967);
   (42997, 42997, 1, 42998); (65313, 65338, 1, 65345);
   (66560, 66599, 1, 66600); (66736, 66771, 1, 66776);
   (66928, 66964, 2, 66967); (66929, 66937, 2, 66968);
   (66941, 66953, 2, 66980); (66957, 66961, 2, 66996);
   (66965, 66965, 1, 67004); (68736, 68786, 1, 68800);
   (71840, 71871, 1, 71872); (93760, 93791, 1, 93792);
   (125184, 125217, 1, 125218)]%N.

(** The code points with the property Cased, as ranges. *)
Definition casedTable : list (N * N) :=
  [
   (65, 90); (97, 122); (170, 170); (181, 181); (186, 186); (192, 214);
   (216, 246); (248, 442); (444, 447); (452, 659); (661, 696); (704, 705);
   (736, 740); (837, 837); (880, 883); (886, 887); (890, 893); (895, 895);
   (902, 902); (904, 906); (908, 908); (910, 929); (931, 1013); (1015, 1153);
   (1162, 1327); (1329, 1366); (1376, 1416); (4256, 4293); (4295, 4295);
   (4301, 4301); (4304, 4346); (4349, 4351); (5024, 5109); (5112, 5117);
   (7296, 7304); (7312, 7354); (7357, 7359); (7424, 7615); (7680, 7957);
   (7960, 7965); (7968, 8005); (8008, 8013); (8016, 8023); (8025, 8025);
   (8027, 8027); (8029, 8029); (8031, 8061); (8064, 8116); (8118, 8124);
   (8126, 8126); (8130, 8132); (8134, 8140); (8144, 8147); (8150, 8155);
   (8160, 8172); (8178, 8180); (8182, 8188); (8305, 8305); (8319, 8319);
   (8336, 8348); (8450, 8450); (8455, 8455); (8458, 8467); (8469, 8469);
   (8473, 8477); (8484, 8484); (8486, 8486); (8488, 8488); (8490, 8493);
   (8495, 8500); (8505, 8505); (8508, 8511); (8517, 8521); (8526, 8526);
   (8544, 8575); (8579, 8580); (9398, 9449); (11264, 11492); (11499, 11502);
   (11506, 11507); (11520, 11557); (11559, 11559); (11565, 11565);
   (42560, 42605); (42624, 42653); (42786, 42887); (42891, 42894);
   (42896, 42954); (42960, 42961); (42963, 42963); (42965, 42969);
   (42997, 42998); (43000, 43002); (43824, 43866); (43868, 43880);
   (43888, 43967); (64256, 64262); (64275, 64279); (65313, 65338);
   (65345, 65370); (66560, 66639); (66736, 66771); (66776, 66811);
   (66928, 66938); (66940, 66954); (66956, 66962); (66964, 66965);
   (66967, 66977); (66979, 66993); (66995, 67001); (67003, 67004);
   (67456, 67456); (67459, 67461); (67463, 67504); (67506, 67514);
   (68736, 68786); (68800, 68850); (71840, 71903); (93760, 93823);
   (119808, 119892); (119894, 119964); (119966, 119967); (119970, 119970);
   (119973, 119974); (119977, 119980); (119982, 119993); (119995, 119995);
   (119997, 120003); (120005, 120069); (120071, 120074); (120077, 120084);
   (120086, 120092); (120094, 120121); (120123, 120126); (120128, 120132);
   (120134, 120134); (120138, 120144); (120146, 120485); (120488, 120512);
   (120514, 120538); (120540, 120570); (120572, 120596); (120598, 120628);
   (120630, 120654); (120656, 120686); (120688, 120712); (120714, 120744);
   (120746, 120770); (120772, 120779); (122624, 122633); (122635, 122654);
   (125184, 125251); (127280, 127305); (127312, 127337); (127344, 127369)]%N.

(** The code points with the property Case_Ignorable, as ranges. *)
Definition caseIgnorableTable : list (N * N) :=
  [
   (39, 39); (46, 46); (58, 58); (94, 94); (96, 96); (168, 168); (173, 173);
   (175, 175); (180, 180); (183, 184); (688, 879); (884, 885); (890, 890);
   (900, 901); (903, 903); (1155, 1161); (1369, 1369); (1375, 1375);
   (1425, 1469); (1471, 1471); (1473, 1474); (1476, 1477); (1479, 1479);
   (1524, 1524); (1536, 1541); (1552, 1562); (1564, 1564); (1600, 1600);
   (1611, 1631); (1648, 1648); (1750, 1757); (1759, 1768); (1770, 1773);
   (1807, 1807); (1809, 1809); (1840, 1866); (1958, 1968); (2027, 2037);
   (2042, 2042); (2045, 2045); (2070, 2093); (2137, 2139); (2184, 2184);
   (2192, 2193); (2200, 2207); (2249, 2306); (2362, 2362); (2364, 2364);
   (2369, 2376); (2381, 2381); (2385, 2391); (2402, 2403); (2417, 2417);
   (2433, 2433); (2492, 2492); (2497, 2500); (2509, 2509); (2530, 2531);
   (2558, 2558); (2561, 2562); (2620, 2620); (2625, 2626); (2631, 2632);
   (2635, 2637); (2641, 2641); (2672, 2673); (2677, 2677); (2689, 2690);
   (2748, 2748); (2753, 2757); (2759, 2760); (2765, 2765); (2786, 2787);
   (2810, 2815); (2817, 2817); (2876, 2876); (2879, 2879); (2881, 2884);
   (2893, 2893); (2901, 2902); (2914, 2915); (2946, 2946); (3008, 3008);
   (3021, 3021); (3072, 3072); (3076, 3076); (3132, 3132); (3134, 3136);
   (3142, 3144); (3146, 3149); (3157, 3158); (3170, 3171); (3201, 3201);
   (3260, 3260); (3263, 3263); (3270, 3270); (3276, 3277); (3298, 3299);
   (3328, 3329); (3387, 3388); (3393, 3396); (3405, 3405); (3426, 3427);
   (3457, 3457); (3530, 3530); (3538, 3540); (3542, 3542); (3633, 3633);
   (3636, 3642); (3654, 3662); (3761, 3761); (3764, 3772); (3782, 3782);
   (3784, 3789); (3864, 3865); (3893, 3893); (3895, 3895); (3897, 3897);
   (3953, 3966); (3968, 3972); (3974, 3975); (3981, 3991); (3993, 4028);
   (4038, 4038); (4141, 4144); (4146, 4151); (4153, 4154); (4157, 4158);
   (4184, 4185); (4190, 4192); (4209, 4212); (4226, 4226); (4229, 4230);
   (4237, 4237); (4253, 4253); (4348, 4348); (4957, 4959); (5906, 5908);
   (5938, 5939); (5970, 5971); (6002, 6003); (6068, 6069); (6071, 6077);
   (6086, 6086); (6089, 6099); (6103, 6103); (6109, 6109); (6155, 6159);
   (6211, 6211); (6277, 6278); (6313, 6313); (6432, 6434); (6439, 6440);
   (6450, 6450); (6457, 6459); (6679, 6680); (6683, 6683); (6742, 6742);
   (6744, 6750); (6752, 6752); (6754, 6754); (6757, 6764); (6771, 6780);
   (6783, 6783); (6823, 6823); (6832, 6862); (6912, 6915); (6964, 6964);
   (6966, 6970); (6972, 6972); (6978, 6978); (7019, 7027); (7040, 7041);
   (7074, 7077); (7080, 7081); (7083, 7085); (7142, 7142); (7144, 7145);
   (7149, 7149); (7151, 7153); (7212, 7219); (7222, 7223); (7288, 7293);
   (7376, 7378); (7380, 7392); (7394, 7400); (7405, 7405); (7412, 7412);
   (7416, 7417); (7468, 7530); (7544, 7544); (7579, 7679); (8125, 8125);
   (8127, 8129); (8141, 8143); (8157, 8159); (8173, 8175); (8189, 8190);
   (8203, 8207); (8216, 8217); (8228, 8228); (8231, 8231); (8234, 8238);
   (8288, 8292); (8294, 8303); (8305, 8305); (8319, 8319); (8336, 8348);
   (8400, 8432); (11388, 11389); (11503, 11505); (11631, 11631);
   (11647, 11647); (11744, 11775); (11823, 11823); (12293, 12293);
   (12330, 12333); (12337, 12341); (12347, 12347); (12441, 12446);
   (12540, 12542); (40981, 40981); (42232, 42237); (42508, 42508);
   (42607, 42610); (42612, 42621); (42623, 42623); (42652, 42655);
   (42736, 42737); (42752, 42785); (42864, 42864); (42888, 42890);
   (42994, 42996); (43000, 43001); (43010, 43010); (43014, 43014);
   (43019, 43019); (43045, 43046); (43052, 43052); (43204, 43205);
   (43232, 43249); (43263, 43263); (43302, 43309); (43335, 43345);
   (43392, 43394); (43443, 43443); (43446, 43449); (43452, 43453);
   (43471, 43471); (43493, 43494); (43561, 43566); (43569, 43570);
   (43573, 43574); (43587, 43587); (43596, 43596); (43632, 43632);
   (43644, 43644); (43696, 43696); (43698, 43700); (43703, 43704);
   (43710, 43711); (43713, 43713); (43741, 43741); (43756, 43757);
   (43763, 43764); (43766, 43766); (43867, 43871); (43881, 43883);
   (44005, 44005); (44008, 44008); (44013, 44013); (64286, 64286);
   (64434, 64450); (65024, 65039); (65043, 65043); (65056, 65071);
   (65106, 65106); (65109, 65109); (65279, 65279); (65287, 65287);
   (65294, 65294); (65306, 65306); (65342, 65342); (65344, 65344);
   (65392, 65392); (65438, 65439); (65507, 65507); (65529, 65531);
   (66045, 66045); (66272, 66272); (66422, 66426); (67456, 67461);
   (67463, 67504); (67506, 67514); (68097, 68099); (68101, 68102);
   (68108, 68111); (68152, 68154); (68159, 68159); (68325, 68326);
   (68900, 68903); (69291, 69292); (69446, 69456); (69506, 69509);
   (69633, 69633); (69688, 69702); (69744, 69744); (69747, 69748);
   (69759, 69761); (69811, 69814); (69817, 69818); (69821, 69821);
   (69826, 69826); (69837, 69837); (69888, 69890); (69927, 69931);
   (69933, 69940); (70003, 70003); (70016, 70017); (70070, 70078);
   (70089, 70092); (70095, 70095); (70191, 70193); (70196, 70196);
   (70198, 70199); (70206, 70206); (70367, 70367); (70371, 70378);
   (70400, 70401); (70459, 70460); (70464, 70464); (70502, 70508);
   (70512, 70516); (70712, 70719); (70722, 70724); (70726, 70726);
   (70750, 70750); (70835, 70840); (70842, 70842); (70847, 70848);
   (70850, 70851); (71090, 71093); (71100, 71101); (71103, 71104);
   (71132, 71133); (71219, 71226); (71229, 71229); (71231, 71232);
   (71339, 71339); (71341, 71341); (71344, 71349); (71351, 71351);
   (71453, 71455); (71458, 71461); (71463, 71467); (71727, 71735);
   (71737, 71738); (71995, 71996); (71998, 71998); (72003, 72003);
   (72148, 72151); (72154, 72155); (72160, 72160); (72193, 72202);
   (72243, 72248); (72251, 72254); (72263, 72263); (72273, 72278);
   (72281, 72283); (72330, 72342); (72344, 72345); (72752, 72758);
   (72760, 72765); (72767, 72767); (72850, 72871); (72874, 72880);
   (72882, 72883); (72885, 72886); (73009, 73014); (73018, 73018);
   (73020, 73021); (73023, 73029); (73031, 73031); (73104, 73105);
   (73109, 73109); (73111, 73111); (73459, 73460); (78896, 78904);
   (92912, 92916); (92976, 92982); (92992, 92995); (94031, 94031);
   (94095, 94111); (94176, 94177); (94179, 94180); (110576, 110579);
   (110581, 110587); (110589, 110590); (113821, 113822); (113824, 113827);
   (118528, 118573); (118576, 118598); (119143, 119145); (119155, 119170);
   (119173, 119179); (119210, 119213); (119362, 119364); (121344, 121398);
   (121403, 121452); (121461, 121461); (121476, 121476); (121499, 121503);
   (121505, 121519); (122880, 122886); (122888, 122904); (122907, 122913);
   (122915, 122916); (122918, 122922); (123184, 123197); (123566, 123566);
   (123628, 123631); (125136, 125142); (125252, 125259); (127995, 127999);
   (917505, 917505); (917536, 917631); (917760, 917999)]%N.

Definition inRanges (table : list (N * N)) (cp : N) : bool :=
  existsb (fun r => N.leb (fst r) cp && N.leb cp (snd r)) table.

Definition isCased (cp : N) : bool := inRanges casedTable cp.
Definition isCaseIgnorable (cp : N) : bool := inRanges caseIgnorableTable cp.

Definition lowerEntry (cp : N) (e : N * N * N * N) : bool :=
  match e with
  | (first, last, stride, _) =>
      N.leb first cp && N.leb cp last && N.eqb ((cp - first) mod stride) 0
  end.

(** The lower case of one code point, whatever is around it: U+0130 is the
    one code point with a longer mapping (SpecialCasing). *)
Definition lowerPoint (cp : N) : list N :=
  if N.eqb cp 304 then [105; 775]%N
  else match List.find (lowerEntry cp) lowerTable with
       | Some (first, _, _, target) => [(target + (cp - first))%N]
       | None => [cp]
       end.

(** Going away from a code point, is the first code point that is not
    case-ignorable a cased letter? *)
Fixpoint casedNext (context : list N) : bool :=
  match context with
  | [] => false
  | c :: rest => if isCaseIgnorable c then casedNext rest else isCased c
  end.

(** The condition Final_Sigma: [before] holds the code points before the
    sigma, the nearest first, [after] those after it. *)
Definition finalSigma (before after : list N) : bool :=
  casedNext before && negb (casedNext after).

(** The lower case of a code point where it stands: a capital sigma
    (U+03A3) becomes a final sigma (U+03C2) or a sigma (U+03C3). *)
Definition lowerAt (before after : list N) (cp : N) : list N :=
  if N.eqb cp 931 then [if finalSigma before after then 962 else 963]%N
  else lowerPoint cp.

Fixpoint lowerFrom (before s : list N) : list N :=
  match s with
  | [] => []
  | cp :: after => lowerAt before after cp ++ lowerFrom (cp :: before) after
  end.

(** [s.toLowerCase()]: the locale-insensitive lower-case mapping of the
    Unicode Character Database, code point by code point. *)
Definition toLowerCase (s : jsstring) : jsstring :=
  flat_map codeUnits (lowerFrom [] (codePoints s)).

(** [arr.includes(x)] on an array of strings. *)
Definition includes (arr : list jsstring) (x : jsstring) : bool :=
  bool_decide (x ∈ arr).

(** Template-literal rendering of a non-negative integer. *)
Definition numberToString (n : N) : jsstring :=
  map Ascii.N_of_ascii
      (String.list_ascii_of_string
         (DecimalString.NilZero.string_of_uint (N.to_uint n))).

(** [a || b] on strings: the empty string is falsy. *)
Definition orElse (a b : jsstring) : jsstring :=
  match a with [] => b | _ :: _ => a end.

End JS.

Import JS.

(* ===================================================================== *)
(** * The text normaliser *)
(* ===================================================================== *)

Module Normalizer.

Record ConversionOptions := {
  encoding : jsstring;
  lineEnding : jsstring;
  removeEmptyLines : bool;
  trimWhitespace : bool
}.

(** The initial value of the [options] state. *)
Definition defaultOptions : ConversionOptions :=
  {| encoding := str "UTF-8"; lineEnding := str "LF";
     removeEmptyLines := false; trimWhitespace := false |}.

(** The body of [handleConvert], which [handleDownload] repeats for every
    processed file: [converted] is rebound by each enabled step. *)
Definition normalize (text : jsstring) (options : ConversionOptions) : jsstring :=
  let converted := text in
  let converted :=
    if trimWhitespace options
    then join [LF] (map trim (split LF converted))
    else converted in
  let converted :=
    if removeEmptyLines options
    then join [LF]
           (List.filter (fun line => Nat.ltb 0 (length (trim line)))
                        (split LF converted))
    else converted in
  if bool_decide (lineEnding options = str "CRLF")
  then replaceLF [CR; LF] converted
  else if bool_decide (lineEnding options = str "CR")
  then replaceLF [CR] converted
  else converted.

(** ** The three steps as the specification words them, on lines *)

(** Step 1: trim every line. *)
Definition specTrimLines (on : bool) (lines : list jsstring) : list jsstring :=
  if on then map trim lines else lines.

(** Step 2: drop every line whose trimmed content has zero length. *)
Definition specDropEmpty (on : bool) (lines : list jsstring) : list jsstring :=
  if on then List.filter (fun line => negb (Nat.eqb (length (trim line)) 0)) lines
  else lines.

(** Step 3: the terminator written between the lines: LF as it is, CRLF a
    carriage return before the line feed, CR a carriage return in its place. *)
Definition specTerminator (le : jsstring) : jsstring :=
  if bool_decide (le = str "CRLF") then [CR; LF]
  else if bool_decide (le = str "CR") then [CR]
  else [LF].

Definition specNormalize (text : jsstring) (options : ConversionOptions) : jsstring :=
  join (specTerminator (lineEnding options))
       (specDropEmpty (removeEmptyLines options)
          (specTrimLines (trimWhitespace options) (split LF text))).

(** ** Shapes used to reason about a second application *)

Definition noLF (l : jsstring) : Prop := LF ∉ l.

(** What the lines of a normalised text look like. *)
Record linesOK (o : ConversionOptions) (ls : list jsstring) : Prop := {
  ok_noLF : Forall noLF ls;
  ok_trimmed : trimWhitespace o = true → Forall (fun l => trim l = l) ls;
  ok_nonblank : removeEmptyLines o = true → Forall (fun l => trim l ≠ []) ls;
  ok_nonempty : removeEmptyLines o = false → ls ≠ []
}.

(** The lines a line-feed split sees in a text written with CRLF: every line
    but the last keeps its carriage return. *)
Fixpoint addCR (ls : list jsstring) : list jsstring :=
  match ls with
  | [] => []
  | l :: ls' =>
      match ls' with
      | [] => [l]
      | _ :: _ => (l ++ [CR]) :: addCR ls'
      end
  end.

(** One pass over the lines: steps 1 and 2. *)
Definition passLines (o : ConversionOptions) (ls : list jsstring) : list jsstring :=
  specDropEmpty (removeEmptyLines o) (specTrimLines (trimWhitespace o) ls).

(** The option values under which a second application changes nothing:
    with CRLF the carriage returns written by the first application must be
    trimmed away again, with CR the single remaining line must not lose
    whitespace at its two ends. *)
Definition reapplySafe (o : ConversionOptions) : bool :=
  if bool_decide (lineEnding o = str "CRLF") then trimWhitespace o
  else if bool_decide (lineEnding o = str "CR")
  then negb (trimWhitespace o) || removeEmptyLines o
  else true.

End Normalizer.

Import Normalizer.


(* ===================================================================== *)
(** * [src/App.tsx]: files, state and the batch loop *)
(* ===================================================================== *)

(** The browser's [File]: metadata and the bytes the extractors read. *)
Module File.
Record t := {
  name : jsstring;
  type : jsstring;                (* declared media type, possibly empty *)
  webkitRelativePath : jsstring;
  size : N;
  lastModified : N;               (* milliseconds since the epoch *)
  bytes : list N
}.
End File.

Module ProcessedFile.
Record t := {
  name : jsstring;
  content : jsstring;
  originalType : jsstring;
  path : jsstring
}.
End ProcessedFile.

Record ProcessingStats := {
  total : nat;
  processed : nat;
  failed : nat
}.

(** The six extraction branches of [processFile] and [processOfficeFile]. *)
Inductive Strategy :=
  PlainText | Image | Pdf | WordDoc | Spreadsheet | Presentation.

(** What an extraction gives when it settles: the text, or the error it
    throws (only [error.message] is read). *)
Inductive Extraction :=
| Extracted (content : jsstring)
| Threw (message : jsstring).

(** The collaborators outside the component: the libraries and the file reads
    behind each branch, the time an extraction takes to settle ([None]: it
    never does), the locale's date format, the abort signal as the loop reads
    it at index [i], and the number formatting of the progress message. *)
Record World := {
  extract : Strategy → File.t → Extraction;
  duration : File.t → option N;
  toLocaleString : N → jsstring;
  aborted : nat → bool;
  toFixed1 : nat → nat → jsstring
}.

(** The state updates and console lines of a run, in the order they happen. *)
Inductive Action :=
| SetIsProcessing (b : bool)
| SetProcessingStatus (s : jsstring)
| SetStats (s : ProcessingStats)
| UpdateStats (success : bool)
| SetErrorLogs (logs : list jsstring)
| LogError (fileName message : jsstring)
| SetProcessedFiles (files : list ProcessedFile.t)
| SetInputText (s : jsstring)
| ConsoleLog (s : jsstring).

Record AppState := {
  inputText : jsstring;
  outputText : jsstring;
  options : ConversionOptions;
  isProcessing : bool;
  processedFiles : list ProcessedFile.t;
  processingStatus : jsstring;
  stats : ProcessingStats;
  errorLogs : list jsstring
}.

(** [useState] initial values. *)
Definition initialState : AppState :=
  {| inputText := []; outputText := []; options := defaultOptions;
     isProcessing := false; processedFiles := []; processingStatus := [];
     stats := {| total := 0; processed := 0; failed := 0 |};
     errorLogs := [] |}.

(** The updater [updateStats] passes to [setStats]. *)
Definition updateStats (success : bool) (prev : ProcessingStats) : ProcessingStats :=
  {| total := total prev;
     processed := processed prev + 1;
     failed := failed prev + (if success then 0 else 1) |}.

(** The updater [logError] passes to [setErrorLogs]. *)
Definition logMessage (fileName message : jsstring) : jsstring :=
  str "Error processing " ++ fileName ++ str ": " ++ message ++ [LF].

Definition logError (fileName message : jsstring) (prevLogs : list jsstring)
  : list jsstring :=
  prevLogs ++ [logMessage fileName message].

Definition apply (a : Action) (st : AppState) : AppState :=
  match a with
  | SetIsProcessing b =>
      {| inputText := inputText st; outputText := outputText st;
         options := options st; isProcessing := b;
         processedFiles := processedFiles st;
         processingStatus := processingStatus st; stats := stats st;
         errorLogs := errorLogs st |}
  | SetProcessingStatus s =>
      {| inputText := inputText st; outputText := outputText st;
         options := options st; isProcessing := isProcessing st;
         processedFiles := processedFiles st;
         processingStatus := s; stats := stats st;
         errorLogs := errorLogs st |}
  | SetStats s =>
      {| inputText := inputText st; outputText := outputText st;
         options := options st; isProcessing := isProcessing st;
         processedFiles := processedFiles st;
         processingStatus := processingStatus st; stats := s;
         errorLogs := errorLogs st |}
  | UpdateStats success =>
      {| inputText := inputText st; outputText := outputText st;
         options := options st; isProcessing := isProcessing st;
         processedFiles := processedFiles st;
         processingStatus := processingStatus st;
         stats := updateStats success (stats st);
         errorLogs := errorLogs st |}
  | SetErrorLogs logs =>
      {| inputText := inputText st; outputText := outputText st;
         options := options st; isProcessing := isProcessing st;
         processedFiles := processedFiles st;
         processingStatus := processingStatus st; stats := stats st;
         errorLogs := logs |}
  | LogError fileName message =>
      {| inputText := inputText st; outputText := outputText st;
         options := options st; isProcessing := isProcessing st;
         processedFiles := processedFiles st;
         processingStatus := processingStatus st; stats := stats st;
         errorLogs := logError fileName message (errorLogs st) |}
  | SetProcessedFiles files =>
      {| inputText := inputText st; outputText := outputText st;
         options := options st; isProcessing := isProcessing st;
         processedFiles := files;
         processingStatus := processingStatus st; stats := stats st;
         errorLogs := errorLogs st |}
  | SetInputText s =>
      {| inputText := s; outputText := outputText st;
         options := options st; isProcessing := isProcessing st;
         processedFiles := processedFiles st;
         processingStatus := processingStatus st; stats := stats st;
         errorLogs := errorLogs st |}
  | ConsoleLog _ => st
  end.

(** The state after a sequence of updates. *)
Definition run (acts : list Action) (st : AppState) : AppState :=
  fold_left (fun st a => apply a st) acts st.

(** [handleConvert]: [outputText] becomes the normalised [inputText]. *)
Definition handleConvert (st : AppState) : AppState :=
  {| inputText := inputText st;
     outputText := normalize (inputText st) (options st);
     options := options st; isProcessing := isProcessing st;
     processedFiles := processedFiles st;
     processingStatus := processingStatus st; stats := stats st;
     errorLogs := errorLogs st |}.

(** What [handleDownload] writes: the archive entries (name and converted
    content) when more than one file was processed, else [outputText]. *)
Inductive Download :=
| Archive (entries : list (jsstring * jsstring))
| SingleText (text : jsstring).

Module App.

(** [file.name.split('.').pop()?.toLowerCase()] *)
Definition extensionOf (file : File.t) : jsstring :=
  toLowerCase (pop (split 46 (File.name file))).

(** The [switch] of [processOfficeFile]; [None] is its [default] case. *)
Definition officeStrategy (extension : jsstring) : option Strategy :=
  if bool_decide (extension = str "doc") || bool_decide (extension = str "docx")
  then Some WordDoc
  else if bool_decide (extension = str "xls") || bool_decide (extension = str "xlsx")
  then Some Spreadsheet
  else if bool_decide (extension = str "ppt") || bool_decide (extension = str "pptx")
  then Some Presentation
  else None.

(** Where the [if] chain of [processFile] sends a file. *)
Inductive Dispatch :=
| Run (s : Strategy)
| OfficeDefault (extension : jsstring)   (* [default:] of [processOfficeFile] *)
| NoBranch.                              (* the final [else] *)

Definition dispatch (file : File.t) : Dispatch :=
  let extension := extensionOf file in
  if startsWith (File.type file) (str "text/") then Run PlainText
  else if startsWith (File.type file) (str "image/") then Run Image
  else if bool_decide (File.type file = str "application/pdf")
          || bool_decide (extension = str "pdf") then Run Pdf
  else if includes [str "doc"; str "docx"; str "xls"; str "xlsx";
                    str "ppt"; str "pptx"] (orElse extension [])
  then match officeStrategy extension with
       | Some s => Run s
       | None => OfficeDefault extension
       end
  else NoBranch.

(** The strategy a file is routed to, if any. *)
Definition classify (file : File.t) : option Strategy :=
  match dispatch file with
  | Run s => Some s
  | OfficeDefault _ | NoBranch => None
  end.

Definition filePathOf (file : File.t) : jsstring :=
  orElse (File.webkitRelativePath file) (File.name file).

Definition fileDateOf (w : World) (file : File.t) : jsstring :=
  if N.eqb (File.lastModified file) 0 then str "N/A"
  else toLocaleString w (File.lastModified file).

(** The header [processFile] puts before the extracted text. *)
Definition header (w : World) (file : File.t) : jsstring :=
  str "File Information:" ++ [LF]
  ++ str "Path: " ++ filePathOf file ++ [LF]
  ++ str "Name: " ++ File.name file ++ [LF]
  ++ str "Date: " ++ fileDateOf w file ++ [LF]
  ++ str "Size: " ++ numberToString (File.size file) ++ str " bytes" ++ [LF]
  ++ [LF] ++ str "Content:" ++ [LF].

(** What the [try] block of [processFile] comes to. *)
Definition outcome (w : World) (file : File.t) : option Extraction :=
  match dispatch file with
  | Run s => Some (extract w s file)
  | OfficeDefault extension =>
      Some (Threw (str "Unsupported office file extension: " ++ extension))
  | NoBranch => None
  end.

(** [processFile]: the value its promise resolves to, and the state updates
    it makes at that moment.  The promise never rejects: the [catch] turns a
    thrown error into [null]. *)
Definition processFile (w : World) (file : File.t)
  : option ProcessedFile.t * list Action :=
  match outcome w file with
  | Some (Extracted content) =>
      (Some {| ProcessedFile.name := File.name file;
               ProcessedFile.content := header w file ++ content;
               ProcessedFile.originalType :=
                 orElse (extensionOf file) (str "unknown");
               ProcessedFile.path := filePathOf file |},
       [UpdateStats true])
  | Some (Threw message) =>
      (None, [UpdateStats false; LogError (File.name file) message])
  | None =>
      (None, [UpdateStats false;
              LogError (File.name file) (str "Unsupported file type")])
  end.

(** The final [else] has no [await] before it: its updates are made while
    [batch.map] is still running.  Every other branch awaits first. *)
Definition isSync (file : File.t) : bool :=
  match dispatch file with NoBranch => true | _ => false end.

(** Does the promise of [processFile] settle at all? *)
Definition settles (w : World) (file : File.t) : bool :=
  isSync file || bool_decide (is_Some (duration w file)).

Definition durationOf (w : World) (file : File.t) : N :=
  default 0%N (duration w file).

(** Stable insertion by settling time. *)
Fixpoint insertByTime (w : World) (x : File.t) (l : list File.t) : list File.t :=
  match l with
  | [] => [x]
  | y :: l' =>
      if N.leb (durationOf w x) (durationOf w y) then x :: l
      else y :: insertByTime w x l'
  end.

(** The awaited extractions of a batch that settle, in settling order. *)
Definition settleOrder (w : World) (batch : list File.t) : list File.t :=
  foldr (insertByTime w) []
        (List.filter (fun f => negb (isSync f)
                               && bool_decide (is_Some (duration w f))) batch).

Definition batchSize : nat := 5.
Global Arguments batchSize : simpl never.

(** [fileArray.slice(i, i + batchSize)] *)
Definition slice (fileArray : list File.t) (i j : nat) : list File.t :=
  take (j - i) (drop i fileArray).

(** The callback of [batch.map]: status, the first line of [processFile],
    and the updates of the branch that does not await. *)
Definition startFile (w : World) (i n : nat) (file : File.t) : list Action :=
  [SetProcessingStatus
     (str "Processing " ++ File.name file ++ str " ("
      ++ numberToString (N.of_nat (i + 1)) ++ str "/"
      ++ numberToString (N.of_nat n) ++ str ")");
   ConsoleLog (str "Processing file: " ++ File.name file
               ++ str ", extension: " ++ extensionOf file)]
  ++ (if isSync file then snd (processFile w file) else []).

(** Everything that happens between the start of a batch and the moment
    [Promise.all] settles (or for ever, if it does not). *)
Definition batchActions (w : World) (i n : nat) (batch : list File.t) : list Action :=
  flat_map (startFile w i n) batch
  ++ flat_map (fun f => snd (processFile w f)) (settleOrder w batch).

(** [results.filter(result => result !== null)] *)
Definition validResults (results : list (option ProcessedFile.t))
  : list ProcessedFile.t :=
  omap (fun r => r) results.

Definition processedMessage (w : World) (done n : nat) : jsstring :=
  str "Processed " ++ numberToString (N.of_nat done) ++ str " of "
  ++ numberToString (N.of_nat n) ++ str " files (" ++ toFixed1 w done n
  ++ str "%)".

Definition combinedText (processedResults : list ProcessedFile.t) : jsstring :=
  join [LF]
    (map (fun file => str "=== " ++ ProcessedFile.path file ++ str " ===" ++ [LF]
                      ++ ProcessedFile.content file ++ [LF])
         processedResults).

(** The [finally] block. *)
Definition finallyActions : list Action := [SetIsProcessing false].

(** The [for] loop of [handleFolderUpload] with what follows it.  [fuel]
    bounds the number of iterations; [length fileArray + 1] is never used
    up, since [i] grows by [batchSize]. *)
Fixpoint loop (w : World) (fileArray : list File.t) (fuel i : nat)
    (processedResults : list ProcessedFile.t) : list Action :=
  match fuel with
  | 0 => []
  | S fuel' =>
      if Nat.ltb i (length fileArray) then
        if aborted w i then
          (* throw new Error('Processing cancelled'), caught below *)
          SetProcessingStatus (str "Processing cancelled") :: finallyActions
        else
          let batch := slice fileArray i (i + batchSize) in
          if forallb (settles w) batch then
            let results := map (fun f => fst (processFile w f)) batch in
            let processedResults' := processedResults ++ validResults results in
            batchActions w i (length fileArray) batch
            ++ [SetProcessedFiles processedResults';
                SetProcessingStatus
                  (processedMessage w (i + length batch) (length fileArray))]
            ++ loop w fileArray fuel' (i + batchSize) processedResults'
          else
            (* [await Promise.all] never returns *)
            batchActions w i (length fileArray) batch
      else
        SetInputText (combinedText processedResults) :: finallyActions
  end.

Definition prologue (files : list File.t) : list Action :=
  [SetIsProcessing true;
   SetProcessingStatus (str "Scanning files...");
   SetStats {| total := length files; processed := 0; failed := 0 |};
   SetErrorLogs []].

(** [handleFolderUpload]: the updates of one run over [files]. *)
Definition handleFolderUpload (w : World) (files : list File.t) : list Action :=
  match files with
  | [] => []
  | _ :: _ => prologue files ++ loop w files (length files + 1) 0 []
  end.

(** [path.replace(/\.[^/.]+$/, '')]: a last dot followed by one or more
    characters other than a slash is cut off with what follows it. *)
Definition stripExtension (path : jsstring) : jsstring :=
  match split 46 path with
  | [] | [_] => path
  | parts =>
      let ext := pop parts in
      if Nat.ltb 0 (length ext) && negb (bool_decide (47%N ∈ ext))
      then join [46%N] (removelast parts)
      else path
  end.

(** [handleDownload] *)
Definition handleDownload (st : AppState) : Download :=
  if Nat.ltb 1 (length (processedFiles st)) then
    Archive (map (fun file =>
                    (stripExtension (ProcessedFile.path file) ++ str ".txt",
                     normalize (ProcessedFile.content file) (options st)))
                 (processedFiles st))
  else SingleText (outputText st).

End App.

(* ===================================================================== *)
(** * Reading a sequence of updates *)
(* ===================================================================== *)

(** Each state field as a fold of its own over the updates. *)
Definition statsStep (s : ProcessingStats) (a : Action) : ProcessingStats :=
  match a with
  | SetStats s' => s'
  | UpdateStats success => updateStats success s
  | _ => s
  end.

Definition logsStep (logs : list jsstring) (a : Action) : list jsstring :=
  match a with
  | SetErrorLogs l => l
  | LogError fileName message => logError fileName message logs
  | _ => logs
  end.

Definition filesStep (fs : list ProcessedFile.t) (a : Action) : list ProcessedFile.t :=
  match a with SetProcessedFiles l => l | _ => fs end.

Definition statusStep (s : jsstring) (a : Action) : jsstring :=
  match a with SetProcessingStatus s' => s' | _ => s end.

Definition busyStep (b : bool) (a : Action) : bool :=
  match a with SetIsProcessing b' => b' | _ => b end.

Definition inputStep (s : jsstring) (a : Action) : jsstring :=
  match a with SetInputText s' => s' | _ => s end.

(** The updates made while a batch is in flight. *)
Definition inFlight (a : Action) : bool :=
  match a with
  | SetProcessingStatus _ | ConsoleLog _ | UpdateStats _ | LogError _ _ => true
  | _ => false
  end.

(** Updates that leave counters and log in place or add to them. *)
Definition additive (a : Action) : bool :=
  match a with
  | SetStats _ | SetErrorLogs _ => false
  | _ => true
  end.

(** Outcomes resolved by a sequence of updates: successes and failures. *)
Definition nSucceeded (acts : list Action) : nat :=
  length (List.filter (fun a => match a with UpdateStats true => true | _ => false end) acts).

Definition nFailed (acts : list Action) : nat :=
  length (List.filter (fun a => match a with UpdateStats false => true | _ => false end) acts).

(** The log lines a sequence of updates appends. *)
Definition logged (acts : list Action) : list jsstring :=
  flat_map (fun a => match a with
                     | LogError fileName message => [logMessage fileName message]
                     | _ => []
                     end) acts.

(** The console lines of a sequence of updates: one per call of
    [processFile]. *)
Definition consoleLines (acts : list Action) : list jsstring :=
  flat_map (fun a => match a with ConsoleLog s => [s] | _ => [] end) acts.

Module AppRun.
Import App.

(** Did [processFile] resolve to a processed file? *)
Definition ok (w : World) (file : File.t) : bool :=
  bool_decide (is_Some (fst (processFile w file))).

(** The updates of [k] batches in a row, from index [i], that all settle and
    are not cancelled, with [processedResults] after them. *)
Fixpoint completed (w : World) (fileArray : list File.t) (k i : nat)
    (processedResults : list ProcessedFile.t)
  : list Action * list ProcessedFile.t :=
  match k with
  | 0 => ([], processedResults)
  | S k' =>
      let batch := slice fileArray i (i + batchSize) in
      let processedResults' :=
        processedResults
        ++ validResults (map (fun f => fst (processFile w f)) batch) in
      let rest := completed w fileArray k' (i + batchSize) processedResults' in
      (batchActions w i (length fileArray) batch
       ++ [SetProcessedFiles processedResults';
           SetProcessingStatus
             (processedMessage w (i + length batch) (length fileArray))]
       ++ fst rest,
       snd rest)
  end.

(** How the loop ends after its completed batches. *)
Inductive Ending (w : World) (fileArray : list File.t) (i : nat)
    (processedResults : list ProcessedFile.t) : list Action → Prop :=
| Finished :
    length fileArray ≤ i →
    Ending w fileArray i processedResults
      (SetInputText (combinedText processedResults) :: finallyActions)
| Cancelled :
    i < length fileArray → aborted w i = true →
    Ending w fileArray i processedResults
      (SetProcessingStatus (str "Processing cancelled") :: finallyActions)
| Stalled :
    i < length fileArray → aborted w i = false →
    forallb (settles w) (slice fileArray i (i + batchSize)) = false →
    Ending w fileArray i processedResults
      (batchActions w i (length fileArray) (slice fileArray i (i + batchSize))).

(** The console line [processFile] starts with. *)
Definition startLine (file : File.t) : jsstring :=
  str "Processing file: " ++ File.name file
  ++ str ", extension: " ++ extensionOf file.

End AppRun.

(* ===================================================================== *)
(** * The copy of the component with [processFileWithTimeout] *)
(* ===================================================================== *)

Module Timed.

(** The [if] chain of this [processFile] looks at the declared media type
    only. *)
Definition classify (file : File.t) : option Strategy :=
  let fileType := File.type file in
  if startsWith fileType (str "text/") then Some PlainText
  else if startsWith fileType (str "image/") then Some Image
  else if bool_decide (fileType = str "application/pdf") then Some Pdf
  else if bool_decide (fileType = str "application/vnd.openxmlformats-officedocument.wordprocessingml.document")
          || bool_decide (fileType = str "application/msword")
          || bool_decide (fileType = str "application/vnd.ms-word.document.macroEnabled.12")
  then Some WordDoc
  else if bool_decide (fileType = str "application/vnd.openxmlformats-officedocument.spreadsheetml.sheet")
          || bool_decide (fileType = str "application/vnd.ms-excel")
          || bool_decide (fileType = str "application/vnd.ms-excel.sheet.macroEnabled.12")
  then Some Spreadsheet
  else if bool_decide (fileType = str "application/vnd.openxmlformats-officedocument.presentationml.presentation")
          || bool_decide (fileType = str "application/vnd.ms-powerpoint")
          || bool_decide (fileType = str "application/vnd.ms-powerpoint.presentation.macroEnabled.12")
  then Some Presentation
  else if bool_decide (fileType = str "application/vnd.lotus-freelance")
          || bool_decide (fileType = str "application/rtf")
  then Some WordDoc                       (* [mammoth.extractRawText] again *)
  else None.

(** "Informações do Arquivo Original:" and the lines after it. *)
Definition header (w : World) (file : File.t) : jsstring :=
  str "Informa" ++ [231; 245]%N ++ str "es do Arquivo Original:" ++ [LF]
  ++ str "Caminho: " ++ App.filePathOf file ++ [LF]
  ++ str "Nome: " ++ File.name file ++ [LF]
  ++ str "Data: " ++ App.fileDateOf w file ++ [LF]
  ++ str "Tamanho: " ++ numberToString (File.size file) ++ str " bytes" ++ [LF]
  ++ [LF].

Definition processFile (w : World) (file : File.t)
  : option ProcessedFile.t * list Action :=
  match classify file with
  | Some s =>
      match extract w s file with
      | Extracted content =>
          (Some {| ProcessedFile.name := File.name file;
                   ProcessedFile.content := header w file ++ content;
                   ProcessedFile.originalType := File.type file;
                   ProcessedFile.path := App.filePathOf file |},
           [UpdateStats true])
      | Threw message =>
          (None, [UpdateStats false; LogError (File.name file) message])
      end
  | None =>
      (None, [UpdateStats false;
              LogError (File.name file) (str "Unsupported file type")])
  end.

(** Milliseconds until the promise of [processFile] settles: the final
    [else] returns without awaiting, the other branches take the time of
    their extraction, which may never end. *)
Definition settleTime (w : World) (file : File.t) : option N :=
  match classify file with
  | None => Some 0%N
  | Some _ => duration w file
  end.

(** How the promise of [processFileWithTimeout] settles. *)
Inductive Settled :=
| Resolved (result : option ProcessedFile.t)
| Rejected (message : jsstring).

(** Does [processFile] settle before the timer fires?  The timer is set
    before [processFile] is called, so an extraction that takes exactly
    [timeout] milliseconds comes after it. *)
Definition inTime (w : World) (file : File.t) (timeout : N) : bool :=
  match settleTime w file with
  | Some d => N.ltb d timeout
  | None => false
  end.

(** [processFileWithTimeout]: the timer rejects unless [processFile] has
    settled first, in which case the timer is cleared. *)
Definition processFileWithTimeout (w : World) (file : File.t) (timeout : N)
  : Settled :=
  if inTime w file timeout then Resolved (fst (processFile w file))
  else Rejected (str "File processing timed out").

(** The moment, counted from the call, at which that promise settles. *)
Definition settledAt (w : World) (file : File.t) (timeout : N) : N :=
  match settleTime w file with
  | Some d => N.min d timeout
  | None => timeout
  end.

Definition timeoutMs : N := 30000.

(** [processFileWithTimeout(file, 30000).catch(error => { ...; return null })]:
    the value [Promise.all] receives for the file. *)
Definition guarded (w : World) (file : File.t) : option ProcessedFile.t :=
  match processFileWithTimeout w file timeoutMs with
  | Resolved result => result
  | Rejected _ => None
  end.

(** The updates made for one file of a batch started at [start] up to the
    moment its promise settles, each with the time it is made at: the first
    line of [processFile], then the updates of [processFile] if it settles
    before the timer fires, and those of the [catch] handler if not. *)
Definition fileEvents (w : World) (start : N) (file : File.t)
  : list (N * Action) :=
  (start, ConsoleLog (str "Processing file: " ++ File.name file
                      ++ str ", type: " ++ File.type file))
  :: match processFileWithTimeout w file timeoutMs with
     | Resolved _ =>
         match settleTime w file with
         | Some d => map (fun a => ((start + d)%N, a)) (snd (processFile w file))
         | None => []
         end
     | Rejected message =>
         [((start + timeoutMs)%N, UpdateStats false);
          ((start + timeoutMs)%N, LogError (File.name file) message)]
     end.

(** The updates [processFile] makes when it settles although the timer has
    fired: the timer does not stop it. *)
Definition lateEvents (w : World) (start : N) (file : File.t)
  : list (N * Action) :=
  match processFileWithTimeout w file timeoutMs, settleTime w file with
  | Rejected _, Some d =>
      map (fun a => ((start + d)%N, a)) (snd (processFile w file))
  | _, _ => []
  end.

(** When [Promise.all] over a batch started at [start] settles. *)
Definition batchEnd (w : World) (start : N) (batch : list File.t) : N :=
  foldr (fun file t => N.max (start + settledAt w file timeoutMs) t) start batch.

Record Run := {
  events : list (N * Action);         (* the updates, with their times *)
  results : list ProcessedFile.t;     (* [processedResults] when the loop ends *)
  finishedAt : N                      (* when the [finally] block runs *)
}.

(** The [for] loop of this [handleFolderUpload]; there is no abort check in
    it.  The updates of late extractions are listed last. *)
Fixpoint loop (w : World) (fileArray : list File.t) (fuel i : nat) (start : N)
    (processedResults : list ProcessedFile.t) : Run :=
  match fuel with
  | 0 => {| events := []; results := processedResults; finishedAt := start |}
  | S fuel' =>
      if Nat.ltb i (length fileArray) then
        let batch := App.slice fileArray i (i + App.batchSize) in
        let settled := map (guarded w) batch in
        let processedResults' := processedResults ++ App.validResults settled in
        let finish := batchEnd w start batch in
        let rest := loop w fileArray fuel' (i + App.batchSize) finish processedResults' in
        {| events := flat_map (fileEvents w start) batch
                     ++ [(finish, SetProcessedFiles processedResults')]
                     ++ events rest
                     ++ flat_map (lateEvents w start) batch;
           results := results rest;
           finishedAt := finishedAt rest |}
      else
        {| events := [(start, SetIsProcessing false);
                      (start, SetProcessingStatus [])];
           results := processedResults;
           finishedAt := start |}
  end.

Definition handleFolderUpload (w : World) (files : list File.t) : Run :=
  match files with
  | [] => {| events := []; results := []; finishedAt := 0%N |}
  | _ :: _ =>
      let r := loop w files (length files + 1) 0 0%N [] in
      {| events := [(0%N, SetIsProcessing true);
                    (0%N, SetProcessingStatus (str "Scanning files..."));
                    (0%N, SetStats {| total := length files; processed := 0;
                                    failed := 0 |})]
                   ++ events r;
         results := results r;
         finishedAt := finishedAt r |}
  end.

(** The updates in the order of their times; updates made at the same time
    keep the order they are listed in, so that what a late extraction does
    comes after what the timer has set off. *)
Fixpoint insertEvent (e : N * Action) (l : list (N * Action))
  : list (N * Action) :=
  match l with
  | [] => [e]
  | e' :: l' =>
      if N.leb (fst e) (fst e') then e :: l else e' :: insertEvent e l'
  end.

Definition timeline (r : Run) : list Action :=
  map snd (foldr insertEvent [] (events r)).

(** The number of batches of a run over [n] files. *)
Definition batches (n : nat) : nat := (n + (App.batchSize - 1)) / App.batchSize.

End Timed.

(* ===================================================================== *)
(** * The classifier as the specification words it *)
(* ===================================================================== *)

Module ClassifierSpec.

(** The declared media types the specification calls well-known: the two
    prefixes, PDF, and the Office media types of [allowedExtensions]. *)
Definition recognizedMediaType (mediaType : jsstring) : option Strategy :=
  if startsWith mediaType (str "text/") then Some PlainText
  else if startsWith mediaType (str "image/") then Some Image
  else if bool_decide (mediaType = str "application/pdf") then Some Pdf
  else if bool_decide (mediaType = str "application/msword")
          || bool_decide (mediaType = str "application/vnd.openxmlformats-officedocument.wordprocessingml.document")
  then Some WordDoc
  else if bool_decide (mediaType = str "application/vnd.ms-excel")
          || bool_decide (mediaType = str "application/vnd.openxmlformats-officedocument.spreadsheetml.sheet")
  then Some Spreadsheet
  else if bool_decide (mediaType = str "application/vnd.ms-powerpoint")
          || bool_decide (mediaType = str "application/vnd.openxmlformats-officedocument.presentationml.presentation")
  then Some Presentation
  else None.

(** The media types [src/App.tsx] routes by. *)
Definition byMediaType (mediaType : jsstring) : option Strategy :=
  if startsWith mediaType (str "text/") then Some PlainText
  else if startsWith mediaType (str "image/") then Some Image
  else if bool_decide (mediaType = str "application/pdf") then Some Pdf
  else None.

(** The extensions [src/App.tsx] routes by. *)
Definition byExtension (extension : jsstring) : option Strategy :=
  if bool_decide (extension = str "pdf") then Some Pdf
  else if bool_decide (extension ∈ [str "doc"; str "docx"]) then Some WordDoc
  else if bool_decide (extension ∈ [str "xls"; str "xlsx"]) then Some Spreadsheet
  else if bool_decide (extension ∈ [str "ppt"; str "pptx"]) then Some Presentation
  else None.

End ClassifierSpec.

(* ===================================================================== *)
(** * Sample files and collaborators *)
(* ===================================================================== *)

Module Sample.

(** A file whose bytes are the ASCII text [body]; an extraction takes [ms]
    milliseconds. *)
Definition file (name type body : String.string) (ms : N) : File.t :=
  {| File.name := str name; File.type := str type;
     File.webkitRelativePath := str "docs/" ++ str name;
     File.size := ms; File.lastModified := 0; File.bytes := str body |}.

(** Extraction gives the bytes back as text; an empty file makes it throw;
    it takes [size] milliseconds, and for ever on a file of size 7. *)
Definition world (cancelFrom : option nat) : World :=
  {| extract := fun _ f =>
       match File.bytes f with
       | [] => Threw (str "empty input")
       | b => Extracted b
       end;
     duration := fun f =>
       if N.eqb (File.size f) 7 then None else Some (File.size f);
     toLocaleString := numberToString;
     aborted := fun i =>
       match cancelFrom with
       | Some k => Nat.leb k i
       | None => false
       end;
     toFixed1 := fun done n => numberToString (N.of_nat (done * 100 / n)) |}.

Definition A := file "A.txt" "text/plain" "alpha" 40.
Definition B := file "B.txt" "text/plain" "" 10.
Definition C := file "C.pdf" "" "gamma" 30.
Definition D := file "D.docx" "" "delta" 20.
Definition E := file "E.png" "image/png" "eps" 50.
Definition F := file "F.txt" "text/plain" "phi" 5.
Definition X := file "notes.xyz" "" "xi" 1.
Definition Slow := file "slow.txt" "text/plain" "late" 45000.
Definition Hang := file "hang.txt" "text/plain" "never" 7.
Definition Mismatch :=
  file "report.xlsx" "application/msword" "cells" 15.


(** The specification's example: six files, B fails. *)
Definition six : list File.t := [A; B; C; D; E; F].
Definition seven : list File.t := [A; B; C; D; E; F; X].
Definition withXyz : list File.t := [A; B] ++ X :: [C; D; E; F].
Definition withHang : list File.t := [A; Slow] ++ Hang :: [X; B; F].

(** Texts and option values. *)
Definition text_a_b : jsstring := str "a" ++ [LF] ++ str "b".
Definition text_padded : jsstring :=
  str "  a " ++ [LF] ++ str "   " ++ [LF] ++ str "b" ++ [LF].

Definition optionsWith (le : String.string) (remove trimws : bool) : ConversionOptions :=
  {| encoding := str "UTF-8"; lineEnding := str le;
     removeEmptyLines := remove; trimWhitespace := trimws |}.

End Sample.

(* ===================================================================== *)
(** * [src/App.tsx]: the extraction branches *)
(* ===================================================================== *)

Module Extractors.

(** [s.endsWith(p)] *)
Definition endsWith (s p : jsstring) : bool :=
  startsWith (rev s) (rev p).

(** [s.slice(1, -1)]: the string without its first and its last unit. *)
Definition sliceInner (s : jsstring) : jsstring :=
  removelast (tail s).

Definition isDigit (c : N) : bool := N.leb 48 c && N.leb c 57.

Fixpoint takeDigits (s : jsstring) : jsstring :=
  match s with
  | [] => []
  | c :: s' => if isDigit c then c :: takeDigits s' else []
  end.

(** [s.match(/\d+/)?.[0] || '']: the first run of digits, or nothing. *)
Fixpoint firstDigits (s : jsstring) : jsstring :=
  match s with
  | [] => []
  | c :: s' => if isDigit c then c :: takeDigits s' else firstDigits s'
  end.

(** [xml.match(/>([^<]+)</g)]: the matches from left to right.  [run] is
    [None] outside a match and holds the units read since a [>] inside one;
    a [<] closes the match when at least one unit was read, and a text that
    ends inside a match gives nothing for it. *)
Fixpoint scanText (run : option jsstring) (xml : jsstring) : list jsstring :=
  match xml with
  | [] => []
  | c :: xml' =>
      match run with
      | None => if N.eqb c 62 then scanText (Some []) xml' else scanText None xml'
      | Some r =>
          if N.eqb c 60 then
            match r with
            | [] => scanText None xml'
            | _ :: _ => (62%N :: r ++ [60%N]) :: scanText None xml'
            end
          else scanText (Some (r ++ [c])) xml'
      end
  end.

Definition textMatches (xml : jsstring) : list jsstring := scanText None xml.

(** The text runs of a slide: every match without its two brackets, trimmed,
    the empty ones left out. *)
Definition slideRuns (xml : jsstring) : list jsstring :=
  List.filter (fun text => Nat.ltb 0 (length text))
              (map (fun m => trim (sliceInner m)) (textMatches xml)).

(** What a library call gives: a value, or the error it throws. *)
Inductive Result (A : Type) :=
| Ok (a : A)
| Failed (message : jsstring).
Arguments Ok {A} a.
Arguments Failed {A} message.

(** The library calls of the extraction branches. *)
Record Libraries := {
  text : File.t → Result jsstring;                  (* file.text() *)
  arrayBuffer : File.t → Result unit;               (* file.arrayBuffer() *)
  recognize : File.t → Result jsstring;             (* the OCR worker *)
  getDocument : File.t → Result (list (list jsstring));
                                   (* per page, the [str] of its text items *)
  extractRawText : File.t → Result jsstring;        (* mammoth *)
  xlsxRead : File.t → Result (list (jsstring * jsstring));
                                   (* sheet names with their CSV rendering *)
  loadAsync : File.t → Result (list (jsstring * option jsstring))
                                   (* archive entries: name, content read *)
}.

(** The page loop of the PDF branch, [i] counting from 1. *)
Fixpoint pdfLoop (i : nat) (pages : list (list jsstring)) (content : jsstring)
  : jsstring :=
  match pages with
  | [] => content
  | items :: pages' =>
      pdfLoop (i + 1) pages'
        (content ++ str "Page " ++ numberToString (N.of_nat i) ++ [LF]
         ++ join (str " ") items ++ [LF; LF])
  end.

Definition pdfContent (pages : list (list jsstring)) : jsstring :=
  pdfLoop 1 pages [].

(** [workbook.SheetNames.forEach] *)
Definition sheetsContent (sheets : list (jsstring * jsstring)) : jsstring :=
  fold_left (fun content sheet =>
               content ++ str "Sheet: " ++ fst sheet ++ [LF]
               ++ snd sheet ++ [LF; LF])
            sheets [].

(** The filter on the names of the archive. *)
Definition isSlide (name : jsstring) : bool :=
  startsWith name (str "ppt/slides/slide") && endsWith name (str ".xml").

(** What one slide adds to [content]: nothing when its content is missing
    or empty or has no match. *)
Definition slideBlock (slide : jsstring * option jsstring) : jsstring :=
  match snd slide with
  | Some (c :: cs) =>
      match textMatches (c :: cs) with
      | [] => []
      | _ :: _ =>
          str "Slide " ++ firstDigits (fst slide) ++ [LF]
          ++ join [LF] (slideRuns (c :: cs)) ++ [LF; LF]
      end
  | Some [] | None => []
  end.

(** The loop over [slideFiles]. *)
Definition slidesContent (entries : list (jsstring * option jsstring)) : jsstring :=
  fold_left (fun content slide => content ++ slideBlock slide)
            (List.filter (fun e => isSlide (fst e)) entries) [].

Definition toExtraction (r : Result jsstring) : Extraction :=
  match r with
  | Ok content => Extracted content
  | Failed message => Threw message
  end.

(** [processOfficeFile]: the buffer is read first, then the [switch] on the
    extension; every [catch] throws the error on. *)
Definition processOfficeFile (libs : Libraries) (file : File.t) : Extraction :=
  let extension := App.extensionOf file in
  match arrayBuffer libs file with
  | Failed message => Threw message
  | Ok _ =>
      match App.officeStrategy extension with
      | Some WordDoc => toExtraction (extractRawText libs file)
      | Some Spreadsheet =>
          match xlsxRead libs file with
          | Ok sheets => Extracted (sheetsContent sheets)
          | Failed message => Threw message
          end
      | Some Presentation =>
          match loadAsync libs file with
          | Ok entries => Extracted (slidesContent entries)
          | Failed message => Threw message
          end
      | _ => Threw (str "Unsupported office file extension: " ++ extension)
      end
  end.

(** The body of each branch of [processFile]. *)
Definition extractWith (libs : Libraries) (s : Strategy) (file : File.t)
  : Extraction :=
  match s with
  | PlainText => toExtraction (text libs file)
  | Image => toExtraction (recognize libs file)
  | Pdf =>
      match arrayBuffer libs file with
      | Failed message => Threw message
      | Ok _ =>
          match getDocument libs file with
          | Ok pages => Extracted (pdfContent pages)
          | Failed message => Threw message
          end
      end
  | WordDoc | Spreadsheet | Presentation => processOfficeFile libs file
  end.

(** The collaborators of a run whose extractions are these branches. *)
Definition worldOf (libs : Libraries) (w : World) : World :=
  {| extract := extractWith libs;
     duration := duration w;
     toLocaleString := toLocaleString w;
     aborted := aborted w;
     toFixed1 := toFixed1 w |}.

End Extractors.

(* ===================================================================== *)
(** * [initializeWorker]: the OCR worker held in [workerRef] *)
(* ===================================================================== *)

Module Ocr.

Record State := {
  workerRef : option nat;     (* [workerRef.current]: the worker's number *)
  created : nat               (* calls of [createWorker] so far *)
}.

(** The two moments of [initializeWorker]: the call, which reads the
    reference and, finding it empty, calls [createWorker] before its first
    [await]; and the assignment once the worker is loaded. *)
Inductive Event :=
| Call
| Assign (worker : nat).

Definition step (st : State) (e : Event) : State :=
  match e with
  | Call =>
      match workerRef st with
      | None => {| workerRef := None; created := S (created st) |}
      | Some _ => st
      end
  | Assign worker => {| workerRef := Some worker; created := created st |}
  end.

Definition steps (events : list Event) (st : State) : State :=
  fold_left step events st.

(** The files of a batch that go through [processImageFile]. *)
Definition images (batch : list File.t) : list File.t :=
  List.filter (fun f => match App.classify f with
                        | Some Image => true
                        | _ => false
                        end) batch.

(** A batch as [handleFolderUpload] runs it: [batch.map] calls
    [processFile] for every file before any promise goes on, so every call
    of [initializeWorker] comes before every assignment; [loaded] lists the
    workers in the order their loading ends. *)
Definition batchEvents (batch : list File.t) (loaded : list nat) : list Event :=
  map (fun _ => Call) (images batch) ++ map Assign loaded.

(** One file after the other, each worker loaded before the next call. *)
Fixpoint sequentialEvents (n : nat) (st : State) : State :=
  match n with
  | 0 => st
  | S n' =>
      let st1 := step st Call in
      let st2 := match workerRef st with
                 | None => step st1 (Assign (created st))
                 | Some _ => st1
                 end in
      sequentialEvents n' st2
  end.

Definition empty : State := {| workerRef := None; created := 0 |}.

End Ocr.

(* ===================================================================== *)
(** * [handleDownload]: the archive *)
(* ===================================================================== *)

Module Zip.

(** [zip.file(name, data)]: the entry of that name is set, replacing one
    that is there.  (Folder entries are left out.) *)
Definition file (name data : jsstring) (zip : gmap jsstring jsstring)
  : gmap jsstring jsstring :=
  <[name := data]> zip.

(** The files of the archive after the calls [entries], in order. *)
Definition archive (entries : list (jsstring * jsstring)) : gmap jsstring jsstring :=
  fold_left (fun zip e => file (fst e) (snd e) zip) entries ∅.

(** The name [handleDownload] gives a processed file in the archive. *)
Definition archiveName (pf : ProcessedFile.t) : jsstring :=
  App.stripExtension (ProcessedFile.path pf) ++ str ".txt".

(** The archive [handleDownload] builds, if it builds one. *)
Definition downloaded (st : AppState) : option (gmap jsstring jsstring) :=
  match App.handleDownload st with
  | Archive entries => Some (archive entries)
  | SingleText _ => None
  end.

End Zip.

(* ===================================================================== *)
(** * The copy with the timer: late extractions *)
(* ===================================================================== *)

Module TimedExtra.

(** An extraction that settles, but not before the timer has fired. *)
Definition late (w : World) (file : File.t) : bool :=
  match Timed.settleTime w file with
  | Some d => N.leb Timed.timeoutMs d
  | None => false
  end.

End TimedExtra.

(* ===================================================================== *)
(** * Shapes of texts and of update sequences *)
(* ===================================================================== *)

(** As many log lines as failures. *)
Definition balanced (acts : list Action) : Prop :=
  length (logged acts) = nFailed acts.

(** Every line feed of the text directly follows a carriage return;
    [afterCR] tells whether the unit before the text is one. *)
Fixpoint crBeforeEveryLF (afterCR : bool) (s : jsstring) : bool :=
  match s with
  | [] => true
  | c :: s' =>
      (if N.eqb c LF then afterCR else true) && crBeforeEveryLF (N.eqb c CR) s'
  end.

(** The number of line feeds of a text. *)
Definition lineFeeds (s : jsstring) : nat :=
  length (List.filter (N.eqb LF) s).

(** The units of a list of lines, terminators not counted. *)
Definition totalLength (ls : list jsstring) : nat :=
  foldr (fun l n => length l + n) 0 ls.

(* ===================================================================== *)
(** * [abortControllerRef], [handleCancel], and runs that overlap *)
(* ===================================================================== *)

Module Abort.

(** The controllers made so far, each with its signal ([true]: aborted), and
    [abortControllerRef.current]: the number of a controller, or [None] for
    [null]. *)
Record Ref := {
  signals : list bool;
  current : option nat
}.

(** [useRef<AbortController | null>(null)] *)
Definition initial : Ref := {| signals := []; current := None |}.

(** [if (abortControllerRef.current) abortControllerRef.current.abort()] *)
Definition abortCurrent (r : Ref) : Ref :=
  match current r with
  | Some c => {| signals := <[c := true]> (signals r); current := Some c |}
  | None => r
  end.

(** [handleCancel] *)
Definition handleCancel (r : Ref) : Ref := abortCurrent r.

(** The first lines of [handleFolderUpload], for a selection that is not
    empty: the controller in the reference is aborted and a new one takes
    its place. *)
Definition renew (r : Ref) : Ref :=
  let r' := abortCurrent r in
  {| signals := signals r' ++ [false];
     current := Some (length (signals r')) |}.

(** The [finally] block: [abortControllerRef.current = null]. *)
Definition release (r : Ref) : Ref :=
  {| signals := signals r; current := None |}.

(** [abortControllerRef.current?.signal.aborted], the test of the loop: it
    reads the controller that is in the reference at that moment. *)
Definition signalAborted (r : Ref) : bool :=
  match current r with
  | Some c => default false (signals r !! c)
  | None => false
  end.

(** What the handlers do to the reference while a batch of a run is in
    flight: the user clicks cancel, selects another folder (that is not
    empty), or another run reaches its [finally] block. *)
Inductive Event := CancelClick | UploadStarts | RunEnds.

Definition step (r : Ref) (e : Event) : Ref :=
  match e with
  | CancelClick => handleCancel r
  | UploadStarts => renew r
  | RunEnds => release r
  end.

(** The controller a run started from [r0] makes for itself. *)
Definition own (r0 : Ref) : nat := length (signals r0).

(** The reference at the check before batch number [j] of a run started
    from [r0], where [during j'] lists what happens while batch [j'] is in
    flight.  Nothing comes between the first lines of the handler and the
    first check. *)
Fixpoint refAt (r0 : Ref) (during : nat → list Event) (j : nat) : Ref :=
  match j with
  | 0 => renew r0
  | S j' => fold_left step (during j') (refAt r0 during j')
  end.

(** The collaborators of [w], with the signal read off the reference. *)
Definition world (w : World) (r0 : Ref) (during : nat → list Event) : World :=
  {| extract := extract w; duration := duration w;
     toLocaleString := toLocaleString w;
     aborted := fun i => signalAborted (refAt r0 during (i / App.batchSize));
     toFixed1 := toFixed1 w |}.

(** The updates of two runs on the one React state, when the second upload
    comes after [n] updates of the first run and its run is over before the
    first run makes its next update. *)
Definition nested (n : nat) (first second : list Action) : list Action :=
  take n first ++ second ++ drop n first.

End Abort.

(* ===================================================================== *)
(** * More sample inputs *)
(* ===================================================================== *)

Module Cases.

Definition made (path content : String.string) : ProcessedFile.t :=
  {| ProcessedFile.name := str path; ProcessedFile.content := str content;
     ProcessedFile.originalType := str "doc"; ProcessedFile.path := str path |}.

Definition reportDoc := made "a/report.doc" "from doc".
Definition reportPdf := made "a/report.pdf" "from pdf".
Definition notes := made "a/notes.txt" "notes".

(** A state holding the given processed files. *)
Definition holding (fs : list ProcessedFile.t) : AppState :=
  {| inputText := []; outputText := str "old output"; options := defaultOptions;
     isProcessing := false; processedFiles := fs; processingStatus := [];
     stats := {| total := 0; processed := 0; failed := 0 |};
     errorLogs := [] |}.

(** Two names that differ in the case of their letters, the first of them
    not in ASCII: [ÉTÉ.PDF] and [été.pdf]. *)
Definition upperPdf : File.t :=
  {| File.name := [201; 84; 201]%N ++ str ".PDF"; File.type := [];
     File.webkitRelativePath := []; File.size := 3; File.lastModified := 0;
     File.bytes := str "scan" |}.
Definition lowerPdf : File.t :=
  {| File.name := [233; 116; 233]%N ++ str ".pdf"; File.type := [];
     File.webkitRelativePath := []; File.size := 9; File.lastModified := 0;
     File.bytes := str "other" |}.
Definition book := Sample.file "book.xlsx" "" "cells" 12.

(** Libraries that read a workbook of two sheets and fail elsewhere. *)
Definition libs : Extractors.Libraries :=
  {| Extractors.text := fun _ => Extractors.Failed (str "no text");
     Extractors.arrayBuffer := fun _ => Extractors.Ok tt;
     Extractors.recognize := fun _ => Extractors.Failed (str "no worker");
     Extractors.getDocument := fun _ => Extractors.Failed (str "bad pdf");
     Extractors.extractRawText := fun _ => Extractors.Failed (str "bad doc");
     Extractors.xlsxRead := fun _ =>
       Extractors.Ok [(str "First", str "1,2"); (str "Second", str "x")];
     Extractors.loadAsync := fun _ => Extractors.Failed (str "bad zip") |}.

(** An extraction that takes exactly as long as the timer. *)
Definition tie := Sample.file "tie.txt" "text/plain" "edge" 30000.

(** A text file with a date and a folder. *)
Definition memo : File.t :=
  {| File.name := str "memo.txt"; File.type := str "text/plain";
     File.webkitRelativePath := str "in/memo.txt"; File.size := 5;
     File.lastModified := 1700000000000; File.bytes := str "hello" |}.

(** The same file as the browser hands it over when it knows no media type
    for it. *)
Definition untyped : File.t :=
  {| File.name := str "memo.txt"; File.type := [];
     File.webkitRelativePath := str "in/memo.txt"; File.size := 5;
     File.lastModified := 1700000000000; File.bytes := str "hello" |}.


(** Nothing happens to the reference during the run. *)
Definition quiet : nat → list Abort.Event := fun _ => [].

(** The counters [j] updates after the reset, in a run over seven files
    with nothing else going on. *)
Definition countersAt (j : nat) : ProcessingStats :=
  stats (run (take (length (App.prologue Sample.seven) + j)
                   (App.handleFolderUpload
                      (Abort.world (Sample.world None) Abort.initial quiet)
                      Sample.seven))
             initialState).

(** A second folder is selected while the first batch is in flight, and its
    run is over before the first batch settles. *)
Definition secondUpload : nat → list Abort.Event :=
  fun j => if Nat.eqb j 0 then [Abort.UploadStarts; Abort.RunEnds] else [].

(** The first run over seven files, and the second over one file. *)
Definition firstRun : list Action :=
  App.handleFolderUpload
    (Abort.world (Sample.world None) Abort.initial secondUpload) Sample.seven.

Definition secondRun : list Action :=
  App.handleFolderUpload
    (Abort.world (Sample.world None) (Abort.renew Abort.initial) (fun _ => []))
    [Sample.F].

(** Five files, the third of which never settles. *)
Definition withHang : list File.t :=
  [Sample.A; Sample.B; Sample.Hang; Sample.C; Sample.D; Sample.E; Sample.F].

End Cases.
(* ===================================================================== *)
(** * Facts about the string methods *)
(* ===================================================================== *)

Section StringFacts.

Implicit Types (s t l r : jsstring) (ls : list jsstring) (c sep : N).

Lemma split_nonempty sep s : split sep s ≠ [].
Proof.
  destruct s as [|c s]; simpl; [done|].
  destruct (N.eqb c sep); [done|]. by destruct (split sep s).
Qed.

Lemma split_no_sep sep s : Forall (fun l => sep ∉ l) (split sep s).
Proof.
  induction s as [|c s IH]; simpl.
  - repeat constructor. by intros ?%elem_of_nil.
  - destruct (N.eqb_spec c sep) as [->|Hne].
    + constructor; [|done]. by intros ?%elem_of_nil.
    + destruct (split sep s) as [|l ls] eqn:E; [by apply split_nonempty in E|].
      inversion IH as [|? ? Hl Hls]; subst. constructor; [|done].
      intros [?|?]%elem_of_cons; congruence.
Qed.

Lemma join_split sep s : join [sep] (split sep s) = s.
Proof.
  induction s as [|c s IH]; simpl; [done|].
  destruct (N.eqb_spec c sep) as [->|Hne].
  - pose proof (split_nonempty sep s) as Hn.
    destruct (split sep s) as [|l ls]; [done|]. simpl in *. by rewrite IH.
  - destruct (split sep s) as [|l ls] eqn:E; [by apply split_nonempty in E|].
    simpl in *. destruct ls; simpl in *; by rewrite <- IH.
Qed.

Lemma split_app_no_sep sep l s :
  sep ∉ l → split sep (l ++ sep :: s) = l :: split sep s.
Proof.
  induction l as [|c l IH]; simpl; intros Hl.
  - by rewrite N.eqb_refl.
  - destruct (N.eqb_spec c sep) as [->|Hne]; [destruct Hl; left|].
    rewrite IH; [done|]. intros ?. apply Hl. by right.
Qed.

Lemma split_id sep l : sep ∉ l → split sep l = [l].
Proof.
  induction l as [|c l IH]; simpl; intros Hl; [done|].
  destruct (N.eqb_spec c sep) as [->|Hne]; [destruct Hl; left|].
  rewrite IH; [done|]. intros ?. apply Hl. by right.
Qed.

Lemma split_join sep ls :
  ls ≠ [] → Forall (fun l => sep ∉ l) ls → split sep (join [sep] ls) = ls.
Proof.
  induction ls as [|l ls IH]; [done|]. intros _ Hall.
  inversion Hall as [|? ? Hl Hls]; subst.
  destruct ls as [|l' ls]; [by apply split_id|].
  change (join [sep] (l :: l' :: ls)) with (l ++ sep :: join [sep] (l' :: ls)).
  rewrite split_app_no_sep by done. f_equal. by apply IH.
Qed.

Lemma replaceLF_app r s t : replaceLF r (s ++ t) = replaceLF r s ++ replaceLF r t.
Proof. induction s as [|c s IH]; simpl; [done|]. by rewrite IH, app_assoc. Qed.

Lemma replaceLF_id r s : LF ∉ s → replaceLF r s = s.
Proof.
  induction s as [|c s IH]; simpl; intros Hs; [done|].
  destruct (N.eqb_spec c LF) as [->|Hne]; [destruct Hs; left|].
  simpl. f_equal. apply IH. intros ?. apply Hs. by right.
Qed.

Lemma replaceLF_join r ls :
  Forall (fun l => LF ∉ l) ls → replaceLF r (join [LF] ls) = join r ls.
Proof.
  induction ls as [|l ls IH]; [done|]. intros Hall.
  inversion Hall as [|? ? Hl Hls]; subst.
  destruct ls as [|l' ls]; [by apply replaceLF_id|].
  change (join [LF] (l :: l' :: ls)) with (l ++ LF :: join [LF] (l' :: ls)).
  change (join r (l :: l' :: ls)) with (l ++ r ++ join r (l' :: ls)).
  rewrite replaceLF_app, replaceLF_id by done.
  change (replaceLF r (LF :: join [LF] (l' :: ls)))
    with (r ++ replaceLF r (join [LF] (l' :: ls))).
  by rewrite IH.
Qed.

Lemma replaceLF_no_LF r s : LF ∉ r → LF ∉ replaceLF r s.
Proof.
  intros Hr. induction s as [|c s IH]; simpl; [by intros ?%elem_of_nil|].
  intros [H|H]%elem_of_app; [|done].
  destruct (N.eqb_spec c LF) as [->|Hne]; [done|].
  apply list_elem_of_singleton in H. congruence.
Qed.

(** ** trimming *)

Lemma trimEnd_cons c s :
  trimEnd (c :: s) =
  if (isWhiteSpace c && bool_decide (trimEnd s = []))%bool then [] else c :: trimEnd s.
Proof.
  simpl. destruct (trimEnd s) eqn:E; simpl.
  - by destruct (isWhiteSpace c).
  - by rewrite andb_false_r.
Qed.

Lemma trimStart_idem s : trimStart (trimStart s) = trimStart s.
Proof.
  induction s as [|c s IH]; simpl; [done|].
  destruct (isWhiteSpace c) eqn:E; [done|]. simpl. by rewrite E.
Qed.

Lemma trimEnd_idem s : trimEnd (trimEnd s) = trimEnd s.
Proof.
  induction s as [|c s IH]; [done|].
  rewrite trimEnd_cons.
  destruct (isWhiteSpace c && bool_decide (trimEnd s = []))%bool eqn:E; [done|].
  rewrite trimEnd_cons, IH, E. done.
Qed.

Lemma trim_comm s : trimStart (trimEnd s) = trimEnd (trimStart s).
Proof.
  induction s as [|c s IH]; [done|].
  rewrite trimEnd_cons. cbn [trimStart].
  destruct (isWhiteSpace c) eqn:E; cbn [andb].
  - case_bool_decide as Hn.
    + by rewrite <- IH, Hn.
    + cbn [trimStart]. by rewrite E.
  - cbn [trimStart]. by rewrite E, trimEnd_cons, E.
Qed.

Lemma trim_idem s : trim (trim s) = trim s.
Proof.
  unfold trim. by rewrite trim_comm, trimEnd_idem, trimStart_idem.
Qed.

Lemma trim_trimStart s : trim s = s → trimStart s = s.
Proof.
  intros H. rewrite <- H at 1. unfold trim.
  rewrite <- trim_comm, trimStart_idem, trim_comm. exact H.
Qed.

Lemma trim_trimEnd s : trim s = s → trimEnd s = s.
Proof. intros H. rewrite <- H at 1. unfold trim. rewrite trimEnd_idem. exact H. Qed.

Lemma trimStart_no c s : c ∉ s → c ∉ trimStart s.
Proof.
  induction s as [|d s IH]; simpl; [done|]. intros Hs.
  destruct (isWhiteSpace d); [|done]. apply IH. intros ?. apply Hs. by right.
Qed.

Lemma trimEnd_no c s : c ∉ s → c ∉ trimEnd s.
Proof.
  induction s as [|d s IH]; [done|]. intros Hs. rewrite trimEnd_cons.
  destruct (_ && _)%bool; [by intros ?%elem_of_nil|].
  intros [->|?]%elem_of_cons; [apply Hs; by left|].
  apply IH; [|done]. intros ?. apply Hs. by right.
Qed.

Lemma trim_no c s : c ∉ s → c ∉ trim s.
Proof. intros. by apply trimEnd_no, trimStart_no. Qed.

Lemma trimEnd_snoc_ws s c : isWhiteSpace c = true → trimEnd (s ++ [c]) = trimEnd s.
Proof.
  intros Hc. induction s as [|d s IH]; simpl app.
  - simpl. by rewrite Hc.
  - by rewrite !trimEnd_cons, IH.
Qed.

Lemma trim_snoc_ws s c : isWhiteSpace c = true → trim (s ++ [c]) = trim s.
Proof. intros Hc. unfold trim. by rewrite <- !trim_comm, trimEnd_snoc_ws. Qed.

Lemma trimStart_nil s : trimStart s = [] ↔ forallb isWhiteSpace s = true.
Proof.
  induction s as [|c s IH]; simpl; [done|].
  destruct (isWhiteSpace c); simpl; [done|]. split; discriminate.
Qed.

Lemma trimEnd_nil s : trimEnd s = [] ↔ forallb isWhiteSpace s = true.
Proof.
  induction s as [|c s IH]; [done|]. rewrite trimEnd_cons. simpl forallb.
  destruct (isWhiteSpace c); simpl.
  - case_bool_decide as Hn; rewrite <- IH; split; try done.
  - split; discriminate.
Qed.

Lemma trim_nil s : trim s = [] ↔ forallb isWhiteSpace s = true.
Proof.
  rewrite <- trimStart_nil. unfold trim. rewrite trimEnd_nil.
  split; [|by intros ->].
  induction s as [|c s IH]; [done|]. cbn [trimStart].
  destruct (isWhiteSpace c) eqn:E; [done|]. cbn [forallb]. by rewrite E.
Qed.

Lemma trimStart_app_fixed l r : l ≠ [] → trimStart l = l → trimStart (l ++ r) = l ++ r.
Proof.
  destruct l as [|c l]; [done|]. intros _. simpl.
  destruct (isWhiteSpace c); [|done].
  intros H. apply (f_equal length) in H. simpl in H.
  assert (Hle : ∀ t, length (trimStart t) ≤ length t).
  { induction t as [|d t IHt]; simpl; [lia|]. destruct (isWhiteSpace d); simpl; lia. }
  specialize (Hle l). lia.
Qed.

Lemma trimEnd_app_fixed l r : l ≠ [] → trimEnd l = l → trimEnd (r ++ l) = r ++ l.
Proof.
  intros Hl H. induction r as [|c r IH]; [done|].
  simpl app. rewrite trimEnd_cons, IH.
  case_bool_decide as Hn; [by destruct r, l|]. by rewrite andb_false_r.
Qed.

End StringFacts.

(* ===================================================================== *)
(** * The normaliser: lines, order of the steps, re-application *)
(* ===================================================================== *)

Section NormalizerFacts.

Implicit Types (s t l r : jsstring) (ls : list jsstring) (o : ConversionOptions).

Lemma nonblank_test l :
  Nat.ltb 0 (length (trim l)) = negb (Nat.eqb (length (trim l)) 0).
Proof. by destruct (trim l). Qed.

Lemma nonblank_true l : negb (Nat.eqb (length (trim l)) 0) = true ↔ trim l ≠ [].
Proof. by destruct (trim l). Qed.

Lemma filter_nonblank_id ls :
  Forall (fun l => trim l ≠ []) ls →
  List.filter (fun line => negb (Nat.eqb (length (trim line)) 0)) ls = ls.
Proof.
  induction 1 as [|l ls Hl _ IH]; [done|]. simpl.
  apply nonblank_true in Hl. by rewrite Hl, IH.
Qed.

Lemma map_trim_id ls : Forall (fun l => trim l = l) ls → map trim ls = ls.
Proof. induction 1 as [|l ls Hl _ IH]; [done|]. simpl. by rewrite Hl, IH. Qed.

Lemma specLines_ok o text :
  linesOK o (specDropEmpty (removeEmptyLines o)
               (specTrimLines (trimWhitespace o) (split LF text))).
Proof.
  pose proof (split_no_sep LF text) as Hsplit.
  pose proof (split_nonempty LF text) as Hne.
  set (ls := split LF text) in *. clearbody ls.
  assert (HT : Forall noLF (specTrimLines (trimWhitespace o) ls)).
  { unfold specTrimLines. destruct (trimWhitespace o); [|done].
    apply Forall_fmap. eapply Forall_impl; [exact Hsplit|].
    intros l Hl. by apply trim_no. }
  assert (HT' : trimWhitespace o = true →
                Forall (fun l => trim l = l) (specTrimLines (trimWhitespace o) ls)).
  { intros ->. simpl. apply Forall_fmap, Forall_true. intros l. apply trim_idem. }
  assert (HTne : specTrimLines (trimWhitespace o) ls ≠ []).
  { unfold specTrimLines. destruct (trimWhitespace o); [|done]. by destruct ls. }
  set (ls1 := specTrimLines (trimWhitespace o) ls) in *. clearbody ls1.
  unfold specDropEmpty. destruct (removeEmptyLines o) eqn:ER.
  - split; try done.
    + apply List.Forall_forall. intros l [Hl _]%List.filter_In.
      by eapply List.Forall_forall in HT.
    + intros Ht. specialize (HT' Ht). apply List.Forall_forall.
      intros l [Hl _]%List.filter_In. by eapply List.Forall_forall in HT'.
    + intros _. apply List.Forall_forall. intros l [_ Hl]%List.filter_In.
      by apply nonblank_true.
    + congruence.
  - split; try done. congruence.
Qed.

(** [normalize] computes the lines of the text, trims them, drops the blank
    ones and writes them out with the chosen terminator, in that order. *)
Lemma normalize_lines text o : normalize text o = specNormalize text o.
Proof.
  unfold normalize, specNormalize.
  pose proof (split_no_sep LF text) as Hsplit.
  pose proof (split_nonempty LF text) as Hne.
  assert (H1 : ∃ ls1, ls1 = specTrimLines (trimWhitespace o) (split LF text)
                      ∧ (if trimWhitespace o then join [LF] (map trim (split LF text))
                         else text) = join [LF] ls1
                      ∧ ls1 ≠ [] ∧ Forall noLF ls1).
  { eexists; split; [done|]. unfold specTrimLines.
    destruct (trimWhitespace o).
    - split; [done|]. split; [by destruct (split LF text)|].
      apply Forall_fmap. eapply Forall_impl; [exact Hsplit|].
      intros l Hl. by apply trim_no.
    - by rewrite join_split. }
  destruct H1 as (ls1 & <- & -> & Hne1 & Hno1).
  assert (H2 : ∃ ls2, ls2 = specDropEmpty (removeEmptyLines o) ls1
                      ∧ (if removeEmptyLines o
                         then join [LF] (List.filter
                                (fun line => Nat.ltb 0 (length (trim line)))
                                (split LF (join [LF] ls1)))
                         else join [LF] ls1) = join [LF] ls2
                      ∧ Forall noLF ls2).
  { eexists; split; [done|]. unfold specDropEmpty.
    destruct (removeEmptyLines o); [|done].
    rewrite split_join by done. split.
    - f_equal. apply List.filter_ext. intros l. apply nonblank_test.
    - apply List.Forall_forall. intros l [Hl _]%List.filter_In.
      by eapply List.Forall_forall in Hno1. }
  destruct H2 as (ls2 & <- & -> & Hno2).
  unfold specTerminator.
  repeat case_bool_decide; try by rewrite replaceLF_join.
  done.
Qed.

End NormalizerFacts.

(* ===================================================================== *)
(** * Applying the normaliser to its own output *)
(* ===================================================================== *)

Section Reapply.

Implicit Types (s t l r sep : jsstring) (ls : list jsstring) (o : ConversionOptions).

Lemma join_cons2 sep l l' ls :
  join sep (l :: l' :: ls) = l ++ sep ++ join sep (l' :: ls).
Proof. done. Qed.

Lemma join_noLF sep ls : noLF sep → Forall noLF ls → noLF (join sep ls).
Proof.
  intros Hsep. induction 1 as [|l ls Hl Hls IH]; [by intros ?%elem_of_nil|].
  destruct ls as [|l' ls]; [done|]. rewrite join_cons2.
  intros [?|[?|?]%elem_of_app]%elem_of_app; done.
Qed.

Lemma join_addCR ls : join [CR; LF] ls = join [LF] (addCR ls).
Proof.
  induction ls as [|l ls IH]; [done|].
  destruct ls as [|l' ls]; [done|].
  change (addCR (l :: l' :: ls)) with ((l ++ [CR]) :: addCR (l' :: ls)).
  rewrite join_cons2, IH.
  destruct (addCR (l' :: ls)) as [|x xs] eqn:E; [by destruct ls|].
  rewrite join_cons2. by rewrite <- !app_assoc.
Qed.

Lemma addCR_nonempty ls : ls ≠ [] → addCR ls ≠ [].
Proof. destruct ls as [|l [|l' ls]]; done. Qed.

Lemma addCR_noLF ls : Forall noLF ls → Forall noLF (addCR ls).
Proof.
  induction 1 as [|l ls Hl Hls IH]; [done|].
  destruct ls as [|l' ls]; [by constructor|].
  change (addCR (l :: l' :: ls)) with ((l ++ [CR]) :: addCR (l' :: ls)).
  constructor; [|done].
  intros [?|H]%elem_of_app; [done|]. by apply list_elem_of_singleton in H.
Qed.

Lemma map_trim_addCR ls : Forall (fun l => trim l = l) ls → map trim (addCR ls) = ls.
Proof.
  induction 1 as [|l ls Hl Hls IH]; [done|].
  destruct ls as [|l' ls]; [simpl; by rewrite Hl|].
  change (addCR (l :: l' :: ls)) with ((l ++ [CR]) :: addCR (l' :: ls)).
  cbn [map]. rewrite IH, trim_snoc_ws by done. by rewrite Hl.
Qed.

Lemma join_nonblank sep ls :
  ls ≠ [] → Forall (fun l => trim l ≠ []) ls → trim (join sep ls) ≠ [].
Proof.
  destruct ls as [|l ls]; [done|]. intros _ Hall.
  inversion Hall as [|? ? Hl _]; subst.
  assert (Hf : forallb isWhiteSpace l = false).
  { destruct (forallb isWhiteSpace l) eqn:E; [|done]. by apply trim_nil in E. }
  intros Hn%trim_nil. destruct ls as [|l' ls]; [simpl in Hn; congruence|].
  rewrite join_cons2, forallb_app, Hf in Hn. done.
Qed.

Lemma join_trimEnd_fixed sep ls :
  ls ≠ [] → Forall (fun l => l ≠ [] ∧ trimEnd l = l) ls →
  join sep ls ≠ [] ∧ trimEnd (join sep ls) = join sep ls.
Proof.
  induction ls as [|l ls IH]; [done|]. intros _ Hall.
  inversion Hall as [|? ? [Hl Hl'] Hls]; subst.
  destruct ls as [|l' ls]; [done|].
  destruct IH as [IH1 IH2]; [done..|].
  rewrite join_cons2. split.
  - by destruct l.
  - rewrite !app_assoc. by apply trimEnd_app_fixed.
Qed.

Lemma join_trimmed sep ls :
  Forall (fun l => trim l = l) ls → Forall (fun l => trim l ≠ []) ls →
  trim (join sep ls) = join sep ls.
Proof.
  intros Ht Hn. destruct ls as [|l ls]; [done|].
  assert (Hall : Forall (fun l => l ≠ [] ∧ trimEnd l = l) (l :: ls)).
  { apply List.Forall_forall. intros x Hx.
    eapply List.Forall_forall in Ht; [|exact Hx].
    eapply List.Forall_forall in Hn; [|exact Hx]. simpl in *.
    split; [congruence|]. by apply trim_trimEnd. }
  destruct (join_trimEnd_fixed sep (l :: ls)) as [_ HE]; [done..|].
  inversion Ht as [|? ? Hl _]; inversion Hn as [|? ? Hl' _]; subst.
  assert (HS : trimStart (join sep (l :: ls)) = join sep (l :: ls)).
  { destruct ls as [|l' ls]; [by apply trim_trimStart|].
    rewrite join_cons2. apply trimStart_app_fixed; [congruence|].
    by apply trim_trimStart. }
  unfold trim. by rewrite HS.
Qed.

Lemma passLines_fixed o ls : linesOK o ls → ls ≠ [] → passLines o ls = ls.
Proof.
  intros [_ Ht Hn _] _. unfold passLines, specTrimLines, specDropEmpty.
  destruct (trimWhitespace o); [rewrite map_trim_id by auto|];
    (destruct (removeEmptyLines o); [by rewrite filter_nonblank_id by auto|done]).
Qed.

Lemma passLines_blank o : removeEmptyLines o = true → passLines o [[]] = [].
Proof.
  intros H. unfold passLines, specTrimLines, specDropEmpty. rewrite H.
  by destruct (trimWhitespace o).
Qed.

Lemma linesOK_nil o ls : linesOK o ls → ls = [] → removeEmptyLines o = true.
Proof.
  intros [_ _ _ Hne] ->. destruct (removeEmptyLines o); [done|]. by destruct Hne.
Qed.

Lemma reapply_LF o ls :
  linesOK o ls → passLines o (split LF (join [LF] ls)) = ls.
Proof.
  intros Hok. destruct ls as [|l ls].
  - apply passLines_blank. by eapply linesOK_nil.
  - rewrite split_join; [by apply passLines_fixed| done | apply Hok].
Qed.

Lemma reapply_CRLF o ls :
  trimWhitespace o = true → linesOK o ls →
  passLines o (split LF (join [CR; LF] ls)) = ls.
Proof.
  intros HT Hok. destruct ls as [|l ls].
  - apply passLines_blank. by eapply linesOK_nil.
  - rewrite join_addCR, split_join;
      [|by apply addCR_nonempty|apply addCR_noLF, Hok].
    destruct Hok as [_ Ht Hn _].
    unfold passLines, specTrimLines. rewrite HT, map_trim_addCR by auto.
    unfold specDropEmpty. destruct (removeEmptyLines o); [|done].
    by rewrite filter_nonblank_id by auto.
Qed.

Lemma reapply_CR o ls :
  trimWhitespace o = false ∨ removeEmptyLines o = true → linesOK o ls →
  join [CR] (passLines o (split LF (join [CR] ls))) = join [CR] ls.
Proof.
  intros Hopt Hok.
  assert (HnoLF : noLF (join [CR] ls)).
  { apply join_noLF; [|apply Hok]. intros H%list_elem_of_singleton. done. }
  rewrite split_id by done.
  destruct ls as [|l ls].
  { rewrite passLines_blank; [done|]. by eapply linesOK_nil. }
  destruct Hok as [_ Ht Hn _].
  unfold passLines, specTrimLines, specDropEmpty.
  destruct (trimWhitespace o) eqn:ET, (removeEmptyLines o) eqn:ER;
    try (destruct Hopt; congruence).
  - cbn [map]. rewrite join_trimmed by auto.
    cbn [List.filter].
    assert (Hb : trim (join [CR] (l :: ls)) ≠ []) by (apply join_nonblank; auto).
    apply nonblank_true in Hb. by rewrite Hb.
  - cbn [List.filter].
    assert (Hb : trim (join [CR] (l :: ls)) ≠ []) by (apply join_nonblank; auto).
    apply nonblank_true in Hb. by rewrite Hb.
  - done.
Qed.

End Reapply.

(* ===================================================================== *)
(** * The normaliser: the properties *)
(* ===================================================================== *)

(** C10: with the default options (line ending LF, no trimming, no removal of
    empty lines) [normalize] returns its input unchanged, whatever the text
    holds, carriage returns included; the encoding field plays no part. *)
Theorem normalize_default_is_identity (text : jsstring) :
  normalize text defaultOptions = text
  ∧ ∀ enc, normalize text {| encoding := enc; lineEnding := str "LF";
                             removeEmptyLines := false;
                             trimWhitespace := false |} = text.
Proof. split; [reflexivity|]. intros enc. reflexivity. Qed.

(** C7: [normalize] applies its steps in one fixed order: the lines of the
    text are trimmed (when [trimWhitespace]), then the lines whose trimmed
    content is empty are dropped (when [removeEmptyLines], looking at the lines
    as the trimming left them), and last the terminator is written: LF leaves
    the line feeds, CRLF puts a carriage return before each, CR puts a
    carriage return in place of each.  [handleConvert] does so on the input
    text and [handleDownload] on the content of every file of the archive. *)
Theorem normalize_steps_in_fixed_order (text : jsstring) (o : ConversionOptions) :
  normalize text o =
  join (specTerminator (lineEnding o))
       (specDropEmpty (removeEmptyLines o)
          (specTrimLines (trimWhitespace o) (split LF text)))
  ∧ specTerminator (str "LF") = [LF]
  ∧ specTerminator (str "CRLF") = [CR; LF]
  ∧ specTerminator (str "CR") = [CR]
  ∧ (∀ st, outputText (handleConvert st)
           = specNormalize (inputText st) (options st))
  ∧ (∀ st, App.handleDownload st
           = if Nat.ltb 1 (length (processedFiles st))
             then Archive
                    (map (fun file =>
                            (App.stripExtension (ProcessedFile.path file) ++ str ".txt",
                             specNormalize (ProcessedFile.content file) (options st)))
                         (processedFiles st))
             else SingleText (outputText st)).
Proof.
  split; [apply normalize_lines|]. do 3 (split; [done|]). split.
  - intros st. apply normalize_lines.
  - intros st. unfold App.handleDownload. destruct (Nat.ltb _ _); [|done].
    f_equal. apply map_ext. intros file. by rewrite normalize_lines.
Qed.

(** Trimming empties the middle line, which the removal step then drops. *)
Example normalize_drops_newly_empty_lines :
  normalize Sample.text_padded (Sample.optionsWith "CRLF" true true) = str "a" ++ [CR; LF] ++ str "b".
Proof. vm_compute. reflexivity. Qed.

(** C2, as stated, fails: with CRLF and no trimming the second application
    puts another carriage return before the line feed. *)
Lemma normalize_CRLF_twice_doubles_CR :
  normalize Sample.text_a_b (Sample.optionsWith "CRLF" false false) = str "a" ++ [CR; LF] ++ str "b"
  ∧ normalize (normalize Sample.text_a_b (Sample.optionsWith "CRLF" false false))
              (Sample.optionsWith "CRLF" false false)
    = str "a" ++ [CR; CR; LF] ++ str "b"
  ∧ normalize (normalize Sample.text_a_b (Sample.optionsWith "CRLF" false false))
              (Sample.optionsWith "CRLF" false false)
    ≠ normalize Sample.text_a_b (Sample.optionsWith "CRLF" false false).
Proof. vm_compute. repeat split. discriminate. Qed.

(** With CR and trimming (and no removal of empty lines) the second
    application sees one line and trims the carriage return at its end. *)
Lemma normalize_CR_twice_trims_terminator :
  normalize (str "a" ++ [LF]) (Sample.optionsWith "CR" false true) = str "a" ++ [CR]
  ∧ normalize (normalize (str "a" ++ [LF]) (Sample.optionsWith "CR" false true))
              (Sample.optionsWith "CR" false true) = str "a".
Proof. vm_compute. by split. Qed.

(** C2 (amended): [normalize] applied to its own output changes nothing when
    the line ending is LF (or any value other than CRLF and CR), when it is
    CRLF and [trimWhitespace] is on, and when it is CR and either
    [trimWhitespace] is off or [removeEmptyLines] is on. *)
Theorem normalize_idempotent_when_reapplySafe (text : jsstring) (o : ConversionOptions) :
  reapplySafe o = true →
  normalize (normalize text o) o = normalize text o.
Proof.
  intros Hsafe. rewrite !normalize_lines. unfold specNormalize.
  pose proof (specLines_ok o text) as Hok.
  fold (passLines o (split LF text)) in *.
  set (ls := passLines o (split LF text)) in *. clearbody ls.
  fold (passLines o
          (split LF (join (specTerminator (lineEnding o)) ls))).
  unfold reapplySafe, specTerminator in *.
  destruct (bool_decide (lineEnding o = str "CRLF")).
  - by rewrite reapply_CRLF.
  - destruct (bool_decide (lineEnding o = str "CR")).
    + apply reapply_CR; [|done].
      destruct (trimWhitespace o); [right|by left]. done.
    + by rewrite reapply_LF.
Qed.

Lemma normalize_idempotent_when_reapplySafe_witness :
  reapplySafe (Sample.optionsWith "CRLF" true true) = true
  ∧ normalize (normalize Sample.text_padded (Sample.optionsWith "CRLF" true true))
              (Sample.optionsWith "CRLF" true true)
    = normalize Sample.text_padded (Sample.optionsWith "CRLF" true true).
Proof.
  split; [reflexivity|].
  apply (normalize_idempotent_when_reapplySafe Sample.text_padded
           (Sample.optionsWith "CRLF" true true)).
  reflexivity.
Defined.

(** The other option values do change some text on a second application. *)
Lemma normalize_not_idempotent_otherwise (o : ConversionOptions) :
  reapplySafe o = false →
  ∃ text, normalize (normalize text o) o ≠ normalize text o.
Proof.
  unfold reapplySafe. destruct o as [enc le rm tw]; simpl.
  case_bool_decide as H1; [|case_bool_decide as H2; [|done]].
  - intros ->. exists Sample.text_a_b. unfold normalize; simpl.
    rewrite !bool_decide_eq_true_2 by done. by destruct rm.
  - intros [->%negb_false_iff ->]%orb_false_iff.
    exists (str "a" ++ [LF]). unfold normalize; simpl.
    rewrite (bool_decide_eq_false_2 _ H1), !bool_decide_eq_true_2 by done.
    done.
Qed.

(* ===================================================================== *)
(** * Sequences of updates *)
(* ===================================================================== *)

Section Updates.

Implicit Types (a : Action) (acts : list Action) (st : AppState).

Lemma run_app acts1 acts2 st : run (acts1 ++ acts2) st = run acts2 (run acts1 st).
Proof. unfold run. apply fold_left_app. Qed.

Lemma stats_run acts st : stats (run acts st) = fold_left statsStep acts (stats st).
Proof.
  revert st. induction acts as [|a acts IH]; intros st; [done|].
  simpl. rewrite IH. by destruct a.
Qed.

Lemma errorLogs_run acts st :
  errorLogs (run acts st) = fold_left logsStep acts (errorLogs st).
Proof.
  revert st. induction acts as [|a acts IH]; intros st; [done|].
  simpl. rewrite IH. by destruct a.
Qed.

Lemma processedFiles_run acts st :
  processedFiles (run acts st) = fold_left filesStep acts (processedFiles st).
Proof.
  revert st. induction acts as [|a acts IH]; intros st; [done|].
  simpl. rewrite IH. by destruct a.
Qed.


Lemma isProcessing_run acts st :
  isProcessing (run acts st) = fold_left busyStep acts (isProcessing st).
Proof.
  revert st. induction acts as [|a acts IH]; intros st; [done|].
  simpl. rewrite IH. by destruct a.
Qed.

Lemma inputText_run acts st :
  inputText (run acts st) = fold_left inputStep acts (inputText st).
Proof.
  revert st. induction acts as [|a acts IH]; intros st; [done|].
  simpl. rewrite IH. by destruct a.
Qed.

Lemma nSucceeded_app acts1 acts2 :
  nSucceeded (acts1 ++ acts2) = nSucceeded acts1 + nSucceeded acts2.
Proof. unfold nSucceeded. by rewrite List.filter_app, length_app. Qed.

Lemma nFailed_app acts1 acts2 :
  nFailed (acts1 ++ acts2) = nFailed acts1 + nFailed acts2.
Proof. unfold nFailed. by rewrite List.filter_app, length_app. Qed.

Lemma logged_app acts1 acts2 : logged (acts1 ++ acts2) = logged acts1 ++ logged acts2.
Proof. unfold logged. apply flat_map_app. Qed.

Lemma consoleLines_app acts1 acts2 :
  consoleLines (acts1 ++ acts2) = consoleLines acts1 ++ consoleLines acts2.
Proof. unfold consoleLines. apply flat_map_app. Qed.

Lemma additive_app acts1 acts2 :
  forallb additive (acts1 ++ acts2) = forallb additive acts1 && forallb additive acts2.
Proof. apply forallb_app. Qed.

(** Counters after updates that only add: the total stays, [processed] grows
    by the outcomes resolved, [failed] by the failures among them. *)
Lemma stats_additive acts s :
  forallb additive acts = true →
  fold_left statsStep acts s =
  {| total := total s;
     processed := processed s + (nSucceeded acts + nFailed acts);
     failed := failed s + nFailed acts |}.
Proof.
  revert s. induction acts as [|a acts IH]; intros s Hadd.
  - destruct s; unfold nSucceeded, nFailed; simpl. f_equal; lia.
  - simpl in Hadd. apply andb_true_iff in Hadd as [Ha Hadd].
    simpl fold_left. rewrite IH by done.
    destruct a as [| | |[]| | | | |]; try done; simpl;
      unfold nSucceeded, nFailed; simpl; f_equal; lia.
Qed.

Lemma logs_additive acts logs :
  forallb additive acts = true →
  fold_left logsStep acts logs = logs ++ logged acts.
Proof.
  revert logs. induction acts as [|a acts IH]; intros logs Hadd.
  - by rewrite app_nil_r.
  - simpl in Hadd. apply andb_true_iff in Hadd as [Ha Hadd].
    simpl fold_left. rewrite IH by done.
    destruct a; try done. simpl. unfold logError. by rewrite <- app_assoc.
Qed.

Lemma inFlight_additive acts :
  forallb inFlight acts = true → forallb additive acts = true.
Proof.
  intros H. apply forallb_forall. intros a Ha.
  eapply forallb_forall in H; [|exact Ha]. by destruct a.
Qed.

Lemma files_inFlight acts fs :
  forallb inFlight acts = true → fold_left filesStep acts fs = fs.
Proof.
  revert fs. induction acts as [|a acts IH]; intros fs H; [done|].
  simpl in H. apply andb_true_iff in H as [Ha H]. simpl. rewrite IH by done.
  by destruct a.
Qed.

Lemma busy_inFlight acts b :
  forallb inFlight acts = true → fold_left busyStep acts b = b.
Proof.
  revert b. induction acts as [|a acts IH]; intros b H; [done|].
  simpl in H. apply andb_true_iff in H as [Ha H]. simpl. rewrite IH by done.
  by destruct a.
Qed.

Lemma input_inFlight acts s :
  forallb inFlight acts = true → fold_left inputStep acts s = s.
Proof.
  revert s. induction acts as [|a acts IH]; intros s H; [done|].
  simpl in H. apply andb_true_iff in H as [Ha H]. simpl. rewrite IH by done.
  by destruct a.
Qed.

Lemma nSucceeded_perm acts1 acts2 : acts1 ≡ₚ acts2 → nSucceeded acts1 = nSucceeded acts2.
Proof.
  unfold nSucceeded. induction 1 as [|a ? ? _ IH|a b ?|? ? ? _ IH1 _ IH2];
    simpl; try done.
  - destruct a as [| | |[]| | | | |]; simpl; by rewrite ?IH.
  - by destruct a as [| | |[]| | | | |], b as [| | |[]| | | | |].
  - by rewrite IH1.
Qed.

Lemma nFailed_perm acts1 acts2 : acts1 ≡ₚ acts2 → nFailed acts1 = nFailed acts2.
Proof.
  unfold nFailed. induction 1 as [|a ? ? _ IH|a b ?|? ? ? _ IH1 _ IH2];
    simpl; try done.
  - destruct a as [| | |[]| | | | |]; simpl; by rewrite ?IH.
  - by destruct a as [| | |[]| | | | |], b as [| | |[]| | | | |].
  - by rewrite IH1.
Qed.

End Updates.

(* ===================================================================== *)
(** * [src/App.tsx]: one file, one batch *)
(* ===================================================================== *)

Section Batch.

Import App AppRun.

Variable w : World.

Implicit Types (file f : File.t) (batch l : list File.t).

Lemma officeStrategy_listed ext :
  includes [str "doc"; str "docx"; str "xls"; str "xlsx"; str "ppt"; str "pptx"]
           (orElse ext []) = true →
  is_Some (officeStrategy ext).
Proof.
  unfold includes. intros H%bool_decide_eq_true.
  assert (Hext : orElse ext [] = ext) by (by destruct ext).
  rewrite Hext in H.
  repeat (apply elem_of_cons in H as [->|H]; [by eexists|]).
  by apply elem_of_nil in H.
Qed.

Lemma dispatch_never_default file ext : dispatch file ≠ OfficeDefault ext.
Proof.
  unfold dispatch.
  destruct (startsWith _ _); [done|]. destruct (startsWith _ _); [done|].
  destruct (_ || _); [done|].
  destruct (includes _ _) eqn:E; [|done].
  apply officeStrategy_listed in E as [s ->]. done.
Qed.

Lemma isSync_classify file : isSync file = true ↔ classify file = None.
Proof.
  unfold isSync, classify. pose proof (dispatch_never_default file) as H.
  destruct (dispatch file); [done| by destruct (H extension) |done].
Qed.

Lemma processFile_inFlight file : forallb inFlight (snd (processFile w file)) = true.
Proof. unfold processFile. by repeat case_match. Qed.

Lemma processFile_sync file :
  isSync file = true →
  processFile w file =
  (None, [UpdateStats false;
          LogError (File.name file) (str "Unsupported file type")]).
Proof.
  unfold isSync, processFile, outcome. by destruct (dispatch file).
Qed.

Lemma ok_not_sync file : ok w file = true → isSync file = false.
Proof.
  unfold ok. destruct (isSync file) eqn:E; [|done].
  rewrite processFile_sync by done. done.
Qed.

Lemma processFile_counts file :
  nSucceeded (snd (processFile w file)) = (if ok w file then 1 else 0)
  ∧ nFailed (snd (processFile w file)) = (if ok w file then 0 else 1).
Proof.
  unfold ok, processFile. by destruct (outcome w file) as [[c|m]|].
Qed.

Lemma validResults_map l :
  validResults (map (fun f => fst (processFile w f)) l)
  = omap (fun f => fst (processFile w f)) l.
Proof.
  unfold validResults. induction l as [|f l IH]; [done|]. simpl.
  destruct (fst (processFile w f)); [f_equal|]; exact IH.
Qed.

Lemma length_omap_ok l :
  length (omap (fun f => fst (processFile w f)) l) = length (List.filter (ok w) l).
Proof.
  induction l as [|f l IH]; [done|]. simpl. unfold ok at 1.
  destruct (fst (processFile w f)) eqn:E; simpl; [f_equal|]; exact IH.
Qed.

Lemma insertByTime_perm x l : insertByTime w x l ≡ₚ x :: l.
Proof.
  induction l as [|y l IH]; simpl; [done|].
  destruct (N.leb _ _); [done|]. rewrite IH. apply Permutation_swap.
Qed.

Lemma settleOrder_perm batch :
  settleOrder w batch
  ≡ₚ List.filter (fun f => negb (isSync f) && bool_decide (is_Some (duration w f))) batch.
Proof.
  unfold settleOrder.
  induction (List.filter _ batch) as [|x l IH]; simpl; [done|].
  by rewrite insertByTime_perm, IH.
Qed.

Lemma startFile_inFlight i n file : forallb inFlight (startFile w i n file) = true.
Proof.
  unfold startFile. simpl. destruct (isSync file); [|done].
  apply processFile_inFlight.
Qed.

Lemma forallb_flat_map {A B} (p : B → bool) (g : A → list B) (l : list A) :
  (∀ x, forallb p (g x) = true) → forallb p (flat_map g l) = true.
Proof.
  intros H. induction l as [|x l IH]; [done|]. simpl.
  by rewrite forallb_app, H, IH.
Qed.

Lemma batchActions_inFlight i n batch :
  forallb inFlight (batchActions w i n batch) = true.
Proof.
  unfold batchActions. rewrite forallb_app, !forallb_flat_map; [done|..].
  - apply processFile_inFlight.
  - apply startFile_inFlight.
Qed.

Lemma startFile_counts i n file :
  nSucceeded (startFile w i n file) = 0
  ∧ nFailed (startFile w i n file) = (if isSync file then 1 else 0).
Proof.
  unfold startFile. rewrite nSucceeded_app, nFailed_app.
  destruct (isSync file) eqn:E; [|done].
  by rewrite processFile_sync.
Qed.

Lemma batchActions_counts i n batch :
  nSucceeded (batchActions w i n batch)
  = length (List.filter (fun f => settles w f && ok w f) batch)
  ∧ nFailed (batchActions w i n batch)
    = length (List.filter (fun f => settles w f && negb (ok w f)) batch).
Proof.
  unfold batchActions. rewrite nSucceeded_app, nFailed_app.
  rewrite (nSucceeded_perm _ _ (Permutation_flat_map _ (settleOrder_perm batch))).
  rewrite (nFailed_perm _ _ (Permutation_flat_map _ (settleOrder_perm batch))).
  induction batch as [|f batch [IH1 IH2]]; [done|].
  cbn [flat_map List.filter]. rewrite !nSucceeded_app, !nFailed_app.
  destruct (processFile_counts f) as [Hs Hf].
  destruct (startFile_counts i n f) as [-> ->].
  assert (Hsync : isSync f = true → ok w f = false).
  { intros E. destruct (ok w f) eqn:E'; [|done].
    apply ok_not_sync in E'. congruence. }
  pose proof (eq_refl : settles w f = isSync f || bool_decide (is_Some (duration w f)))
    as Hset.
  destruct (isSync f) eqn:Esync, (bool_decide (is_Some (duration w f))) eqn:Ed,
           (ok w f) eqn:Eok;
    try (by specialize (Hsync eq_refl));
    rewrite Hset; cbn [negb andb orb flat_map length];
    rewrite ?nSucceeded_app, ?nFailed_app, ?Hs, ?Hf; lia.
Qed.

Lemma filter_all {A} (p q : A → bool) (l : list A) :
  forallb p l = true →
  List.filter (fun x => p x && q x) l = List.filter q l.
Proof.
  induction l as [|x l IH]; [done|]. simpl.
  intros [Hx Hl]%andb_true_iff. by rewrite Hx, IH.
Qed.

Lemma length_filter_split {A} (q : A → bool) (l : list A) :
  length (List.filter q l) + length (List.filter (fun x => negb (q x)) l) = length l.
Proof.
  induction l as [|x l IH]; [done|]. simpl. destruct (q x); simpl; lia.
Qed.

Lemma length_filter_le {A} (q : A → bool) (l : list A) :
  length (List.filter q l) ≤ length l.
Proof. induction l as [|x l IH]; [done|]. simpl. destruct (q x); simpl; lia. Qed.

(** A batch that resolves accounts for each of its files once: as many
    successes as files kept by [validResults], failures for the rest. *)
Lemma batchActions_counts_resolved i n batch :
  forallb (settles w) batch = true →
  nSucceeded (batchActions w i n batch)
  = length (omap (fun f => fst (processFile w f)) batch)
  ∧ nSucceeded (batchActions w i n batch) + nFailed (batchActions w i n batch)
    = length batch.
Proof.
  intros Hall. destruct (batchActions_counts i n batch) as [-> ->].
  rewrite !filter_all by done. rewrite length_omap_ok. split; [done|].
  apply length_filter_split.
Qed.

(** A batch in flight never accounts for more outcomes than it has files. *)
Lemma batchActions_counts_le i n batch :
  nSucceeded (batchActions w i n batch) + nFailed (batchActions w i n batch)
  ≤ length batch.
Proof.
  destruct (batchActions_counts i n batch) as [-> ->].
  induction batch as [|f batch IH]; [done|]. simpl.
  destruct (settles w f), (ok w f); simpl; lia.
Qed.

Lemma consoleLines_processFile file : consoleLines (snd (processFile w file)) = [].
Proof. unfold processFile. by repeat case_match. Qed.

Lemma consoleLines_flat_map_nil {A} (g : A → list Action) (l : list A) :
  (∀ x, consoleLines (g x) = []) → consoleLines (flat_map g l) = [].
Proof.
  intros H. induction l as [|x l IH]; [done|]. simpl.
  by rewrite consoleLines_app, H, IH.
Qed.

(** One console line per file of the batch, in the order of the batch. *)
Lemma consoleLines_batchActions i n batch :
  consoleLines (batchActions w i n batch) = map startLine batch.
Proof.
  unfold batchActions. rewrite consoleLines_app.
  rewrite (consoleLines_flat_map_nil _ (settleOrder w batch))
    by apply consoleLines_processFile.
  rewrite app_nil_r. induction batch as [|f batch IH]; [done|].
  cbn [flat_map map]. rewrite consoleLines_app, IH. unfold startFile.
  rewrite consoleLines_app. simpl.
  destruct (isSync f); [by rewrite consoleLines_processFile|done].
Qed.

Lemma logged_flat_map_elem {A} (g : A → list Action) (l : list A) x m :
  x ∈ l → m ∈ logged (g x) → m ∈ logged (flat_map g l).
Proof.
  induction l as [|y l IH]; [by intros ?%elem_of_nil|].
  intros [->|Hx]%elem_of_cons Hm; simpl; rewrite logged_app, elem_of_app; auto.
Qed.

(** A settled file's log lines are in the log of its batch. *)
Lemma logged_batchActions i n batch f m :
  f ∈ batch → settles w f = true → m ∈ logged (snd (processFile w f)) →
  m ∈ logged (batchActions w i n batch).
Proof.
  intros Hf Hs Hm. unfold batchActions. rewrite logged_app, elem_of_app.
  unfold settles in Hs. destruct (isSync f) eqn:Esync.
  - left. eapply logged_flat_map_elem; [exact Hf|].
    unfold startFile. rewrite Esync, logged_app, elem_of_app. by right.
  - right. eapply logged_flat_map_elem; [|exact Hm].
    rewrite settleOrder_perm. apply list_elem_of_In, List.filter_In.
    split; [by apply list_elem_of_In|]. by rewrite Esync.
Qed.

End Batch.

(* ===================================================================== *)
(** * [src/App.tsx]: the loop *)
(* ===================================================================== *)

Section Loop.

Import App AppRun.

Variable w : World.
Variable files : list File.t.

Implicit Types (i k fuel : nat) (pr : list ProcessedFile.t).

Local Abbreviation value := (fun f => fst (processFile w f)).
Local Abbreviation group k i := (take (batchSize * k) (drop i files)).

Lemma slice_batch i : slice files i (i + batchSize) = take batchSize (drop i files).
Proof. unfold slice. by replace (i + batchSize - i) with batchSize by lia. Qed.

Lemma group_succ k i :
  group (S k) i = take batchSize (drop i files) ++ group k (i + batchSize).
Proof.
  replace (batchSize * S k) with (batchSize + batchSize * k) by lia.
  rewrite <- take_take_drop, drop_drop. done.
Qed.

Lemma length_slice_lt i : i < length files → 0 < length (slice files i (i + batchSize)).
Proof.
  intros Hi. rewrite slice_batch, length_take, length_drop. unfold batchSize. lia.
Qed.

(** The loop is a number of completed batches followed by one of the three
    endings. *)
Lemma loop_decompose fuel i pr :
  length files - i < fuel →
  ∃ k ending,
    loop w files fuel i pr = fst (completed w files k i pr) ++ ending
    ∧ Ending w files (i + batchSize * k) (snd (completed w files k i pr)) ending
    ∧ forallb (settles w) (group k i) = true
    ∧ (∀ j, j < k → aborted w (i + batchSize * j) = false)
    ∧ (0 < k → i < length files).
Proof.
  revert i pr. induction fuel as [|fuel IH]; intros i pr Hfuel; [lia|].
  cbn [loop]. destruct (Nat.ltb_spec i (length files)) as [Hi|Hi].
  - destruct (aborted w i) eqn:Eab.
    + exists 0, (SetProcessingStatus (str "Processing cancelled") :: finallyActions).
      rewrite Nat.mul_0_r, Nat.add_0_r. simpl.
      repeat split; [by constructor|lia..].
    + destruct (forallb (settles w) (slice files i (i + batchSize))) eqn:Eset.
      * set (pr' := pr ++ validResults
                     (map value (slice files i (i + batchSize)))).
        destruct (IH (i + batchSize) pr') as (k & ending & Heq & Hend & Hall & Hab & _).
        { unfold batchSize. lia. }
        exists (S k), ending. cbn [completed fst snd]. fold pr'.
        rewrite Heq. repeat split.
        -- by rewrite <- !app_assoc.
        -- by replace (i + batchSize * S k) with (i + batchSize + batchSize * k) by lia.
        -- rewrite group_succ, forallb_app, <- slice_batch, Eset. done.
        -- intros [|j] Hj; [by rewrite Nat.mul_0_r, Nat.add_0_r|].
           replace (i + batchSize * S j) with (i + batchSize + batchSize * j) by lia.
           apply Hab. lia.
        -- done.
      * exists 0, (batchActions w i (length files) (slice files i (i + batchSize))).
        rewrite Nat.mul_0_r, Nat.add_0_r. simpl.
        repeat split; [by constructor|lia..].
  - exists 0, (SetInputText (combinedText pr) :: finallyActions).
    rewrite Nat.mul_0_r, Nat.add_0_r. simpl.
    repeat split; [by constructor|lia..].
Qed.

(** [processedResults] after [k] completed batches: the files processed so
    far, in input order, failures left out. *)
Lemma completed_results k i pr :
  snd (completed w files k i pr) = pr ++ omap value (group k i).
Proof.
  revert i pr. induction k as [|k IH]; intros i pr.
  - rewrite Nat.mul_0_r. simpl. by rewrite app_nil_r.
  - cbn [completed snd]. rewrite IH, group_succ, omap_app, <- app_assoc.
    by rewrite slice_batch, validResults_map.
Qed.

Lemma completed_additive k i pr :
  forallb additive (fst (completed w files k i pr)) = true.
Proof.
  revert i pr. induction k as [|k IH]; intros i pr; [done|].
  cbn [completed fst]. rewrite !forallb_app, IH.
  rewrite inFlight_additive by apply batchActions_inFlight. done.
Qed.

Lemma completed_files k i pr fs :
  fold_left filesStep (fst (completed w files k i pr)) fs
  = match k with 0 => fs | S _ => snd (completed w files k i pr) end.
Proof.
  revert i pr fs. induction k as [|k IH]; intros i pr fs; [done|].
  cbn [completed fst snd]. rewrite !fold_left_app.
  rewrite (files_inFlight (batchActions _ _ _ _)) by apply batchActions_inFlight.
  cbn [fold_left filesStep]. rewrite IH. by destruct k.
Qed.

Lemma completed_busy k i pr b :
  fold_left busyStep (fst (completed w files k i pr)) b = b.
Proof.
  revert i pr. induction k as [|k IH]; intros i pr; [done|].
  cbn [completed fst]. rewrite !fold_left_app.
  rewrite (busy_inFlight (batchActions _ _ _ _)) by apply batchActions_inFlight. simpl. apply IH.
Qed.

Lemma completed_input k i pr s :
  fold_left inputStep (fst (completed w files k i pr)) s = s.
Proof.
  revert i pr. induction k as [|k IH]; intros i pr; [done|].
  cbn [completed fst]. rewrite !fold_left_app.
  rewrite (input_inFlight (batchActions _ _ _ _)) by apply batchActions_inFlight. simpl. apply IH.
Qed.

(** Completed batches account for each of their files once. *)
Lemma completed_counts k i pr :
  forallb (settles w) (group k i) = true →
  nSucceeded (fst (completed w files k i pr)) = length (omap value (group k i))
  ∧ nSucceeded (fst (completed w files k i pr))
    + nFailed (fst (completed w files k i pr)) = length (group k i).
Proof.
  revert i pr. induction k as [|k IH]; intros i pr Hall.
  - rewrite Nat.mul_0_r. done.
  - rewrite group_succ, forallb_app in Hall.
    apply andb_true_iff in Hall as [Hb Hrest].
    cbn [completed fst]. rewrite !nSucceeded_app, !nFailed_app.
    rewrite group_succ, omap_app, !length_app.
    set (pr' := pr ++ _).
    destruct (IH (i + batchSize) pr' Hrest) as [IH1 IH2].
    rewrite slice_batch.
    destruct (batchActions_counts_resolved w i (length files) _ Hb) as [Hb1 Hb2].
    match goal with
    | |- context [nSucceeded [?a; ?b]] =>
        change (nSucceeded [a; b]) with 0; change (nFailed [a; b]) with 0
    end.
    lia.
Qed.

(** One call of [processFile] per file of the completed batches, in input
    order. *)
Lemma completed_consoleLines k i pr :
  consoleLines (fst (completed w files k i pr)) = map startLine (group k i).
Proof.
  revert i pr. induction k as [|k IH]; intros i pr.
  - by rewrite Nat.mul_0_r.
  - cbn [completed fst]. rewrite !consoleLines_app, IH, group_succ, map_app.
    rewrite consoleLines_batchActions, slice_batch. done.
Qed.

Lemma completed_logged k i pr f m :
  forallb (settles w) (group k i) = true →
  f ∈ group k i → m ∈ logged (snd (processFile w f)) →
  m ∈ logged (fst (completed w files k i pr)).
Proof.
  revert i pr. induction k as [|k IH]; intros i pr Hall Hf Hm.
  - rewrite Nat.mul_0_r in Hf. by apply elem_of_nil in Hf.
  - rewrite group_succ, forallb_app in Hall.
    apply andb_true_iff in Hall as [Hb Hrest].
    rewrite group_succ in Hf. cbn [completed fst].
    rewrite !logged_app, !elem_of_app.
    apply elem_of_app in Hf as [Hf|Hf].
    + left. rewrite slice_batch. eapply logged_batchActions; [exact Hf| |exact Hm].
      eapply forallb_forall in Hb; [exact Hb|]. by apply list_elem_of_In.
    + right; right. by eapply IH.
Qed.

Lemma completed_status k i pr s :
  fold_left statusStep (fst (completed w files (S k) i pr)) s
  = processedMessage w
      (i + batchSize * k + length (slice files (i + batchSize * k)
                                         (i + batchSize * k + batchSize)))
      (length files).
Proof.
  revert i pr s. induction k as [|k IH]; intros i pr s.
  - cbn [completed fst]. rewrite !fold_left_app. simpl.
    by rewrite Nat.add_0_r.
  - change (completed w files (S (S k)) i pr)
      with (let batch := slice files i (i + batchSize) in
            let pr' := pr ++ validResults (map value batch) in
            let rest := completed w files (S k) (i + batchSize) pr' in
            (batchActions w i (length files) batch
             ++ [SetProcessedFiles pr';
                 SetProcessingStatus
                   (processedMessage w (i + length batch) (length files))]
             ++ fst rest, snd rest)).
    cbn zeta. cbn [fst]. rewrite !fold_left_app, IH.
    by replace (i + batchSize * S k) with (i + batchSize + batchSize * k) by lia.
Qed.

End Loop.

(* ===================================================================== *)
(** * [src/App.tsx]: whole runs *)
(* ===================================================================== *)

Section Runs.

Import App AppRun.

Variable w : World.

Implicit Types (files : list File.t) (st : AppState).

Local Abbreviation value := (fun f => fst (processFile w f)).

Lemma handleFolderUpload_nonempty files :
  files ≠ [] →
  handleFolderUpload w files
  = prologue files ++ loop w files (length files + 1) 0 [].
Proof. by destruct files. Qed.

Lemma elem_of_take_slice files j k f :
  j < k → f ∈ slice files (batchSize * j) (batchSize * j + batchSize) →
  f ∈ take (batchSize * k) files.
Proof.
  intros Hjk. rewrite slice_batch.
  intros (idx & Hidx)%list_elem_of_lookup.
  apply lookup_take_Some in Hidx as [Hidx Hlt].
  rewrite lookup_drop in Hidx.
  apply list_elem_of_lookup. exists (batchSize * j + idx).
  apply lookup_take_Some. split; [done|]. unfold batchSize in *. lia.
Qed.

Lemma elem_of_slice files i j f : f ∈ slice files i j → f ∈ files.
Proof.
  unfold slice. intros (idx & Hidx & _)%elem_of_take.
  rewrite lookup_drop in Hidx. apply list_elem_of_lookup. eauto.
Qed.

(** A run that is never cancelled and whose extractions all settle is its
    completed batches, covering every file, then the combined text. *)
Lemma full_run files :
  files ≠ [] → (∀ i, i < length files → aborted w i = false) →
  forallb (settles w) files = true →
  ∃ k, handleFolderUpload w files
       = prologue files ++ fst (completed w files k 0 [])
         ++ SetInputText (combinedText (omap value files)) :: finallyActions
     ∧ take (batchSize * k) files = files
     ∧ 0 < k.
Proof.
  intros Hne Hab Hall. rewrite handleFolderUpload_nonempty by done.
  destruct (loop_decompose w files (length files + 1) 0 [])
    as (k & ending & -> & Hend & _ & _ & _); [lia|].
  exists k. rewrite Nat.add_0_l, completed_results in Hend.
  change (drop 0 files) with files in Hend. rewrite app_nil_l in Hend.
  inversion Hend as [Hlen|Hlt Hab'|Hlt _ Hst]; subst.
  - rewrite take_ge by done. split; [done|]. split; [done|].
    destruct k; [|lia]. destruct files; simpl in *; [done|lia].
  - by rewrite Hab in Hab'.
  - exfalso. apply not_true_iff_false in Hst. apply Hst.
    apply forallb_forall. intros f Hf.
    eapply forallb_forall in Hall; [exact Hall|].
    apply list_elem_of_In in Hf. apply list_elem_of_In.
    by eapply elem_of_slice.
Qed.

(** A run cancelled at the check before batch [k], the batches before it
    having resolved, is those batches and the cancelled ending. *)
Lemma cancelled_run files k :
  batchSize * k < length files →
  aborted w (batchSize * k) = true →
  (∀ j, j < k → aborted w (batchSize * j) = false) →
  forallb (settles w) (take (batchSize * k) files) = true →
  handleFolderUpload w files
  = prologue files ++ fst (completed w files k 0 [])
    ++ SetProcessingStatus (str "Processing cancelled") :: finallyActions.
Proof.
  intros Hlt Hab Hnot Hall.
  assert (Hne : files ≠ []) by (destruct files; simpl in *; [lia|done]).
  rewrite handleFolderUpload_nonempty by done.
  destruct (loop_decompose w files (length files + 1) 0 [])
    as (k' & ending & -> & Hend & _ & Hnot' & _); [lia|].
  rewrite Nat.add_0_l in Hend.
  assert (k' = k) as ->.
  { destruct (Nat.lt_trichotomy k' k) as [Hk|[Hk|Hk]]; [|done|].
    - exfalso. inversion Hend as [Hlen|Hlt' Hab'|Hlt' _ Hst]; subst.
      + unfold batchSize in *. lia.
      + rewrite Hnot in Hab' by done. done.
      + apply not_true_iff_false in Hst. apply Hst.
        apply forallb_forall. intros f Hf.
        eapply forallb_forall in Hall; [exact Hall|].
        apply list_elem_of_In. eapply elem_of_take_slice; [exact Hk|].
        by apply list_elem_of_In.
    - specialize (Hnot' k Hk). rewrite Nat.add_0_l in Hnot'. congruence. }
  inversion Hend as [Hlen|Hlt' Hab'|Hlt' Hab' _]; subst; [lia|done|congruence].
Qed.

(** The counters once the prologue has reset them and updates that only add
    have followed. *)
Lemma stats_after_prologue files acts st :
  forallb additive acts = true →
  stats (run (prologue files ++ acts) st)
  = {| total := length files;
       processed := nSucceeded acts + nFailed acts;
       failed := nFailed acts |}.
Proof.
  intros Hadd. rewrite stats_run, fold_left_app. simpl fold_left at 2.
  by rewrite stats_additive.
Qed.

Lemma logs_after_prologue files acts st :
  forallb additive acts = true →
  errorLogs (run (prologue files ++ acts) st) = logged acts.
Proof.
  intros Hadd. rewrite errorLogs_run, fold_left_app. simpl fold_left at 2.
  by rewrite logs_additive.
Qed.

(** The state a full run ends in. *)
Lemma full_run_state files st :
  files ≠ [] → (∀ i, i < length files → aborted w i = false) →
  forallb (settles w) files = true →
  let st' := run (handleFolderUpload w files) st in
  processedFiles st' = omap value files
  ∧ stats st' = {| total := length files; processed := length files;
                   failed := length files - length (omap value files) |}
  ∧ inputText st' = combinedText (omap value files)
  ∧ isProcessing st' = false
  ∧ consoleLines (handleFolderUpload w files) = map startLine files
  ∧ (∀ f m, f ∈ files → m ∈ logged (snd (processFile w f)) → m ∈ errorLogs st').
Proof.
  intros Hne Hab Hall st'.
  destruct (full_run files Hne Hab Hall) as (k & Heq & Htake & Hk).
  subst st'. rewrite Heq.
  assert (Hgroup : take (batchSize * k) (drop 0 files) = files) by done.
  assert (Hadd : forallb additive
            (fst (completed w files k 0 [])
             ++ SetInputText (combinedText (omap value files)) :: finallyActions)
          = true).
  { by rewrite forallb_app, completed_additive. }
  destruct (completed_counts w files k 0 []) as [Hs Hsf];
    [by rewrite Hgroup|]. rewrite Hgroup in Hs, Hsf.
  repeat split.
  - rewrite processedFiles_run, !fold_left_app, completed_files. simpl.
    destruct k; [lia|]. by rewrite completed_results, Hgroup.
  - rewrite stats_after_prologue by done.
    rewrite nSucceeded_app, nFailed_app.
    change (nSucceeded (SetInputText _ :: finallyActions)) with 0.
    change (nFailed (SetInputText _ :: finallyActions)) with 0.
    f_equal; lia.
  - rewrite inputText_run, !fold_left_app. done.
  - rewrite isProcessing_run, !fold_left_app. done.
  - rewrite !consoleLines_app, completed_consoleLines, Hgroup. simpl.
    by rewrite app_nil_r.
  - intros f m Hf Hm. rewrite logs_after_prologue by done.
    rewrite logged_app, elem_of_app. left.
    eapply completed_logged; [by rewrite Hgroup|by rewrite Hgroup|exact Hm].
Qed.

End Runs.

Section RunCounts.

Import App AppRun.

Variable w : World.

Implicit Types (files : list File.t) (st : AppState).

Local Abbreviation value := (fun f => fst (processFile w f)).

Lemma loop_additive files fuel i pr :
  forallb additive (loop w files fuel i pr) = true.
Proof.
  revert i pr. induction fuel as [|fuel IH]; intros i pr; [done|].
  cbn [loop]. repeat case_match; try done.
  - rewrite !forallb_app, IH.
    by rewrite inFlight_additive by apply batchActions_inFlight.
  - apply inFlight_additive, batchActions_inFlight.
Qed.

(** The loop never resolves more outcomes than there are files left. *)
Lemma loop_counts_le files fuel i pr :
  length files - i < fuel →
  nSucceeded (loop w files fuel i pr) + nFailed (loop w files fuel i pr)
  ≤ length files - i.
Proof.
  intros Hfuel.
  destruct (loop_decompose w files fuel i pr Hfuel)
    as (k & ending & -> & Hend & Hall & _ & _).
  rewrite nSucceeded_app, nFailed_app.
  destruct (completed_counts w files k i pr Hall) as [_ Hc].
  assert (Hg : length (take (batchSize * k) (drop i files))
               = (batchSize * k) `min` (length files - i))
    by (by rewrite length_take, length_drop).
  inversion Hend as [Hlen|Hlt Hab|Hlt Hab Hst]; subst.
  - change (nSucceeded (SetInputText _ :: finallyActions)) with 0.
    change (nFailed (SetInputText _ :: finallyActions)) with 0. lia.
  - change (nSucceeded (SetProcessingStatus _ :: finallyActions)) with 0.
    change (nFailed (SetProcessingStatus _ :: finallyActions)) with 0. lia.
  - pose proof (batchActions_counts_le w (i + batchSize * k) (length files)
                  (slice files (i + batchSize * k) (i + batchSize * k + batchSize)))
      as Hb.
    rewrite slice_batch, length_take, length_drop in Hb.
    rewrite slice_batch. lia.
Qed.

Lemma counts_take_le acts m :
  nSucceeded (take m acts) ≤ nSucceeded acts ∧ nFailed (take m acts) ≤ nFailed acts.
Proof.
  rewrite <- (take_drop m acts) at 2 4. rewrite nSucceeded_app, nFailed_app. lia.
Qed.

Lemma counts_take_mono acts m m' :
  m' ≤ m →
  nSucceeded (take m' acts) ≤ nSucceeded (take m acts)
  ∧ nFailed (take m' acts) ≤ nFailed (take m acts).
Proof.
  intros Hm. replace (take m' acts) with (take m' (take m acts)).
  - apply counts_take_le.
  - rewrite take_take. f_equal. lia.
Qed.

Lemma additive_take acts m :
  forallb additive acts = true → forallb additive (take m acts) = true.
Proof.
  intros H. apply forallb_forall. intros a Ha.
  eapply forallb_forall in H; [exact H|].
  apply list_elem_of_In. apply list_elem_of_In in Ha.
  by eapply subseteq_take.
Qed.


(** Whatever the collaborators do, a run leaves in [processedFiles] the
    successes of a whole number of leading batches, in input order, or does
    not touch it. *)
Lemma processedFiles_leading_batches files st :
  ∃ k, processedFiles (run (handleFolderUpload w files) st)
       = match k with
         | 0 => processedFiles st
         | S _ => omap value (take (batchSize * k) files)
         end.
Proof.
  destruct files as [|f0 files']; [by exists 0|].
  set (files := f0 :: files').
  rewrite handleFolderUpload_nonempty by done.
  destruct (loop_decompose w files (length files + 1) 0 [])
    as (k & ending & -> & Hend & _ & _ & _); [lia|].
  exists k. rewrite processedFiles_run, !fold_left_app, completed_files.
  assert (Hending : ∀ fs, fold_left filesStep ending fs = fs).
  { intros fs. inversion Hend; subst; try done.
    apply files_inFlight, batchActions_inFlight. }
  rewrite Hending. destruct k; [done|]. by rewrite completed_results.
Qed.

End RunCounts.

(* ===================================================================== *)
(** * The copy with the timer *)
(* ===================================================================== *)

Section TimedFacts.

Import Timed.

Variable w : World.

Implicit Types (files batch : list File.t) (file : File.t) (start : N).

Lemma validResults_omap {A} (g : A → option ProcessedFile.t) (l : list A) :
  App.validResults (map g l) = omap g l.
Proof.
  unfold App.validResults. induction l as [|x l IH]; [done|]. simpl.
  destruct (g x); [f_equal|]; exact IH.
Qed.

(** The loop keeps, in input order, what [guarded] gives for each file. *)
Lemma timed_loop_results files fuel i start pr :
  length files - i < fuel →
  results (loop w files fuel i start pr) = pr ++ omap (guarded w) (drop i files).
Proof.
  revert i start pr. induction fuel as [|fuel IH]; intros i start pr Hfuel; [lia|].
  cbn [loop]. destruct (Nat.ltb_spec i (length files)) as [Hi|Hi].
  - cbn [results]. rewrite IH by (unfold App.batchSize; lia).
    rewrite <- app_assoc. f_equal.
    rewrite validResults_omap, slice_batch, <- omap_app.
    by rewrite <- drop_drop, take_drop.
  - cbn [results]. by rewrite drop_ge, app_nil_r by done.
Qed.

Lemma settledAt_le file timeout : (settledAt w file timeout ≤ timeout)%N.
Proof. unfold settledAt. destruct (settleTime w file); lia. Qed.

Lemma batchEnd_bounds start batch :
  (start ≤ batchEnd w start batch ≤ start + timeoutMs)%N.
Proof.
  unfold batchEnd. induction batch as [|f batch IH]; simpl; [lia|].
  pose proof (settledAt_le f timeoutMs). lia.
Qed.

Lemma batches_step m : 0 < m → batches m = S (batches (m - App.batchSize)).
Proof.
  intros Hm. unfold batches, App.batchSize.
  destruct (Nat.le_gt_cases 5 m) as [H5|H5].
  - replace (m + (5 - 1)) with ((m - 5 + (5 - 1)) + 1 * 5) by lia.
    rewrite Nat.div_add by lia. lia.
  - replace (m - 5) with 0 by lia.
    replace (m + (5 - 1)) with ((m - 1) + 1 * 5) by lia.
    rewrite Nat.div_add by lia. rewrite Nat.div_small by lia. done.
Qed.

(** The [finally] block runs no later than one timeout per batch after the
    start: no extraction holds a batch back for longer. *)
Lemma timed_loop_finish files fuel i start pr :
  length files - i < fuel →
  (finishedAt (loop w files fuel i start pr)
   ≤ start + timeoutMs * N.of_nat (batches (length files - i)))%N.
Proof.
  revert i start pr. induction fuel as [|fuel IH]; intros i start pr Hfuel; [lia|].
  cbn [loop]. destruct (Nat.ltb_spec i (length files)) as [Hi|Hi].
  - cbn [finishedAt].
    etransitivity; [apply IH; unfold App.batchSize; lia|].
    rewrite (batches_step (length files - i)) by lia.
    replace (length files - i - App.batchSize)
      with (length files - (i + App.batchSize)) by lia.
    pose proof (batchEnd_bounds start
                  (App.slice files i (i + App.batchSize))) as [_ Hb].
    lia.
  - cbn [finishedAt]. lia.
Qed.

Lemma elem_of_flat_map_intro {A B} (g : A → list B) (l : list A) x y :
  x ∈ l → y ∈ g x → y ∈ flat_map g l.
Proof.
  intros Hx Hy. apply list_elem_of_In, in_flat_map.
  exists x. split; by apply list_elem_of_In.
Qed.

(** Every update made for a file of the remaining input is among the
    events of the loop, at the time its batch gives it. *)
Lemma timed_loop_events files fuel i start pr file :
  length files - i < fuel → file ∈ drop i files →
  ∃ t, (start ≤ t)%N
       ∧ ∀ e, e ∈ fileEvents w t file → e ∈ events (loop w files fuel i start pr).
Proof.
  revert i start pr. induction fuel as [|fuel IH]; intros i start pr Hfuel Hf; [lia|].
  cbn [loop]. destruct (Nat.ltb_spec i (length files)) as [Hi|Hi].
  - cbn [events]. rewrite <- (take_drop App.batchSize (drop i files)) in Hf.
    apply elem_of_app in Hf as [Hf|Hf].
    + exists start. split; [lia|]. intros e He.
      rewrite elem_of_app. left. rewrite slice_batch.
      by eapply elem_of_flat_map_intro.
    + rewrite drop_drop in Hf.
      destruct (IH (i + App.batchSize)
                  (batchEnd w start (App.slice files i (i + App.batchSize)))
                  (pr ++ App.validResults
                           (map (guarded w) (App.slice files i (i + App.batchSize))))
                  ltac:(unfold App.batchSize; lia) Hf) as (t & Ht & Hin).
      exists t. split.
      * pose proof (batchEnd_bounds start
                      (App.slice files i (i + App.batchSize))). lia.
      * intros e He. rewrite !elem_of_app. right; right; left. by apply Hin.
  - rewrite drop_ge in Hf by done. by apply elem_of_nil in Hf.
Qed.

Lemma timed_handleFolderUpload_results files :
  results (handleFolderUpload w files) = omap (guarded w) files.
Proof.
  destruct files as [|f files]; [done|].
  unfold handleFolderUpload. cbn [results].
  by rewrite timed_loop_results by lia.
Qed.

Lemma timed_handleFolderUpload_finish files :
  (finishedAt (handleFolderUpload w files)
   ≤ timeoutMs * N.of_nat (batches (length files)))%N.
Proof.
  destruct files as [|f files]; [simpl; lia|].
  unfold handleFolderUpload. cbn [finishedAt].
  etransitivity; [apply timed_loop_finish; lia|].
  rewrite Nat.sub_0_r. lia.
Qed.

End TimedFacts.

(* ===================================================================== *)
(** * Classification *)
(* ===================================================================== *)

Section Classification.

Import App ClassifierSpec.

Implicit Types (file f g : File.t) (s t ext base : jsstring).

Lemma split_app_sep sep s t : split sep (s ++ sep :: t) = split sep s ++ split sep t.
Proof.
  induction s as [|c s IH]; simpl.
  - by rewrite N.eqb_refl.
  - destruct (N.eqb c sep); [by rewrite IH|]. rewrite IH.
    destruct (split sep s) as [|l ls] eqn:E; [by apply split_nonempty in E|].
    done.
Qed.

Lemma pop_split_suffix sep base ext :
  sep ∉ ext → pop (split sep (base ++ sep :: ext)) = ext.
Proof.
  intros Hext. unfold pop. rewrite split_app_sep, (split_id sep ext) by done.
  apply last_last.
Qed.

(** The extension of [base.ext] is [ext] in lower case. *)
Lemma extensionOf_suffix file base ext :
  File.name file = base ++ 46%N :: ext → (46%N ∉ ext) →
  extensionOf file = toLowerCase ext.
Proof.
  intros Hname Hext. unfold extensionOf. by rewrite Hname, pop_split_suffix.
Qed.

Lemma bool_decide_elem_of_cons (x a : jsstring) (l : list jsstring) :
  bool_decide (x ∈ a :: l) = bool_decide (x = a) || bool_decide (x ∈ l).
Proof.
  rewrite <- bool_decide_or. apply bool_decide_ext, elem_of_cons.
Qed.

Lemma bool_decide_elem_of_nil (x : jsstring) : bool_decide (x ∈ @nil jsstring) = false.
Proof. apply bool_decide_eq_false_2. by intros ?%elem_of_nil. Qed.

Lemma officeStrategy_byExtension ext :
  ext ≠ str "pdf" →
  (if includes [str "doc"; str "docx"; str "xls"; str "xlsx"; str "ppt"; str "pptx"]
               (orElse ext [])
   then officeStrategy ext else None) = byExtension ext.
Proof.
  intros Hpdf. unfold byExtension, officeStrategy, includes.
  assert (Hext : orElse ext [] = ext) by (by destruct ext). rewrite Hext.
  rewrite (bool_decide_eq_false_2 (ext = str "pdf")) by done.
  rewrite !bool_decide_elem_of_cons, !bool_decide_elem_of_nil.
  by destruct (bool_decide (ext = str "doc")), (bool_decide (ext = str "docx")),
       (bool_decide (ext = str "xls")), (bool_decide (ext = str "xlsx")),
       (bool_decide (ext = str "ppt")), (bool_decide (ext = str "pptx")).
Qed.

(** [classify] looks at the declared media type first and at the extension
    when the type is none of the three it knows. *)
Lemma classify_by_type_then_extension file :
  classify file =
  match byMediaType (File.type file) with
  | Some s => Some s
  | None => byExtension (extensionOf file)
  end.
Proof.
  unfold classify, dispatch, byMediaType.
  destruct (startsWith _ _); [done|]. destruct (startsWith _ _); [done|].
  case_bool_decide as Hpdf; [done|]. simpl orb.
  case_bool_decide as Hext.
  - unfold byExtension. by rewrite bool_decide_eq_true_2.
  - rewrite <- officeStrategy_byExtension by done.
    destruct (includes _ _) eqn:E; [|done].
    by destruct (officeStrategy (extensionOf file)).
Qed.

End Classification.

(* ===================================================================== *)
(** * The abort controller in the reference *)
(* ===================================================================== *)

Section AbortFacts.

Import Abort.

Implicit Types (r : Ref) (during : nat → list Event) (c j : nat)
  (events clicks : list Event).

Lemma length_abortCurrent r :
  length (signals (abortCurrent r)) = length (signals r).
Proof.
  unfold abortCurrent. destruct (current r); [|done].
  cbn [signals]. apply length_insert.
Qed.

Lemma current_renew r : current (renew r) = Some (own r).
Proof. unfold renew, own. cbn [current]. by rewrite length_abortCurrent. Qed.

Lemma length_renew r : length (signals (renew r)) = S (own r).
Proof.
  unfold renew, own. cbn [signals].
  rewrite length_app, length_abortCurrent. simpl. lia.
Qed.

(** The loop of a run that has just started reads a signal that is not
    set. *)
Lemma signal_renew r : signalAborted (renew r) = false.
Proof.
  unfold signalAborted, renew. cbn [current signals].
  by rewrite list_lookup_middle.
Qed.

Lemma refAt_quiet r0 during j :
  (∀ j', j' < j → during j' = []) → refAt r0 during j = renew r0.
Proof.
  induction j as [|j IH]; intros Hq; [done|]. cbn [refAt].
  rewrite (Hq j) by lia. cbn [fold_left]. apply IH. intros j' Hj'. apply Hq. lia.
Qed.

Lemma click_sets r c :
  current r = Some c → c < length (signals r) →
  current (handleCancel r) = Some c ∧ signals (handleCancel r) !! c = Some true.
Proof.
  intros Hc Hlt. unfold handleCancel, abortCurrent. rewrite Hc.
  cbn [current signals]. by rewrite list_lookup_insert_eq.
Qed.



(** Whatever else happens, the signal read is not set unless cancel was
    clicked. *)
Lemma step_no_click r e :
  e ≠ CancelClick → signalAborted (step r e) = false.
Proof. destruct e; [done| |done]. intros _. apply signal_renew. Qed.

Lemma steps_no_click r events :
  CancelClick ∉ events → signalAborted r = false →
  signalAborted (fold_left step events r) = false.
Proof.
  revert r. induction events as [|e events IH]; intros r Hno Hr; [done|].
  apply not_elem_of_cons in Hno as [He Hno]. cbn [fold_left].
  apply IH; [done|]. by apply step_no_click.
Qed.

Lemma refAt_no_click r0 during j :
  (∀ j', CancelClick ∉ during j') → signalAborted (refAt r0 during j) = false.
Proof.
  intros Hno. induction j as [|j IH]; [apply signal_renew|].
  cbn [refAt]. by apply steps_no_click.
Qed.

(** A signal that is set stays set. *)
Lemma signal_stays r e c :
  signals r !! c = Some true → signals (step r e) !! c = Some true.
Proof.
  intros Hs.
  assert (Hab : signals (abortCurrent r) !! c = Some true).
  { unfold abortCurrent. destruct (current r) as [c'|]; [|done].
    cbn [signals]. rewrite list_lookup_insert.
    by destruct (decide _). }
  destruct e; cbn [step]; [done| |done].
  unfold renew. cbn [signals]. rewrite lookup_app_l; [done|].
  by eapply lookup_lt_Some.
Qed.

Lemma signal_stays_all r events c :
  signals r !! c = Some true → signals (fold_left step events r) !! c = Some true.
Proof.
  revert r. induction events as [|e events IH]; intros r Hs; [done|].
  cbn [fold_left]. by apply IH, signal_stays.
Qed.

(** A folder selected while a run is in progress aborts the controller of
    that run. *)
Lemma upload_aborts_own r0 :
  signals (step (renew r0) UploadStarts) !! own r0 = Some true.
Proof.
  cbn [step]. unfold renew at 1. cbn [signals].
  pose proof (click_sets (renew r0) (own r0) (current_renew r0)) as Hc.
  rewrite length_renew in Hc. destruct Hc as [_ Hc]; [lia|].
  unfold handleCancel in Hc. rewrite lookup_app_l; [done|].
  by eapply lookup_lt_Some.
Qed.


End AbortFacts.

(* ===================================================================== *)
(** * The batch orchestrator: the properties *)
(* ===================================================================== *)

(** C1: a run that is not cancelled and whose extractions all settle leaves
    in [processedFiles] the processed files in the order of the input, the
    files that failed left out and nothing else moved; batches only cut the
    input into consecutive groups of five.  The copy with the timer keeps the
    same order, for every input. *)
Theorem results_follow_input_order (w : World) (files : list File.t) (st : AppState) :
  files ≠ [] →
  (∀ i, aborted w i = false) →
  forallb (App.settles w) files = true →
  processedFiles (run (App.handleFolderUpload w files) st)
  = omap (fun f => fst (App.processFile w f)) files
  ∧ Timed.results (Timed.handleFolderUpload w files)
    = omap (Timed.guarded w) files.
Proof.
  intros Hne Hab Hall. split.
  - by destruct (full_run_state w files st Hne (fun i _ => Hab i) Hall) as (H & _).
  - apply timed_handleFolderUpload_results.
Qed.

(** The six files of the specification's example: B fails, the result is
    A, C, D, E, F. *)
Lemma results_follow_input_order_witness :
  map ProcessedFile.name
      (processedFiles
         (run (App.handleFolderUpload (Sample.world None) Sample.six) initialState))
  = [str "A.txt"; str "C.pdf"; str "D.docx"; str "E.png"; str "F.txt"].
Proof.
  destruct (results_follow_input_order (Sample.world None) Sample.six
              initialState) as [H _].
  - discriminate.
  - intros i. reflexivity.
  - reflexivity.
  - rewrite H. reflexivity.
Defined.




(** C6 (amended), on [src/App.tsx]: no run is in progress when the folder
    is selected and no other folder is selected during the run (cancel may
    be clicked at any time).  Then at every point of the run after the
    counters are reset, [processed] is the number of successes resolved so
    far plus [failed], [processed] does not exceed [total], [total] is the
    number of files the run was started with, and between an earlier and a
    later point [processed] and [failed] do not decrease. *)
Theorem progress_counters_invariant
    (w : World) (r0 : Abort.Ref) (during : nat → list Abort.Event)
    (files : list File.t) (st : AppState) (m m' : nat) :
  files ≠ [] →
  Abort.current r0 = None →
  (∀ j, Forall (eq Abort.CancelClick) (during j)) →
  m' ≤ m →
  let acts := App.handleFolderUpload (Abort.world w r0 during) files in
  let start := length (App.prologue files) in
  let at_ := fun j => stats (run (take (start + j) acts) st) in
  let resolved := fun j => take j (drop start acts) in
  processed (at_ m) = nSucceeded (resolved m) + failed (at_ m)
  ∧ processed (at_ m) ≤ total (at_ m)
  ∧ total (at_ m) = length files
  ∧ total (at_ m') = total (at_ m)
  ∧ processed (at_ m') ≤ processed (at_ m)
  ∧ failed (at_ m') ≤ failed (at_ m).
Proof.
  intros Hne _ _ Hm acts start at_ resolved.
  subst acts at_ resolved start.
  set (w' := Abort.world w r0 during).
  rewrite handleFolderUpload_nonempty by done.
  set (body := App.loop w' files (length files + 1) 0 []).
  rewrite drop_app_length, !take_app_add.
  assert (Hadd : ∀ j, forallb additive (take j body) = true).
  { intros j. apply additive_take, loop_additive. }
  rewrite !stats_after_prologue by done. cbn [total processed failed].
  pose proof (loop_counts_le w' files (length files + 1) 0 [] ltac:(lia)) as Hle.
  fold body in Hle.
  destruct (counts_take_le body m) as [H1 H2].
  destruct (counts_take_mono body m m' Hm) as [H3 H4].
  repeat split; lia.
Qed.

(** Seven files with nothing else going on: after 14 and after 25 updates
    the counters stand at 3 of 7 (one failed) and at 7 of 7 (two failed,
    five successes). *)
Lemma progress_counters_invariant_witness :
  Cases.countersAt 25 = {| total := 7; processed := 7; failed := 2 |}
  ∧ Cases.countersAt 14 = {| total := 7; processed := 3; failed := 1 |}
  ∧ processed (Cases.countersAt 25)
    = nSucceeded
        (take 25 (drop (length (App.prologue Sample.seven))
                       (App.handleFolderUpload
                          (Abort.world (Sample.world None) Abort.initial
                             Cases.quiet)
                          Sample.seven)))
      + failed (Cases.countersAt 25)
  ∧ processed (Cases.countersAt 25) ≤ total (Cases.countersAt 25)
  ∧ total (Cases.countersAt 25) = 7
  ∧ total (Cases.countersAt 14) = total (Cases.countersAt 25)
  ∧ processed (Cases.countersAt 14) ≤ processed (Cases.countersAt 25)
  ∧ failed (Cases.countersAt 14) ≤ failed (Cases.countersAt 25).
Proof.
  split; [vm_compute; reflexivity|]. split; [vm_compute; reflexivity|].
  exact (progress_counters_invariant (Sample.world None) Abort.initial
           Cases.quiet Sample.seven initialState 25 14
           ltac:(discriminate) eq_refl ltac:(intros j; constructor)
           ltac:(lia)).
Defined.

(** C6, as stated, fails when a second folder is selected during a run: the
    folder input is not disabled, the second upload resets the counters,
    and the extractions of the first run that are in flight go on counting.
    Seven files, then one file selected while the first batch is in flight:
    [total] goes from 7 to 1 during the first run, and when the five files
    of its first batch have settled [processed] stands at 6. *)
Lemma overlapping_uploads_break_the_counters :
  stats (run (take 16 (Abort.nested 14 Cases.firstRun Cases.secondRun))
             initialState)
  = {| total := 7; processed := 0; failed := 0 |}
  ∧ stats (run (take 17 (Abort.nested 14 Cases.firstRun Cases.secondRun))
               initialState)
    = {| total := 1; processed := 0; failed := 0 |}
  ∧ stats (run (take 31 (Abort.nested 14 Cases.firstRun Cases.secondRun))
               initialState)
    = {| total := 1; processed := 6; failed := 1 |}
  ∧ ¬ processed
        (stats (run (take 31 (Abort.nested 14 Cases.firstRun Cases.secondRun))
                    initialState))
      ≤ total
          (stats (run (take 31 (Abort.nested 14 Cases.firstRun Cases.secondRun))
                      initialState)).
Proof.
  split; [vm_compute; reflexivity|]. split; [vm_compute; reflexivity|].
  split; [vm_compute; reflexivity|]. vm_compute. lia.
Qed.

(** C8: a file with no recognised extension and no recognised media type
    ([notes.xyz] with an empty type is one) is turned down by [processFile]:
    it yields no processed file, counts as failed and not as a success, and
    puts one line in the error log.  In a run that is not cancelled the
    files around it are processed as if it were not there and every file of
    the input is accounted for. *)
Theorem unsupported_file_fails_alone
    (w : World) (l1 l2 : list File.t) (file : File.t) (st : AppState) :
  App.classify file = None →
  (∀ i, aborted w i = false) →
  forallb (App.settles w) (l1 ++ l2) = true →
  let value := fun f => fst (App.processFile w f) in
  let st' := run (App.handleFolderUpload w (l1 ++ file :: l2)) st in
  App.processFile w file
  = (None, [UpdateStats false;
            LogError (File.name file) (str "Unsupported file type")])
  ∧ processedFiles st' = omap value l1 ++ omap value l2
  ∧ logMessage (File.name file) (str "Unsupported file type") ∈ errorLogs st'
  ∧ processed (stats st') = length (l1 ++ file :: l2)
  ∧ failed (stats st')
    = 1 + (length l1 - length (omap value l1)) + (length l2 - length (omap value l2))
  ∧ processed (stats st') - failed (stats st')
    = length (omap value l1) + length (omap value l2)
  ∧ isProcessing st' = false.
Proof.
  intros Hcl Hab Hall value st'.
  assert (Hsync : App.isSync file = true) by (by apply isSync_classify).
  assert (Hpf := processFile_sync w file Hsync).
  assert (Hall' : forallb (App.settles w) (l1 ++ file :: l2) = true).
  { rewrite forallb_app in Hall. apply andb_true_iff in Hall as [H1 H2].
    rewrite forallb_app. cbn [forallb]. unfold App.settles at 2.
    by rewrite Hsync, H1, H2. }
  destruct (full_run_state w (l1 ++ file :: l2) st) as (Hf & Hs & _ & Hb & _ & Hlog);
    [by destruct l1|by intros i _|done|].
  fold st' in Hf, Hs, Hb, Hlog.
  assert (Hom : omap value (l1 ++ file :: l2) = omap value l1 ++ omap value l2).
  { rewrite omap_app. f_equal. change (file :: l2) with ([file] ++ l2).
    rewrite omap_app. unfold value at 1. simpl. by rewrite Hpf. }
  fold value in Hf, Hs. rewrite Hom in Hf, Hs.
  assert (Hl1 : length (omap value l1) ≤ length l1).
  { unfold value. rewrite length_omap_ok. apply length_filter_le. }
  assert (Hl2 : length (omap value l2) ≤ length l2).
  { unfold value. rewrite length_omap_ok. apply length_filter_le. }
  repeat split; try done.
  - apply (Hlog file); [apply elem_of_app; right; by left|].
    rewrite Hpf. simpl. by left.
  - by rewrite Hs.
  - rewrite Hs. cbn [failed]. rewrite !length_app. simpl. lia.
  - rewrite Hs. cbn [failed processed]. rewrite !length_app. simpl. lia.
Qed.

Lemma unsupported_file_fails_alone_witness :
  logMessage (str "notes.xyz") (str "Unsupported file type")
  ∈ errorLogs (run (App.handleFolderUpload (Sample.world None) Sample.withXyz)
                   initialState)
  ∧ failed (stats (run (App.handleFolderUpload (Sample.world None) Sample.withXyz)
                       initialState)) = 2
  ∧ processed (stats (run (App.handleFolderUpload (Sample.world None) Sample.withXyz)
                          initialState)) = 7.
Proof.
  destruct (unsupported_file_fails_alone (Sample.world None)
              [Sample.A; Sample.B] [Sample.C; Sample.D; Sample.E; Sample.F]
              Sample.X initialState) as (_ & _ & Hlog & Hp & Hf & _).
  - reflexivity.
  - intros i. reflexivity.
  - reflexivity.
  - split; [exact Hlog|]. split; [exact Hf|exact Hp].
Defined.

(** Any name ending in [.xyz], with an empty media type, is unsupported. *)
Lemma classify_xyz (file : File.t) (base : jsstring) :
  File.name file = base ++ str ".xyz" → File.type file = [] →
  App.classify file = None.
Proof.
  intros Hname Htype. rewrite classify_by_type_then_extension.
  rewrite (extensionOf_suffix file base (str "xyz")); [|exact Hname|].
  - by rewrite Htype.
  - vm_compute. intros H. repeat (apply elem_of_cons in H as [H|H]; [done|]).
    by apply elem_of_nil in H.
Qed.

(** C9 (amended), on [src/App.tsx]: a file whose declared media type
    starts with [text/] and whose read gives [text] comes out of
    [processFile] with the header followed by [text]: the path (the
    relative path, or the name when there is none), the name, the date
    ([lastModified] in the locale's format, or "N/A" when it is 0), and the
    size in bytes.  Alone in a run it is the one processed file; and
    conversion with no option enabled and line ending LF, whatever the
    encoding field, returns that content unchanged, in [handleConvert] as
    in the archive branch of [handleDownload]. *)
Theorem text_file_round_trip
    (w : World) (file : File.t) (text : jsstring) (st : AppState) :
  startsWith (File.type file) (str "text/") = true →
  extract w PlainText file = Extracted text →
  aborted w 0 = false →
  is_Some (duration w file) →
  ∃ pf,
    fst (App.processFile w file) = Some pf
    ∧ ProcessedFile.content pf
      = str "File Information:" ++ [LF]
        ++ str "Path: "
        ++ match File.webkitRelativePath file with
           | [] => File.name file
           | _ :: _ => File.webkitRelativePath file
           end ++ [LF]
        ++ str "Name: " ++ File.name file ++ [LF]
        ++ str "Date: "
        ++ (if N.eqb (File.lastModified file) 0 then str "N/A"
            else toLocaleString w (File.lastModified file)) ++ [LF]
        ++ str "Size: " ++ numberToString (File.size file) ++ str " bytes" ++ [LF]
        ++ [LF] ++ str "Content:" ++ [LF]
        ++ text
    ∧ processedFiles (run (App.handleFolderUpload w [file]) st) = [pf]
    ∧ ∀ enc,
        normalize (ProcessedFile.content pf)
                  {| encoding := enc; lineEnding := str "LF";
                     removeEmptyLines := false; trimWhitespace := false |}
        = ProcessedFile.content pf.
Proof.
  intros Htype Hext Hab Hdur.
  assert (Hd : App.dispatch file = App.Run PlainText).
  { unfold App.dispatch. by rewrite Htype. }
  assert (Hpf : App.processFile w file
                = (Some {| ProcessedFile.name := File.name file;
                           ProcessedFile.content := App.header w file ++ text;
                           ProcessedFile.originalType :=
                             orElse (App.extensionOf file) (str "unknown");
                           ProcessedFile.path := App.filePathOf file |},
                   [UpdateStats true])).
  { unfold App.processFile, App.outcome. by rewrite Hd, Hext. }
  eexists. split; [by rewrite Hpf|]. split; [|split; [|done]].
  - cbn [ProcessedFile.content]. unfold App.header, App.filePathOf,
      App.fileDateOf, orElse. by rewrite <- !app_assoc.
  - assert (Hset : App.settles w file = true).
    { unfold App.settles. rewrite bool_decide_eq_true_2 by done.
      apply orb_true_r. }
    destruct (full_run_state w [file] st) as (Hf & _);
      [done| |by simpl; rewrite Hset|].
    + intros i Hi. simpl in Hi. by replace i with 0 by lia.
    + rewrite Hf. simpl. by rewrite Hpf.
Qed.

(** [in/memo.txt], declared [text/plain], last modified at 1700000000000,
    five bytes: every line of the header holds what the file says. *)
Lemma text_file_round_trip_witness :
  ∃ pf,
    fst (App.processFile (Sample.world None) Cases.memo) = Some pf
    ∧ normalize (ProcessedFile.content pf) defaultOptions
      = str "File Information:" ++ [LF]
        ++ str "Path: in/memo.txt" ++ [LF]
        ++ str "Name: memo.txt" ++ [LF]
        ++ str "Date: 1700000000000" ++ [LF]
        ++ str "Size: 5 bytes" ++ [LF]
        ++ [LF] ++ str "Content:" ++ [LF]
        ++ str "hello".
Proof.
  destruct (text_file_round_trip (Sample.world None) Cases.memo (str "hello")
              initialState) as (pf & H1 & H2 & _ & H3).
  - reflexivity.
  - reflexivity.
  - reflexivity.
  - by eexists.
  - exists pf. split; [exact H1|].
    unfold defaultOptions. rewrite (H3 (str "UTF-8")), H2. reflexivity.
Defined.

(** C9, as stated, fails for a plain-text file whose declared media type
    does not start with [text/]: the same [memo.txt] handed over with an
    empty media type is turned down as unsupported and yields no processed
    file. *)
Lemma untyped_text_file_yields_no_processed_file :
  File.bytes Cases.untyped = File.bytes Cases.memo
  ∧ File.name Cases.untyped = str "memo.txt"
  ∧ App.processFile (Sample.world None) Cases.untyped
    = (None, [UpdateStats false;
              LogError (str "memo.txt") (str "Unsupported file type")])
  ∧ processedFiles
      (run (App.handleFolderUpload (Sample.world None) [Cases.untyped])
           initialState)
    = [].
Proof. vm_compute. repeat split. Qed.

(** C5, as stated, fails: [report.xlsx] declared as
    [application/msword], a recognised Office media type, is routed by its
    extension to the spreadsheet branch, not by its media type to the
    word-processor branch; the media type plays no part. *)
Lemma office_media_type_is_not_consulted :
  ClassifierSpec.recognizedMediaType (File.type Sample.Mismatch) = Some WordDoc
  ∧ App.extensionOf Sample.Mismatch = str "xlsx"
  ∧ App.classify Sample.Mismatch = Some Spreadsheet
  ∧ App.classify Sample.Mismatch
    ≠ ClassifierSpec.recognizedMediaType (File.type Sample.Mismatch).
Proof. vm_compute. repeat split. discriminate. Qed.

(** The extension table of the specification has [.txt]; the code has no
    route for it when the media type is empty. *)
Lemma txt_without_media_type_is_unsupported :
  App.classify (Sample.file "notes.txt" "" "text" 1) = None.
Proof. reflexivity. Qed.

(** C5 (amended): [src/App.tsx] routes by the declared media type when it
    starts with [text/] or [image/] or is [application/pdf], and otherwise by
    the lower-case extension: [pdf], [doc]/[docx], [xls]/[xlsx],
    [ppt]/[pptx]; anything else is unsupported, and Office media types are
    not looked at.  The result depends on the name and the declared media
    type only.  In the copy with the timer it depends on the declared media
    type only. *)
Theorem classify_by_media_type_then_extension (file : File.t) :
  App.classify file
  = match ClassifierSpec.byMediaType (File.type file) with
    | Some s => Some s
    | None => ClassifierSpec.byExtension (App.extensionOf file)
    end
  ∧ App.classify file
    = App.classify {| File.name := File.name file; File.type := File.type file;
                      File.webkitRelativePath := []; File.size := 0;
                      File.lastModified := 0; File.bytes := [] |}
  ∧ Timed.classify file
    = Timed.classify {| File.name := []; File.type := File.type file;
                        File.webkitRelativePath := []; File.size := 0;
                        File.lastModified := 0; File.bytes := [] |}.
Proof. split; [apply classify_by_type_then_extension|]. by split. Qed.

(** The runner, for any timeout: an extraction that is started and has not
    settled when the timer fires makes the promise reject. *)
Lemma processFileWithTimeout_rejects (w : World) (file : File.t) (timeout : N) :
  Timed.classify file ≠ None →
  (∀ d, duration w file = Some d → (timeout ≤ d)%N) →
  Timed.processFileWithTimeout w file timeout
  = Timed.Rejected (str "File processing timed out").
Proof.
  intros Hcl Hslow. unfold Timed.processFileWithTimeout, Timed.inTime, Timed.settleTime.
  destruct (Timed.classify file); [|done].
  destruct (duration w file) as [d|] eqn:E; [|done].
  specialize (Hslow d eq_refl). by rewrite (proj2 (N.ltb_ge d timeout)).
Qed.

(** An extraction that settles before the timer fires is not touched by
    it. *)
Lemma processFileWithTimeout_resolves (w : World) (file : File.t) (timeout d : N) :
  duration w file = Some d → (d < timeout)%N →
  Timed.processFileWithTimeout w file timeout
  = Timed.Resolved (fst (Timed.processFile w file)).
Proof.
  intros Hd Hlt. unfold Timed.processFileWithTimeout, Timed.inTime, Timed.settleTime.
  destruct (Timed.classify file).
  - by rewrite Hd, (proj2 (N.ltb_lt d timeout)).
  - by rewrite (proj2 (N.ltb_lt 0 timeout)) by lia.
Qed.

(** C3, as stated, fails on [src/App.tsx], which calls [processFile] with
    no timer.  Six files, the third of which never settles: the file is
    never marked as failed (the two failures counted and logged are those
    of [notes.xyz] and [B.txt]), its batch never resolves, so that
    [isProcessing] stays on and no processed file is handed over, and the
    sixth file, in the next batch, is never started. *)
Lemma extraction_without_timer_blocks_the_run :
  duration (Sample.world None) Sample.Hang = None
  ∧ stats (run (App.handleFolderUpload (Sample.world None) Sample.withHang)
               initialState)
    = {| total := 6; processed := 4; failed := 2 |}
  ∧ errorLogs (run (App.handleFolderUpload (Sample.world None) Sample.withHang)
                   initialState)
    = [logMessage (str "notes.xyz") (str "Unsupported file type");
       logMessage (str "B.txt") (str "empty input")]
  ∧ isProcessing (run (App.handleFolderUpload (Sample.world None) Sample.withHang)
                      initialState)
    = true
  ∧ processedFiles (run (App.handleFolderUpload (Sample.world None)
                           Sample.withHang)
                        initialState)
    = []
  ∧ consoleLines (App.handleFolderUpload (Sample.world None) Sample.withHang)
    = map AppRun.startLine [Sample.A; Sample.Slow; Sample.Hang; Sample.X; Sample.B].
Proof. vm_compute. repeat split. Qed.

(** C3 (amended), on the copy of the component that has
    [processFileWithTimeout]: it boxes the extraction in a timer, 30,000 ms
    in [handleFolderUpload].  For a file whose extraction is started and
    has not settled when the timer fires (it settles at that moment or
    later, or never), the promise rejects with "File processing timed out";
    the run counts and logs that failure, keeps the results of all the
    other files, those of the later batches included, and reaches its end
    no later than one timeout per batch. *)
Theorem timeout_fails_that_file_only
    (w : World) (l1 l2 : list File.t) (file : File.t) :
  Timed.classify file ≠ None →
  (∀ d, duration w file = Some d → (Timed.timeoutMs ≤ d)%N) →
  let r := Timed.handleFolderUpload w (l1 ++ file :: l2) in
  Timed.timeoutMs = 30000%N
  ∧ Timed.processFileWithTimeout w file Timed.timeoutMs
    = Timed.Rejected (str "File processing timed out")
  ∧ Timed.results r = omap (Timed.guarded w) l1 ++ omap (Timed.guarded w) l2
  ∧ (∃ t, (t, UpdateStats false) ∈ Timed.events r
          ∧ (t, LogError (File.name file) (str "File processing timed out"))
            ∈ Timed.events r)
  ∧ (Timed.finishedAt r
     ≤ Timed.timeoutMs * N.of_nat (Timed.batches (length (l1 ++ file :: l2))))%N.
Proof.
  intros Hcl Hslow r.
  pose proof (processFileWithTimeout_rejects w file Timed.timeoutMs Hcl Hslow) as Hrej.
  split; [done|]. split; [done|]. split; [|split].
  - subst r. rewrite timed_handleFolderUpload_results, omap_app. f_equal.
    change (file :: l2) with ([file] ++ l2). rewrite omap_app.
    unfold Timed.guarded at 1. simpl. by rewrite Hrej.
  - assert (Hne : ∃ f fs, l1 ++ file :: l2 = f :: fs)
      by (destruct l1; simpl; eauto).
    destruct Hne as (f & fs & Heq).
    destruct (timed_loop_events w (l1 ++ file :: l2)
                (length (l1 ++ file :: l2) + 1) 0 0%N [] file)
      as (t & _ & Hin); [lia|apply elem_of_app; right; by left|].
    exists (t + Timed.timeoutMs)%N. subst r. rewrite Heq in *.
    unfold Timed.handleFolderUpload. cbn [Timed.events].
    split; apply elem_of_app; right; apply Hin; unfold Timed.fileEvents;
      rewrite Hrej; apply elem_of_cons; right.
    + by left.
    + right. by left.
  - apply timed_handleFolderUpload_finish.
Qed.

(** A file that never settles in the first batch of six files; the sixth
    file, in the second batch, is still processed, and the run is over after
    at most two timeouts. *)
Lemma timeout_fails_that_file_only_witness :
  map ProcessedFile.name
      (Timed.results (Timed.handleFolderUpload (Sample.world None) Sample.withHang))
  = [str "A.txt"; str "F.txt"]
  ∧ (Timed.finishedAt (Timed.handleFolderUpload (Sample.world None) Sample.withHang)
     ≤ 60000)%N.
Proof.
  destruct (timeout_fails_that_file_only (Sample.world None)
              [Sample.A; Sample.Slow] [Sample.X; Sample.B; Sample.F] Sample.Hang)
    as (_ & _ & Hres & _ & Hfin).
  - discriminate.
  - intros d Hd. discriminate Hd.
  - split.
    + unfold Sample.withHang. rewrite Hres. reflexivity.
    + exact Hfin.
Defined.

(** In this copy an extraction that outlasts the timer still makes its own
    update when it settles: the file is counted twice. *)
Example timed_copy_counts_late_file_twice :
  stats (run (Timed.timeline
                (Timed.handleFolderUpload (Sample.world None)
                   [Sample.A; Sample.Slow]))
             initialState)
  = {| total := 2; processed := 3; failed := 1 |}.
Proof. vm_compute. reflexivity. Qed.

(* ===================================================================== *)
(** * File names: extension and archive name *)
(* ===================================================================== *)

Section Names.

Implicit Types (s pre ext path leaf dir : jsstring) (file f g : File.t).

Lemma last_dot_split s :
  46%N ∈ s → ∃ pre ext, s = pre ++ 46%N :: ext ∧ 46%N ∉ ext.
Proof. apply list_elem_of_split_r. Qed.

Lemma split_last_dot pre ext :
  46%N ∉ ext → split 46 (pre ++ 46%N :: ext) = split 46 pre ++ [ext].
Proof. intros Hext. by rewrite split_app_sep, (split_id 46 ext). Qed.

Lemma stripExtension_dot pre ext :
  46%N ∉ ext →
  App.stripExtension (pre ++ 46%N :: ext)
  = if Nat.ltb 0 (length ext) && negb (bool_decide (47%N ∈ ext))
    then pre else pre ++ 46%N :: ext.
Proof.
  intros Hext. unfold App.stripExtension. rewrite split_last_dot by done.
  destruct (split 46 pre) as [|l ls] eqn:E; [by apply split_nonempty in E|].
  set (parts := (l :: ls) ++ [ext]).
  assert (Hpop : pop parts = ext) by apply last_last.
  assert (Hrm : removelast parts = l :: ls) by apply removelast_last.
  assert (Hlen : 2 ≤ length parts)
    by (subst parts; rewrite length_app; simpl; lia).
  clearbody parts. destruct parts as [|a [|b rest]]; simpl in Hlen; try lia.
  by rewrite Hpop, Hrm, <- E, join_split.
Qed.

Lemma stripExtension_no_dot path : 46%N ∉ path → App.stripExtension path = path.
Proof. intros H. unfold App.stripExtension. by rewrite split_id. Qed.

Lemma codePoints_low c s :
  isHighSurrogate c = false → codePoints (c :: s) = c :: codePoints s.
Proof. intros H. destruct s as [|d s]; [done|]. cbn [codePoints]. by rewrite H. Qed.

Lemma codePoints_pair hi lo r :
  codePoints (hi :: lo :: r)
  = if isHighSurrogate hi && isLowSurrogate lo
    then (65536 + (hi - 55296) * 1024 + (lo - 56320))%N :: codePoints r
    else hi :: codePoints (lo :: r).
Proof. done. Qed.

Lemma codePoints_nil s : codePoints s = [] ↔ s = [].
Proof.
  split; [|by intros ->]. destruct s as [|a [|b r]]; [done|done|].
  rewrite codePoints_pair. by destruct (_ && _).
Qed.

(** A dot is never half of a surrogate pair. *)
Lemma codePoints_dot pre ext :
  codePoints (pre ++ 46%N :: ext) = codePoints pre ++ 46%N :: codePoints ext.
Proof.
  remember (length pre) as n eqn:Hn. revert pre Hn.
  induction n as [n IH] using lt_wf_ind. intros pre ->.
  destruct pre as [|hi [|lo r]].
  - by apply codePoints_low.
  - change ([hi] ++ 46%N :: ext) with (hi :: 46%N :: ext).
    rewrite codePoints_pair. change (isLowSurrogate 46) with false.
    rewrite andb_false_r. by rewrite codePoints_low.
  - change ((hi :: lo :: r) ++ 46%N :: ext) with (hi :: lo :: (r ++ 46%N :: ext)).
    rewrite !codePoints_pair. destruct (_ && _).
    + rewrite (IH (length r)); [done|simpl; lia|done].
    + change (lo :: r ++ 46%N :: ext) with ((lo :: r) ++ 46%N :: ext).
      rewrite (IH (length (lo :: r))); [done|simpl; lia|done].
Qed.

Lemma codePoints_elem x s : x ∈ codePoints s → x ∈ s ∨ (65536 ≤ x)%N.
Proof.
  remember (length s) as n eqn:Hn. revert s Hn.
  induction n as [n IH] using lt_wf_ind. intros s ->.
  destruct s as [|hi [|lo r]]; [by left|by left|].
  rewrite codePoints_pair. destruct (_ && _).
  - intros [->|H]%elem_of_cons; [right; lia|].
    destruct (IH (length r) ltac:(simpl; lia) r eq_refl H) as [?|?]; [left|by right].
    right. by right.
  - intros [->|H]%elem_of_cons; [left; by left|].
    destruct (IH (length (lo :: r)) ltac:(simpl; lia) (lo :: r) eq_refl H)
      as [?|?]; [left|by right].
    by right.
Qed.

(** No mapping of the table gives a code point below the letter [a]. *)
Lemma lowerTable_targets :
  forallb (fun e : N * N * N * N => N.ltb 96 (snd e)) lowerTable = true.
Proof. vm_compute. reflexivity. Qed.

Lemma lowerPoint_nonempty cp : lowerPoint cp ≠ [].
Proof.
  unfold lowerPoint. destruct (N.eqb cp 304); [done|].
  by destruct (List.find _ _) as [[[[? ?] ?] ?]|].
Qed.

(** Only a dot gives a dot. *)
Lemma lowerPoint_dot cp : 46%N ∈ lowerPoint cp → cp = 46%N.
Proof.
  unfold lowerPoint. destruct (N.eqb cp 304).
  { intros H. repeat (apply elem_of_cons in H as [H|H]; [done|]).
    by apply elem_of_nil in H. }
  destruct (List.find _ _) as [[[[first last] stride] target]|] eqn:E.
  - apply List.find_some in E as [Hin _].
    pose proof lowerTable_targets as Ht.
    rewrite List.forallb_forall in Ht. apply Ht, N.ltb_lt in Hin.
    cbn [snd] in Hin. intros H%list_elem_of_singleton. lia.
  - by intros H%list_elem_of_singleton.
Qed.

Lemma lowerAt_dot before after cp : 46%N ∈ lowerAt before after cp → cp = 46%N.
Proof.
  unfold lowerAt. destruct (N.eqb cp 931); [|apply lowerPoint_dot].
  intros H%list_elem_of_singleton. by destruct (finalSigma _ _).
Qed.

Lemma codeUnits_dot cp : 46%N ∈ codeUnits cp → cp = 46%N.
Proof.
  unfold codeUnits. destruct (N.ltb cp 65536).
  - by intros H%list_elem_of_singleton.
  - generalize ((cp - 65536) / 1024)%N ((cp - 65536) mod 1024)%N.
    intros hi lo H. apply elem_of_cons in H as [H|H]; [lia|].
    apply list_elem_of_singleton in H. lia.
Qed.

Lemma codeUnits_small cp : (cp < 65536)%N → codeUnits cp = [cp].
Proof. intros H. unfold codeUnits. by rewrite (proj2 (N.ltb_lt _ _) H). Qed.

Lemma lowered_dot before cps :
  46%N ∈ flat_map codeUnits (lowerFrom before cps) → 46%N ∈ cps.
Proof.
  revert before. induction cps as [|cp cps IH]; intros before; [done|].
  cbn [lowerFrom]. rewrite flat_map_app.
  intros [H|H]%elem_of_app; [|right; by eapply IH].
  apply list_elem_of_In, in_flat_map in H as (x & Hx & Hin).
  apply list_elem_of_In, codeUnits_dot in Hin as ->.
  apply list_elem_of_In, lowerAt_dot in Hx as ->. by left.
Qed.

(** What follows a dot is lowered after the dot, in some context. *)
Lemma lowerFrom_dot before cps1 cps2 :
  ∃ head before',
    lowerFrom before (cps1 ++ 46%N :: cps2)
    = head ++ 46%N :: lowerFrom before' cps2.
Proof.
  revert before. induction cps1 as [|cp cps1 IH]; intros before.
  - by exists [], (46%N :: before).
  - destruct (IH (cp :: before)) as (head & before' & Heq).
    exists (lowerAt before (cps1 ++ 46%N :: cps2) cp ++ head), before'.
    cbn [app lowerFrom]. by rewrite Heq, app_assoc.
Qed.

(** The context is looked at for a capital sigma only. *)
Lemma lowerFrom_context before before' cps :
  931%N ∉ cps → lowerFrom before cps = lowerFrom before' cps.
Proof.
  revert before before'. induction cps as [|cp cps IH]; intros before before' H;
    [done|].
  apply not_elem_of_cons in H as [Hcp Hcps]. cbn [lowerFrom].
  rewrite (IH (cp :: before) (cp :: before')) by done. f_equal.
  unfold lowerAt. by rewrite (proj2 (N.eqb_neq cp 931)) by done.
Qed.

Lemma lowerFrom_sigma before cps :
  931%N ∈ cps →
  962%N ∈ flat_map codeUnits (lowerFrom before cps)
  ∨ 963%N ∈ flat_map codeUnits (lowerFrom before cps).
Proof.
  revert before. induction cps as [|cp cps IH]; intros before H;
    [by apply elem_of_nil in H|].
  cbn [lowerFrom]. rewrite flat_map_app.
  apply elem_of_cons in H as [<-|H].
  - unfold lowerAt. change (N.eqb 931 931) with true. cbv iota.
    destruct (finalSigma _ _); [left|right]; apply elem_of_app; left;
      by apply list_elem_of_singleton.
  - destruct (IH (cp :: before) H); [left|right]; apply elem_of_app; by right.
Qed.

Lemma toLowerCase_nil s : toLowerCase s = [] ↔ s = [].
Proof.
  split; [|by intros ->]. unfold toLowerCase. intros H.
  apply codePoints_nil. destruct (codePoints s) as [|cp cps]; [done|].
  cbn [lowerFrom] in H. rewrite flat_map_app in H.
  apply app_eq_nil in H as [H _]. unfold lowerAt in H.
  destruct (N.eqb cp 931).
  - by destruct (finalSigma _ _).
  - pose proof (lowerPoint_nonempty cp) as Hne.
    destruct (lowerPoint cp) as [|x xs]; [done|]. cbn [flat_map] in H.
    apply app_eq_nil in H as [H _]. unfold codeUnits in H.
    by destruct (N.ltb x 65536).
Qed.

(** The extension is the lower case of the part after the last dot taken
    alone; the same part of the lower-case name may differ from it in a
    sigma (final or not), and in nothing else. *)
Lemma extension_in_context s e :
  962%N ∉ e → 963%N ∉ e →
  toLowerCase (pop (split 46 s)) = e ↔ pop (split 46 (toLowerCase s)) = e.
Proof.
  intros H1 H2. destruct (decide (46%N ∈ s)) as [Hdot|Hdot].
  - destruct (last_dot_split s Hdot) as (pre & ext & -> & Hext).
    rewrite pop_split_suffix by done. unfold toLowerCase.
    rewrite codePoints_dot.
    destruct (lowerFrom_dot [] (codePoints pre) (codePoints ext))
      as (head & before' & ->).
    rewrite flat_map_app. cbn [flat_map].
    change (codeUnits 46) with [46%N]. cbn [app].
    assert (Hno : 46%N ∉ codePoints ext).
    { intros [?|?]%codePoints_elem; [done|lia]. }
    rewrite pop_split_suffix by (intros ?%lowered_dot; done).
    destruct (decide (931%N ∈ codePoints ext)) as [Hs|Hs].
    + split; intros <-.
      * destruct (lowerFrom_sigma [] _ Hs); done.
      * destruct (lowerFrom_sigma before' _ Hs); done.
    + by rewrite (lowerFrom_context [] before') by done.
  - assert (Hlow : 46%N ∉ toLowerCase s).
    { intros H%lowered_dot. by apply codePoints_elem in H as [?|?]; [|lia]. }
    by rewrite !split_id by done.
Qed.

(** Names with the same lower case have the same extension, as far as the
    dispatch can tell. *)
Lemma same_extension f g e :
  toLowerCase (File.name f) = toLowerCase (File.name g) →
  962%N ∉ e → 963%N ∉ e →
  App.extensionOf f = e ↔ App.extensionOf g = e.
Proof.
  intros Hname H1 H2. unfold App.extensionOf.
  by rewrite !extension_in_context, Hname by done.
Qed.

End Names.

(* ===================================================================== *)
(** * The archive *)
(* ===================================================================== *)

Section Archive.

Implicit Types (entries l : list (jsstring * jsstring)) (name n c : jsstring).

Lemma archive_snoc l e :
  Zip.archive (l ++ [e]) = <[fst e := snd e]> (Zip.archive l).
Proof. unfold Zip.archive. by rewrite fold_left_app. Qed.

Lemma archive_lookup_is_Some l n :
  is_Some (Zip.archive l !! n) ↔ n ∈ map fst l.
Proof.
  induction l as [|e l IH] using rev_ind.
  - unfold Zip.archive. simpl. rewrite lookup_empty. split.
    + by intros [? ?].
    + by intros ?%elem_of_nil.
  - rewrite archive_snoc, map_app, elem_of_app. simpl.
    rewrite list_elem_of_singleton.
    destruct (decide (fst e = n)) as [<-|Hne].
    + rewrite lookup_insert_eq. split; [by right|by eexists].
    + rewrite lookup_insert_ne by done. rewrite IH. split; [by left|].
      intros [?|?]; [done|congruence].
Qed.

(** The entry of a name holds what the last call for that name put there. *)
Lemma archive_lookup_last l1 l2 n c :
  n ∉ map fst l2 → Zip.archive (l1 ++ (n, c) :: l2) !! n = Some c.
Proof.
  induction l2 as [|e l2 IH] using rev_ind; intros Hn.
  - rewrite archive_snoc. simpl. by rewrite lookup_insert_eq.
  - rewrite map_app, not_elem_of_app in Hn. destruct Hn as [Hn Hne].
    change (l1 ++ (n, c) :: l2 ++ [e]) with (l1 ++ ((n, c) :: l2) ++ [e]).
    rewrite app_assoc, archive_snoc, lookup_insert_ne; [by apply IH|].
    intros Heq. apply Hne. simpl. rewrite Heq. by left.
Qed.

Lemma archive_size_le l : size (Zip.archive l) ≤ length l.
Proof.
  induction l as [|e l IH] using rev_ind; [done|].
  rewrite archive_snoc, length_app. simpl.
  destruct (Zip.archive l !! fst e) eqn:E.
  - rewrite map_size_insert_Some by eauto. lia.
  - rewrite map_size_insert_None by done. lia.
Qed.

Lemma archive_size_NoDup l :
  NoDup (map fst l) → size (Zip.archive l) = length l.
Proof.
  induction l as [|e l IH] using rev_ind; [done|].
  rewrite map_app. intros [Hl [Hdisj _]]%NoDup_app.
  rewrite archive_snoc, length_app. simpl.
  rewrite map_size_insert_None; [rewrite IH by done; lia|].
  apply eq_None_not_Some. rewrite archive_lookup_is_Some.
  intros Hin. apply (Hdisj _ Hin). by left.
Qed.

Lemma archive_size_dup l :
  ¬ NoDup (map fst l) → size (Zip.archive l) < length l.
Proof.
  induction l as [|e l IH] using rev_ind; [intros []; constructor|].
  rewrite map_app. intros Hdup.
  rewrite archive_snoc, length_app. simpl.
  destruct (decide (fst e ∈ map fst l)) as [Hin|Hnin].
  - apply archive_lookup_is_Some in Hin as [x Hx].
    rewrite map_size_insert_Some by eauto.
    pose proof (archive_size_le l). lia.
  - rewrite map_size_insert_None
      by (apply eq_None_not_Some; by rewrite archive_lookup_is_Some).
    assert (¬ NoDup (map fst l)).
    { intros Hl. apply Hdup. apply NoDup_app. split; [done|]. split.
      - intros x Hx [->|[]%elem_of_nil]%elem_of_cons. done.
      - apply NoDup_singleton. }
    specialize (IH H). lia.
Qed.

End Archive.

(* ===================================================================== *)
(** * The extraction branches *)
(* ===================================================================== *)

Section ExtractorFacts.

Import Extractors.

Implicit Types (xml r pre rest : jsstring) (run : option jsstring).

(** Every match is a [>], a non-empty run without [<], and a [<]. *)
Lemma scanText_shape run xml :
  (∀ r, run = Some r → 60%N ∉ r) →
  Forall (fun m => ∃ r, m = 62%N :: r ++ [60%N] ∧ r ≠ [] ∧ 60%N ∉ r)
         (scanText run xml).
Proof.
  revert run. induction xml as [|c xml IH]; intros run Hrun; [constructor|].
  cbn [scanText]. destruct run as [r|].
  - specialize (Hrun r eq_refl). destruct (N.eqb_spec c 60) as [->|Hne].
    + destruct r as [|a r]; [by apply IH|].
      constructor; [by exists (a :: r)|by apply IH].
    + apply IH. intros r' [= <-]. rewrite elem_of_app, list_elem_of_singleton.
      intros [?|?]; [done|congruence].
  - destruct (N.eqb c 62); apply IH; try done.
    intros r [= <-]. by intros ?%elem_of_nil.
Qed.

(** Reading on inside a match: the units up to the next [<] join the run. *)
Lemma scanText_run r0 r rest :
  60%N ∉ r →
  scanText (Some r0) (r ++ 60%N :: rest)
  = match r0 ++ r with
    | [] => scanText None rest
    | _ :: _ => (62%N :: (r0 ++ r) ++ [60%N]) :: scanText None rest
    end.
Proof.
  revert r0. induction r as [|c r IH]; intros r0 Hr.
  - rewrite app_nil_r. done.
  - cbn [app scanText].
    destruct (N.eqb_spec c 60) as [->|_]; [destruct Hr; by left|].
    rewrite IH by (intros ?; apply Hr; by right).
    by rewrite <- app_assoc.
Qed.

Lemma scanText_skip pre xml :
  62%N ∉ pre → scanText None (pre ++ xml) = scanText None xml.
Proof.
  induction pre as [|c pre IH]; intros Hpre; [done|]. cbn [app scanText].
  destruct (N.eqb_spec c 62) as [->|_]; [destruct Hpre; by left|].
  apply IH. intros ?. apply Hpre. by right.
Qed.

Lemma sliceInner_match r : sliceInner (62%N :: r ++ [60%N]) = r.
Proof. unfold sliceInner. simpl. apply removelast_last. Qed.

Lemma pdfLoop_app i pages content :
  pdfLoop i pages content = content ++ pdfLoop i pages [].
Proof.
  revert i content. induction pages as [|items pages IH]; intros i content.
  - by rewrite app_nil_r.
  - cbn [pdfLoop]. rewrite IH, (IH _ ([] ++ _)). by rewrite <- !app_assoc.
Qed.

Lemma fold_left_append {A} (g : A → jsstring) (l : list A) (content : jsstring) :
  fold_left (fun content x => content ++ g x) l content
  = content ++ concat (map g l).
Proof.
  revert content. induction l as [|x l IH]; intros content; simpl.
  - by rewrite app_nil_r.
  - by rewrite IH, <- app_assoc.
Qed.

Lemma slidesContent_blocks entries :
  slidesContent entries
  = concat (map slideBlock (List.filter (fun e => isSlide (fst e)) entries)).
Proof. unfold slidesContent. by rewrite fold_left_append. Qed.

End ExtractorFacts.

(* ===================================================================== *)
(** * The OCR worker *)
(* ===================================================================== *)

Section OcrFacts.

Import Ocr.

Lemma steps_app e1 e2 st : steps (e1 ++ e2) st = steps e2 (steps e1 st).
Proof. unfold steps. apply fold_left_app. Qed.

Lemma steps_calls_empty {A} (l : list A) c :
  steps (map (fun _ => Call) l) {| workerRef := None; created := c |}
  = {| workerRef := None; created := c + length l |}.
Proof.
  revert c. induction l as [|x l IH]; intros c; simpl.
  - by rewrite Nat.add_0_r.
  - unfold steps in *. simpl. rewrite IH. f_equal. lia.
Qed.

Lemma steps_calls_set {A} (l : list A) k c :
  steps (map (fun _ => Call) l) {| workerRef := Some k; created := c |}
  = {| workerRef := Some k; created := c |}.
Proof. induction l as [|x l IH]; [done|]. unfold steps in *. simpl. exact IH. Qed.

Lemma steps_assign_created loaded st :
  created (steps (map Assign loaded) st) = created st.
Proof.
  revert st. induction loaded as [|k loaded IH]; intros st; [done|].
  unfold steps in *. simpl. by rewrite IH.
Qed.

Lemma sequentialEvents_set n k c :
  created (sequentialEvents n {| workerRef := Some k; created := c |}) = c.
Proof. induction n as [|n IH]; [done|]. simpl. exact IH. Qed.

End OcrFacts.

(* ===================================================================== *)
(** * [src/App.tsx]: more on whole runs *)
(* ===================================================================== *)

Section MoreRuns.

Import App AppRun.

Variable w : World.

Implicit Types (files batch : list File.t) (st : AppState) (acts : list Action).

Lemma balanced_app acts1 acts2 :
  balanced acts1 → balanced acts2 → balanced (acts1 ++ acts2).
Proof.
  unfold balanced. intros H1 H2.
  rewrite logged_app, length_app, nFailed_app. lia.
Qed.

Lemma balanced_flat_map {A} (g : A → list Action) (l : list A) :
  (∀ x, balanced (g x)) → balanced (flat_map g l).
Proof.
  intros H. induction l as [|x l IH]; [done|]. simpl. by apply balanced_app.
Qed.

Lemma balanced_processFile file : balanced (snd (processFile w file)).
Proof. unfold processFile. by repeat case_match. Qed.

Lemma balanced_startFile i n file : balanced (startFile w i n file).
Proof.
  unfold startFile. apply balanced_app; [done|].
  destruct (isSync file); [apply balanced_processFile|done].
Qed.

Lemma balanced_batchActions i n batch : balanced (batchActions w i n batch).
Proof.
  unfold batchActions. apply balanced_app; apply balanced_flat_map; intros f.
  - apply balanced_startFile.
  - apply balanced_processFile.
Qed.

Lemma balanced_loop files fuel i pr : balanced (loop w files fuel i pr).
Proof.
  revert i pr. induction fuel as [|fuel IH]; intros i pr; [done|].
  cbn [loop]. repeat case_match; try done.
  - apply balanced_app; [apply balanced_batchActions|].
    apply (balanced_app [_; _]); [done|apply IH].
  - apply balanced_batchActions.
Qed.

Lemma run_keeps_output acts st :
  outputText (run acts st) = outputText st ∧ options (run acts st) = options st.
Proof.
  revert st. induction acts as [|a acts IH]; intros st; [done|].
  simpl. destruct (IH (apply a st)) as [-> ->]. by destruct a.
Qed.

Lemma length_filter_lt {A} (p : A → bool) (l : list A) :
  forallb p l = false → length (List.filter p l) < length l.
Proof.
  induction l as [|x l IH]; [done|]. simpl.
  destruct (p x) eqn:E; simpl.
  - intros H. specialize (IH H). lia.
  - intros _. pose proof (length_filter_le p l). lia.
Qed.

Lemma batchActions_counts_settled i n batch :
  nSucceeded (batchActions w i n batch) + nFailed (batchActions w i n batch)
  = length (List.filter (settles w) batch).
Proof.
  destruct (batchActions_counts w i n batch) as [-> ->].
  induction batch as [|f batch IH]; [done|]. simpl.
  destruct (settles w f), (ok w f); simpl; lia.
Qed.

(** A run whose batch [k] holds an extraction that never settles is the
    batches before it and the updates of that batch, and nothing more. *)
Lemma stalled_run files k :
  batchSize * k < length files →
  (∀ j, j ≤ k → aborted w (batchSize * j) = false) →
  forallb (settles w) (take (batchSize * k) files) = true →
  forallb (settles w) (slice files (batchSize * k) (batchSize * k + batchSize))
  = false →
  handleFolderUpload w files
  = prologue files ++ fst (completed w files k 0 [])
    ++ batchActions w (batchSize * k) (length files)
         (slice files (batchSize * k) (batchSize * k + batchSize)).
Proof.
  intros Hlt Hnot Hall Hstall.
  assert (Hne : files ≠ []) by (destruct files; simpl in *; [lia|done]).
  rewrite handleFolderUpload_nonempty by done.
  destruct (loop_decompose w files (length files + 1) 0 [])
    as (k' & ending & -> & Hend & Hall' & Hnot' & _); [lia|].
  rewrite Nat.add_0_l in Hend. change (drop 0 files) with files in Hall'.
  assert (k' = k) as ->.
  { destruct (Nat.lt_trichotomy k' k) as [Hk|[Hk|Hk]]; [|done|].
    - exfalso. inversion Hend as [Hlen|Hlt' Hab'|Hlt' _ Hst]; subst.
      + unfold batchSize in *. lia.
      + rewrite Hnot in Hab' by lia. done.
      + apply not_true_iff_false in Hst. apply Hst.
        apply forallb_forall. intros f Hf.
        eapply forallb_forall in Hall; [exact Hall|].
        apply list_elem_of_In. eapply elem_of_take_slice; [exact Hk|].
        by apply list_elem_of_In.
    - exfalso. apply not_true_iff_false in Hstall. apply Hstall.
      apply forallb_forall. intros f Hf.
      eapply forallb_forall in Hall'; [exact Hall'|].
      apply list_elem_of_In. eapply elem_of_take_slice; [exact Hk|].
      by apply list_elem_of_In. }
  inversion Hend as [Hlen|Hlt' Hab'|Hlt' Hab' _]; subst; [lia| |done].
  rewrite Hnot in Hab' by lia. done.
Qed.

End MoreRuns.

(* ===================================================================== *)
(** * The copy with the timer: counting *)
(* ===================================================================== *)

Section TimedCounts.

Import Timed TimedExtra.

Variable w : World.

Implicit Types (files batch : list File.t) (file : File.t) (start : N).

Local Abbreviation updates acts := (nSucceeded acts + nFailed acts).

Lemma insertEvent_perm e l : insertEvent e l ≡ₚ e :: l.
Proof.
  induction l as [|e' l IH]; simpl; [done|].
  destruct (N.leb _ _); [done|]. rewrite IH. apply Permutation_swap.
Qed.

Lemma sorted_events_perm l : foldr insertEvent [] l ≡ₚ l.
Proof.
  induction l as [|e l IH]; simpl; [done|]. by rewrite insertEvent_perm, IH.
Qed.

Lemma insertEvent_zero a l : insertEvent (0%N, a) l = (0%N, a) :: l.
Proof. destruct l as [|[t b] l]; [done|]. simpl. by destruct t. Qed.

Lemma timed_processFile_updates file :
  updates (snd (processFile w file)) = 1.
Proof.
  unfold processFile. destruct (classify file); [|done].
  by destruct (extract w _ file).
Qed.

Lemma timed_processFile_additive file :
  forallb additive (snd (processFile w file)) = true.
Proof.
  unfold processFile. destruct (classify file); [|done].
  by destruct (extract w _ file).
Qed.

Lemma nSucceeded_map_snd_time (t : N) acts :
  nSucceeded (map snd (map (fun a => (t, a)) acts)) = nSucceeded acts
  ∧ nFailed (map snd (map (fun a => (t, a)) acts)) = nFailed acts.
Proof.
  rewrite map_map. simpl. by rewrite map_id.
Qed.

Lemma counts_console s acts :
  nSucceeded (ConsoleLog s :: acts) = nSucceeded acts
  ∧ nFailed (ConsoleLog s :: acts) = nFailed acts.
Proof. done. Qed.

(** The updates made for a file up to the moment its promise settles: one;
    and one more afterwards when its extraction settles although the timer
    has fired. *)
Lemma fileEvents_updates start file :
  updates (map snd (fileEvents w start file)) = 1.
Proof.
  unfold fileEvents, processFileWithTimeout, inTime.
  pose proof (timed_processFile_updates file) as Hown.
  rewrite map_cons; cbn [snd];
    match goal with
    | |- context [ConsoleLog ?s :: ?l] =>
        destruct (counts_console s l) as [-> ->]
    end.
  destruct (settleTime w file) as [d|]; [|done].
  destruct (N.ltb d timeoutMs); [|done].
  by destruct (nSucceeded_map_snd_time (start + d) (snd (processFile w file)))
    as [-> ->].
Qed.

Lemma lateEvents_updates start file :
  updates (map snd (lateEvents w start file)) = if late w file then 1 else 0.
Proof.
  unfold lateEvents, late, processFileWithTimeout, inTime.
  pose proof (timed_processFile_updates file) as Hown.
  destruct (settleTime w file) as [d|]; [|done].
  rewrite N.leb_antisym. destruct (N.ltb d timeoutMs); [done|].
  by destruct (nSucceeded_map_snd_time (start + d) (snd (processFile w file)))
    as [-> ->].
Qed.

Lemma own_events_additive (t : N) file :
  forallb additive (map snd (map (fun a => (t, a)) (snd (processFile w file))))
  = true.
Proof. rewrite map_map. simpl. rewrite map_id. apply timed_processFile_additive. Qed.

Lemma fileEvents_additive start file :
  forallb additive (map snd (fileEvents w start file)) = true.
Proof.
  unfold fileEvents. rewrite map_cons. cbn [snd forallb additive andb].
  destruct (processFileWithTimeout w file timeoutMs); [|done].
  destruct (settleTime w file); [|done]. apply own_events_additive.
Qed.

Lemma lateEvents_additive start file :
  forallb additive (map snd (lateEvents w start file)) = true.
Proof.
  unfold lateEvents.
  destruct (processFileWithTimeout w file timeoutMs); [done|].
  destruct (settleTime w file); [|done]. apply own_events_additive.
Qed.

Lemma batch_updates start batch :
  updates (map snd (flat_map (fileEvents w start) batch)) = length batch.
Proof.
  induction batch as [|f batch IH]; [done|].
  cbn [flat_map]. rewrite map_app, nSucceeded_app, nFailed_app.
  pose proof (fileEvents_updates start f) as Hf. simpl length. lia.
Qed.

Lemma batch_late_updates start batch :
  updates (map snd (flat_map (lateEvents w start) batch))
  = length (List.filter (late w) batch).
Proof.
  induction batch as [|f batch IH]; [done|].
  cbn [flat_map List.filter]. rewrite map_app, nSucceeded_app, nFailed_app.
  pose proof (lateEvents_updates start f) as Hf.
  destruct (late w f); simpl length; lia.
Qed.

Lemma batch_additive start batch :
  forallb additive (map snd (flat_map (fileEvents w start) batch)) = true
  ∧ forallb additive (map snd (flat_map (lateEvents w start) batch)) = true.
Proof.
  induction batch as [|f batch [IH1 IH2]]; [done|].
  cbn [flat_map].
  by rewrite !map_app, !forallb_app, fileEvents_additive, lateEvents_additive,
    IH1, IH2.
Qed.

Lemma timed_loop_updates files fuel i start pr :
  length files - i < fuel →
  updates (map snd (events (loop w files fuel i start pr)))
  = length (drop i files) + length (List.filter (late w) (drop i files))
  ∧ forallb additive (map snd (events (loop w files fuel i start pr))) = true.
Proof.
  revert i start pr. induction fuel as [|fuel IH]; intros i start pr Hfuel; [lia|].
  cbn [loop]. destruct (Nat.ltb_spec i (length files)) as [Hi|Hi].
  - cbn [events]. rewrite !map_app, !nSucceeded_app, !nFailed_app, !forallb_app.
    set (batch := App.slice files i (i + App.batchSize)).
    set (pr' := pr ++ App.validResults (map (guarded w) batch)).
    destruct (IH (i + App.batchSize) (batchEnd w start batch) pr'
                ltac:(unfold App.batchSize; lia)) as [IHu IHa].
    destruct (batch_additive start batch) as [-> ->]. rewrite IHa.
    split; [|done].
    pose proof (batch_updates start batch) as Hb.
    pose proof (batch_late_updates start batch) as Hl.
    assert (Hsplit : drop i files = batch ++ drop (i + App.batchSize) files).
    { subst batch. by rewrite slice_batch, <- drop_drop, take_drop. }
    rewrite Hsplit, List.filter_app, !length_app.
    cbn [map snd]. unfold nSucceeded at 2, nFailed at 2. simpl. lia.
  - cbn [events]. rewrite drop_ge by done. done.
Qed.

(** The updates of a run in the order of their times start with the three
    of the prologue. *)
Lemma timeline_nonempty f files :
  ∃ rest,
    timeline (handleFolderUpload w (f :: files))
    = [SetIsProcessing true; SetProcessingStatus (str "Scanning files...");
       SetStats {| total := length (f :: files); processed := 0; failed := 0 |}]
      ++ rest
    ∧ rest ≡ₚ map snd (events (loop w (f :: files) (length (f :: files) + 1)
                                 0 0%N [])).
Proof.
  unfold timeline, handleFolderUpload. cbn [events].
  set (evs := events _).
  exists (map snd (foldr insertEvent [] evs)). split.
  - cbn [app foldr]. by rewrite !insertEvent_zero.
  - by rewrite sorted_events_perm.
Qed.

Lemma forallb_perm {A} (p : A → bool) (l1 l2 : list A) :
  l1 ≡ₚ l2 → forallb p l1 = forallb p l2.
Proof.
  induction 1 as [|x ? ? _ IH|x y ?|? ? ? _ IH1 _ IH2]; simpl; try done.
  - by rewrite IH.
  - by destruct (p x), (p y).
  - by rewrite IH1.
Qed.

(** What this copy reads of its collaborators. *)
Lemma timed_loop_same_reads (w' : World) files fuel i start pr :
  extract w = extract w' → duration w = duration w' →
  toLocaleString w = toLocaleString w' →
  loop w files fuel i start pr = loop w' files fuel i start pr.
Proof.
  intros He Hd Ht.
  assert (Hpf : ∀ f, processFile w f = processFile w' f).
  { intros f. unfold processFile, header, App.fileDateOf. by rewrite He, Ht. }
  assert (Hst : ∀ f, settleTime w f = settleTime w' f).
  { intros f. unfold settleTime. by rewrite Hd. }
  assert (Hto : ∀ f t, processFileWithTimeout w f t = processFileWithTimeout w' f t).
  { intros f t. unfold processFileWithTimeout, inTime. by rewrite Hst, Hpf. }
  assert (Hg : ∀ l, map (guarded w) l = map (guarded w') l).
  { intros l. apply map_ext. intros f. unfold guarded. by rewrite Hto. }
  assert (Hfe : ∀ s l, flat_map (fileEvents w s) l = flat_map (fileEvents w' s) l).
  { intros s l. apply flat_map_ext. intros f. unfold fileEvents.
    by rewrite Hst, Hpf, Hto. }
  assert (Hle : ∀ s l, flat_map (lateEvents w s) l = flat_map (lateEvents w' s) l).
  { intros s l. apply flat_map_ext. intros f. unfold lateEvents.
    by rewrite Hst, Hpf, Hto. }
  assert (Hbe : ∀ s l, batchEnd w s l = batchEnd w' s l).
  { intros s l. unfold batchEnd. induction l as [|f l IH]; [done|].
    simpl. unfold settledAt at 1 3. by rewrite Hst, IH. }
  revert i start pr. induction fuel as [|fuel IH]; intros i start pr; [done|].
  cbn [loop]. destruct (Nat.ltb i (length files)); [|done].
  by rewrite Hg, Hfe, Hle, Hbe, IH.
Qed.

End TimedCounts.

(* ===================================================================== *)
(** * The normaliser: terminators and lengths *)
(* ===================================================================== *)

Section NormalizerMore.

Implicit Types (s t l sep : jsstring) (ls : list jsstring) (o : ConversionOptions).

Lemma crBeforeEveryLF_replace b s :
  crBeforeEveryLF b (replaceLF [CR; LF] s) = true.
Proof.
  revert b. induction s as [|c s IH]; intros b; [done|].
  cbn [replaceLF]. destruct (N.eqb_spec c LF) as [->|Hne].
  - cbn [app crBeforeEveryLF]. change (N.eqb CR LF) with false.
    change (N.eqb LF LF) with true. change (N.eqb CR CR) with true.
    cbn [andb]. apply IH.
  - cbn [app crBeforeEveryLF].
    destruct (N.eqb_spec c LF) as [?|_]; [done|]. apply IH.
Qed.

Lemma length_join sep ls :
  length (join sep ls) = totalLength ls + length sep * pred (length ls).
Proof.
  induction ls as [|l ls IH]; [simpl; lia|].
  destruct ls as [|l' ls]; [simpl; lia|].
  rewrite join_cons2, !length_app, IH. simpl. lia.
Qed.

Lemma length_trimStart s : length (trimStart s) ≤ length s.
Proof. induction s as [|c s IH]; simpl; [lia|]. destruct (isWhiteSpace c); simpl; lia. Qed.

Lemma length_trimEnd s : length (trimEnd s) ≤ length s.
Proof.
  induction s as [|c s IH]; [done|]. rewrite trimEnd_cons.
  destruct (_ && _); simpl; lia.
Qed.

Lemma length_trim s : length (trim s) ≤ length s.
Proof.
  unfold trim. pose proof (length_trimEnd (trimStart s)).
  pose proof (length_trimStart s). lia.
Qed.

Lemma passLines_shorter o ls :
  totalLength (passLines o ls) ≤ totalLength ls
  ∧ length (passLines o ls) ≤ length ls.
Proof.
  unfold passLines, specTrimLines, specDropEmpty.
  assert (Htrim : totalLength (map trim ls) ≤ totalLength ls
                  ∧ length (map trim ls) = length ls).
  { induction ls as [|l ls [IH1 IH2]]; [done|]. simpl.
    pose proof (length_trim l). lia. }
  assert (Hfilter : ∀ (p : jsstring → bool) xs,
             totalLength (List.filter p xs) ≤ totalLength xs
             ∧ length (List.filter p xs) ≤ length xs).
  { intros p xs. induction xs as [|x xs [IH1 IH2]]; [done|]. simpl.
    destruct (p x); simpl; lia. }
  destruct (trimWhitespace o), (removeEmptyLines o).
  - destruct (Hfilter (fun line => negb (Nat.eqb (length (trim line)) 0))
                      (map trim ls)). lia.
  - lia.
  - apply Hfilter.
  - lia.
Qed.

Lemma length_split_lineFeeds s : length (split LF s) = S (lineFeeds s).
Proof.
  unfold lineFeeds. induction s as [|c s IH]; [done|]. cbn [split List.filter].
  rewrite (N.eqb_sym LF c). destruct (N.eqb c LF); simpl.
  - by rewrite IH.
  - destruct (split LF s) as [|l ls] eqn:E; [by apply split_nonempty in E|].
    simpl in *. done.
Qed.

Lemma specTerminator_cases le :
  specTerminator le = [CR; LF] ∨ specTerminator le = [CR]
  ∨ specTerminator le = [LF].
Proof. unfold specTerminator. repeat case_bool_decide; auto. Qed.

Lemma addCR_nonblank ls :
  Forall (fun l => trim l ≠ []) ls → Forall (fun l => trim l ≠ []) (addCR ls).
Proof.
  induction 1 as [|l ls Hl Hls IH]; [done|].
  destruct ls as [|l' ls]; [by constructor|].
  change (addCR (l :: l' :: ls)) with ((l ++ [CR]) :: addCR (l' :: ls)).
  constructor; [|done]. by rewrite trim_snoc_ws.
Qed.

Lemma totalLength_split s :
  totalLength (split LF s) + lineFeeds s = length s.
Proof.
  rewrite <- (join_split LF s) at 3. rewrite length_join, length_split_lineFeeds.
  simpl. lia.
Qed.

End NormalizerMore.

(* ===================================================================== *)
(** * Further properties: names and the archive *)
(* ===================================================================== *)

(** X1: the archive name is cut at the last dot of the path, with what
    follows it, when at least one character follows and none of them is a
    slash; otherwise the path is kept whole (a trailing dot, a dot that
    belongs to a folder name). *)
Theorem stripExtension_at_last_dot (pre ext : jsstring) :
  46%N ∉ ext →
  App.stripExtension (pre ++ 46%N :: ext)
  = if Nat.ltb 0 (length ext) && negb (bool_decide (47%N ∈ ext))
    then pre else pre ++ 46%N :: ext.
Proof. apply stripExtension_dot. Qed.

Lemma stripExtension_at_last_dot_witness :
  App.stripExtension (str "docs/a.tar" ++ 46%N :: str "gz") = str "docs/a.tar".
Proof.
  rewrite (stripExtension_at_last_dot (str "docs/a.tar") (str "gz")).
  - reflexivity.
  - vm_compute. intros H. repeat (apply elem_of_cons in H as [H|H]; [done|]).
    by apply elem_of_nil in H.
Defined.

(** X2: the folders of a path are kept as they are: only the part after the
    last slash can lose an extension. *)
Theorem stripExtension_keeps_folders (dir leaf : jsstring) :
  47%N ∉ leaf →
  App.stripExtension (dir ++ 47%N :: leaf) = dir ++ 47%N :: App.stripExtension leaf.
Proof.
  intros Hleaf. destruct (decide (46%N ∈ leaf)) as [Hdot|Hdot].
  - destruct (last_dot_split leaf Hdot) as (pre & ext & -> & Hext).
    assert (Hslash : 47%N ∉ ext).
    { intros H. apply Hleaf. apply elem_of_app. right. by right. }
    change (dir ++ 47%N :: pre ++ 46%N :: ext)
      with (dir ++ (47%N :: pre) ++ 46%N :: ext).
    rewrite app_assoc, !stripExtension_dot by done.
    rewrite (bool_decide_eq_false_2 _ Hslash).
    destruct (Nat.ltb 0 (length ext)); simpl; by rewrite <- ?app_assoc.
  - rewrite (stripExtension_no_dot leaf) by done.
    destruct (decide (46%N ∈ dir)) as [Hd|Hd].
    + destruct (last_dot_split dir Hd) as (pre & ext & -> & Hext).
      rewrite <- app_assoc. cbn [app].
      change (pre ++ 46%N :: ext ++ 47%N :: leaf)
        with (pre ++ 46%N :: (ext ++ 47%N :: leaf)).
      rewrite stripExtension_dot.
      * rewrite bool_decide_eq_true_2; [by rewrite andb_false_r|].
        apply elem_of_app. right. by left.
      * intros [?|[?|?]%elem_of_cons]%elem_of_app; done.
    + apply stripExtension_no_dot.
      intros [?|[?|?]%elem_of_cons]%elem_of_app; done.
Qed.

Lemma stripExtension_keeps_folders_witness :
  App.stripExtension (str "v1.2" ++ 47%N :: str "readme")
  = str "v1.2" ++ 47%N :: str "readme".
Proof.
  rewrite (stripExtension_keeps_folders (str "v1.2") (str "readme")).
  - reflexivity.
  - vm_compute. intros H. repeat (apply elem_of_cons in H as [H|H]; [done|]).
    by apply elem_of_nil in H.
Defined.

(** X3: when [handleDownload] builds an archive, the entry under a file's
    archive name holds the converted content of the last processed file
    with that name. *)
Theorem archive_entry_is_last_file_of_that_name
    (st : AppState) (l1 l2 : list ProcessedFile.t) (pf : ProcessedFile.t) :
  processedFiles st = l1 ++ pf :: l2 →
  1 < length (processedFiles st) →
  Zip.archiveName pf ∉ map Zip.archiveName l2 →
  ∃ zip,
    Zip.downloaded st = Some zip
    ∧ zip !! Zip.archiveName pf
      = Some (normalize (ProcessedFile.content pf) (options st)).
Proof.
  intros Hfs Hlen Hlast. unfold Zip.downloaded, App.handleDownload.
  rewrite (proj2 (Nat.ltb_lt _ _) Hlen). eexists. split; [done|].
  rewrite Hfs, map_app. cbn [map].
  apply archive_lookup_last. by rewrite map_map.
Qed.

Lemma archive_entry_is_last_file_of_that_name_witness :
  ∃ zip,
    Zip.downloaded (Cases.holding [Cases.reportDoc; Cases.reportPdf]) = Some zip
    ∧ zip !! str "a/report.txt" = Some (str "from pdf").
Proof.
  apply (archive_entry_is_last_file_of_that_name
           (Cases.holding [Cases.reportDoc; Cases.reportPdf])
           [Cases.reportDoc] [] Cases.reportPdf).
  - reflexivity.
  - simpl. lia.
  - by intros ?%elem_of_nil.
Defined.

(** X4: the archive never holds more files than were processed; it holds
    as many when the archive names are all different, and fewer as soon as
    two processed files share one. *)
Theorem archive_loses_files_on_name_clash (st : AppState) :
  1 < length (processedFiles st) →
  ∃ zip,
    Zip.downloaded st = Some zip
    ∧ size zip ≤ length (processedFiles st)
    ∧ (NoDup (map Zip.archiveName (processedFiles st)) →
       size zip = length (processedFiles st))
    ∧ (¬ NoDup (map Zip.archiveName (processedFiles st)) →
       size zip < length (processedFiles st)).
Proof.
  intros Hlen. unfold Zip.downloaded, App.handleDownload.
  rewrite (proj2 (Nat.ltb_lt _ _) Hlen). eexists. split; [done|].
  set (entries := map _ (processedFiles st)).
  assert (Hnames : map fst entries = map Zip.archiveName (processedFiles st))
    by (subst entries; by rewrite map_map).
  assert (Hl : length entries = length (processedFiles st))
    by (subst entries; by rewrite length_map).
  rewrite <- Hnames, <- Hl. split; [apply archive_size_le|]. split.
  - apply archive_size_NoDup.
  - apply archive_size_dup.
Qed.

Lemma archive_loses_files_on_name_clash_witness :
  ∃ zip,
    Zip.downloaded (Cases.holding [Cases.reportDoc; Cases.notes; Cases.reportPdf])
    = Some zip
    ∧ size zip < 3.
Proof.
  destruct (archive_loses_files_on_name_clash
              (Cases.holding [Cases.reportDoc; Cases.notes; Cases.reportPdf]))
    as (zip & Hz & _ & _ & Hlt).
  - simpl. lia.
  - exists zip. split; [exact Hz|]. apply Hlt.
    intros Hnd. vm_compute in Hnd.
    apply NoDup_cons in Hnd as [Hnot _]. apply Hnot.
    right. by left.
Defined.

(** X5: a name without a dot is its own extension, in lower case: a file
    called [PDF] or [docx] is routed as that format. *)
Theorem extension_of_name_without_dot (file : File.t) :
  46%N ∉ File.name file →
  App.extensionOf file = toLowerCase (File.name file)
  ∧ App.classify file
    = match ClassifierSpec.byMediaType (File.type file) with
      | Some s => Some s
      | None => ClassifierSpec.byExtension (toLowerCase (File.name file))
      end.
Proof.
  intros Hdot.
  assert (He : App.extensionOf file = toLowerCase (File.name file)).
  { unfold App.extensionOf. by rewrite split_id. }
  split; [done|]. by rewrite classify_by_type_then_extension, He.
Qed.

Lemma extension_of_name_without_dot_witness :
  App.classify (Sample.file "PDF" "" "x" 1) = Some Pdf.
Proof.
  destruct (extension_of_name_without_dot (Sample.file "PDF" "" "x" 1)) as [_ H].
  - vm_compute. intros H. repeat (apply elem_of_cons in H as [H|H]; [done|]).
    by apply elem_of_nil in H.
  - rewrite H. reflexivity.
Defined.

(** X6: the extension is empty exactly when the name is empty or ends with
    a dot; [originalType] is then "unknown". *)
Theorem extension_empty_iff (file : File.t) :
  (App.extensionOf file = []
   ↔ File.name file = [] ∨ ∃ pre, File.name file = pre ++ [46%N])
  ∧ (orElse (App.extensionOf file) (str "unknown") = str "unknown"
     ↔ App.extensionOf file = [] ∨ App.extensionOf file = str "unknown").
Proof.
  split.
  - unfold App.extensionOf. rewrite toLowerCase_nil.
    destruct (decide (46%N ∈ File.name file)) as [Hdot|Hdot].
    + destruct (last_dot_split _ Hdot) as (pre & ext & Hname & Hext).
      rewrite Hname, pop_split_suffix by done. split.
      * intros ->. right. by exists pre.
      * intros [Hnil|[pre' Hpre']]; [by destruct pre|].
        destruct ext as [|c ext] using rev_ind; [done|].
        change (pre ++ 46%N :: ext ++ [c]) with (pre ++ (46%N :: ext) ++ [c]) in Hpre'.
        rewrite app_assoc in Hpre'. apply app_inj_tail in Hpre' as [_ ->].
        destruct Hext. apply elem_of_app. right. by left.
    + rewrite split_id by done. unfold pop. simpl. split; [by left|].
      intros [?|[pre Hpre]]; [done|]. destruct Hdot. rewrite Hpre.
      apply elem_of_app. right. by left.
  - destruct (App.extensionOf file) as [|c e]; simpl; [by split; [left|]|].
    split; [by right|]. by intros [?|?].
Qed.

(** X7: the classification does not depend on the case of the letters of
    the name, cased letters outside ASCII included: two files with the same
    declared media type whose names have the same lower case are routed
    alike.  (Their extensions may still differ, in a final sigma, which no
    route asks for.) *)
Theorem classify_ignores_case_of_name (f g : File.t) :
  toLowerCase (File.name f) = toLowerCase (File.name g) →
  File.type f = File.type g →
  App.classify f = App.classify g.
Proof.
  intros Hname Htype. rewrite !classify_by_type_then_extension, Htype.
  destruct (ClassifierSpec.byMediaType _); [done|].
  assert (H : ∀ e, 962%N ∉ e → 963%N ∉ e →
                   bool_decide (App.extensionOf f = e)
                   = bool_decide (App.extensionOf g = e)).
  { intros e H1 H2. by apply bool_decide_ext, same_extension. }
  unfold ClassifierSpec.byExtension.
  rewrite !bool_decide_elem_of_cons, !bool_decide_elem_of_nil.
  by rewrite !H
    by (vm_compute; intros Hx;
        repeat (apply elem_of_cons in Hx as [Hx|Hx]; [done|]);
        by apply elem_of_nil in Hx).
Qed.

Lemma classify_ignores_case_of_name_witness :
  App.classify Cases.upperPdf = App.classify Cases.lowerPdf.
Proof.
  apply (classify_ignores_case_of_name Cases.upperPdf Cases.lowerPdf);
    reflexivity.
Defined.

(* ===================================================================== *)
(** * Further properties: the extraction branches *)
(* ===================================================================== *)

(** X8: the PDF branch writes one block per page, in page order, headed
    "Page 1", "Page 2", ...: the items of the page joined by single spaces,
    then an empty line. *)
Theorem pdf_pages_numbered_in_order (pages : list (list jsstring)) :
  Extractors.pdfContent pages
  = concat (imap (fun k items =>
                    str "Page " ++ numberToString (N.of_nat (k + 1)) ++ [LF]
                    ++ join (str " ") items ++ [LF; LF])
                 pages).
Proof.
  unfold Extractors.pdfContent.
  assert (H : ∀ i,
    Extractors.pdfLoop i pages []
    = concat (imap (fun k items =>
                      str "Page " ++ numberToString (N.of_nat (i + k)) ++ [LF]
                      ++ join (str " ") items ++ [LF; LF])
                   pages)).
  { induction pages as [|items pages IH]; intros i; [done|].
    cbn [Extractors.pdfLoop imap concat]. rewrite pdfLoop_app, IH.
    rewrite Nat.add_0_r. cbn [app]. f_equal.
    f_equal. apply imap_ext. intros k x _. simpl.
    by replace (i + 1 + k) with (i + S k) by lia. }
  rewrite (H 1). f_equal. apply imap_ext. intros k x _. simpl.
  by replace (k + 1) with (S k) by lia.
Qed.

(** X9: the spreadsheet branch writes the sheets in the order of the
    workbook, each as "Sheet: name", its CSV and an empty line. *)
Theorem sheets_in_workbook_order (sheets : list (jsstring * jsstring)) :
  Extractors.sheetsContent sheets
  = concat (map (fun sheet =>
                   str "Sheet: " ++ fst sheet ++ [LF] ++ snd sheet ++ [LF; LF])
                sheets).
Proof.
  unfold Extractors.sheetsContent.
  by rewrite (fold_left_append
                (fun sheet => str "Sheet: " ++ fst sheet ++ [LF]
                              ++ snd sheet ++ [LF; LF])).
Qed.

(** X10: every text run taken from a slide is non-empty, has no white space
    at either end and holds no [<]. *)
Theorem slide_runs_are_clean (xml : jsstring) :
  Forall (fun text => text ≠ [] ∧ trim text = text ∧ 60%N ∉ text)
         (Extractors.slideRuns xml).
Proof.
  unfold Extractors.slideRuns, Extractors.textMatches.
  apply List.Forall_forall. intros text [Hin Hlen]%List.filter_In.
  apply List.in_map_iff in Hin as (m & <- & Hm).
  pose proof (scanText_shape None xml ltac:(done)) as Hshape.
  eapply List.Forall_forall in Hshape; [|exact Hm].
  destruct Hshape as (r & -> & _ & Hr).
  rewrite sliceInner_match in *. repeat split.
  - by destruct (trim r).
  - apply trim_idem.
  - by apply trim_no.
Qed.

(** X11: in [pre>text<rest], where [pre] has no [>] and [text] is not empty
    and has no [<], the first match is [>text<], and matching goes on after
    the [<]. *)
Theorem text_between_brackets_is_matched (pre text rest : jsstring) :
  62%N ∉ pre → text ≠ [] → 60%N ∉ text →
  Extractors.textMatches (pre ++ 62%N :: text ++ 60%N :: rest)
  = (62%N :: text ++ [60%N]) :: Extractors.textMatches rest.
Proof.
  intros Hpre Hne Htext. unfold Extractors.textMatches.
  rewrite scanText_skip by done. cbn [Extractors.scanText].
  change (N.eqb 62 62) with true. cbv iota.
  rewrite scanText_run by done. by destruct text.
Qed.

Lemma text_between_brackets_is_matched_witness :
  Extractors.textMatches (str "<a:t" ++ 62%N :: str "Title" ++ 60%N :: str "/a:t>")
  = [62%N :: str "Title" ++ [60%N]].
Proof.
  rewrite (text_between_brackets_is_matched (str "<a:t") (str "Title") (str "/a:t>")).
  - reflexivity.
  - vm_compute. intros H. repeat (apply elem_of_cons in H as [H|H]; [done|]).
    by apply elem_of_nil in H.
  - discriminate.
  - vm_compute. intros H. repeat (apply elem_of_cons in H as [H|H]; [done|]).
    by apply elem_of_nil in H.
Defined.

(** X12: the presentation branch writes the slides in the order the archive
    lists its entries (it does not sort them by number), and entries that
    are not slide parts add nothing. *)
Theorem slides_in_archive_order
    (entries1 entries2 : list (jsstring * option jsstring)) :
  Extractors.slidesContent (entries1 ++ entries2)
  = Extractors.slidesContent entries1 ++ Extractors.slidesContent entries2
  ∧ Extractors.slidesContent entries1
    = concat (map Extractors.slideBlock
                  (List.filter (fun e => Extractors.isSlide (fst e)) entries1))
  ∧ Extractors.slidesContent
      (List.filter (fun e => negb (Extractors.isSlide (fst e))) entries1) = [].
Proof.
  rewrite !slidesContent_blocks. split; [|split; [done|]].
  - by rewrite List.filter_app, map_app, concat_app.
  - induction entries1 as [|e es IH]; [done|]. simpl.
    destruct (Extractors.isSlide (fst e)) eqn:E; simpl; [done|].
    by rewrite E.
Qed.

Lemma officeStrategy_of_classify (file : File.t) (s : Strategy) :
  App.classify file = Some s →
  match s with WordDoc | Spreadsheet | Presentation => True | _ => False end →
  App.officeStrategy (App.extensionOf file) = Some s.
Proof.
  intros Hcl Hs. unfold App.classify, App.dispatch in Hcl.
  destruct (startsWith _ _); [injection Hcl as <-; done|].
  destruct (startsWith _ _); [injection Hcl as <-; done|].
  destruct (_ || _); [injection Hcl as <-; done|].
  destruct (includes _ _); [|done].
  destruct (App.officeStrategy (App.extensionOf file)); [|done].
  by injection Hcl as <-.
Qed.

(** X13: the [switch] of [processOfficeFile] takes the branch that the
    [if] chain of [processFile] chose: for a file routed to an Office
    strategy, the extension gives that strategy again, so the [default]
    case is never what [processFile] gets, and the result is the library's,
    once the buffer is read. *)
Theorem office_switch_agrees_with_dispatch
    (libs : Extractors.Libraries) (file : File.t) (s : Strategy) :
  App.classify file = Some s →
  match s with WordDoc | Spreadsheet | Presentation => True | _ => False end →
  App.officeStrategy (App.extensionOf file) = Some s
  ∧ Extractors.processOfficeFile libs file
    = match Extractors.arrayBuffer libs file with
      | Extractors.Failed message => Threw message
      | Extractors.Ok _ =>
          match s with
          | WordDoc =>
              Extractors.toExtraction (Extractors.extractRawText libs file)
          | Spreadsheet =>
              match Extractors.xlsxRead libs file with
              | Extractors.Ok sheets => Extracted (Extractors.sheetsContent sheets)
              | Extractors.Failed message => Threw message
              end
          | _ =>
              match Extractors.loadAsync libs file with
              | Extractors.Ok entries => Extracted (Extractors.slidesContent entries)
              | Extractors.Failed message => Threw message
              end
          end
      end.
Proof.
  intros Hcl Hs.
  pose proof (officeStrategy_of_classify file s Hcl Hs) as Hoff.
  split; [done|]. unfold Extractors.processOfficeFile. rewrite Hoff.
  by destruct s.
Qed.

Lemma office_switch_agrees_with_dispatch_witness :
  Extractors.processOfficeFile Cases.libs Cases.book
  = Extracted (Extractors.sheetsContent
                 [(str "First", str "1,2"); (str "Second", str "x")]).
Proof.
  destruct (office_switch_agrees_with_dispatch Cases.libs Cases.book Spreadsheet)
    as [_ H].
  - reflexivity.
  - exact I.
  - rewrite H. reflexivity.
Defined.

(** X14: with these branches as the extraction, a file whose extension is
    [xls] or [xlsx], whose media type is none of the three looked at, whose
    buffer is read and whose workbook holds [sheets] is processed into the
    header followed by the sheets, with the extension as [originalType]. *)
Theorem spreadsheet_file_end_to_end
    (libs : Extractors.Libraries) (w : World) (file : File.t)
    (sheets : list (jsstring * jsstring)) (u : unit) :
  App.extensionOf file ∈ [str "xls"; str "xlsx"] →
  ClassifierSpec.byMediaType (File.type file) = None →
  Extractors.arrayBuffer libs file = Extractors.Ok u →
  Extractors.xlsxRead libs file = Extractors.Ok sheets →
  App.processFile (Extractors.worldOf libs w) file
  = (Some {| ProcessedFile.name := File.name file;
             ProcessedFile.content :=
               App.header w file ++ Extractors.sheetsContent sheets;
             ProcessedFile.originalType := App.extensionOf file;
             ProcessedFile.path := App.filePathOf file |},
     [UpdateStats true]).
Proof.
  intros Hext Htype Hbuf Hread.
  assert (Hcl : App.classify file = Some Spreadsheet).
  { rewrite classify_by_type_then_extension, Htype.
    apply elem_of_cons in Hext as [->|Hext]; [done|].
    apply list_elem_of_singleton in Hext as ->. done. }
  assert (Hd : App.dispatch file = App.Run Spreadsheet).
  { unfold App.classify in Hcl. pose proof (dispatch_never_default file) as Hn.
    destruct (App.dispatch file) as [s| |]; [by injection Hcl as ->|done|done]. }
  pose proof (officeStrategy_of_classify file Spreadsheet Hcl I) as Hoff.
  unfold App.processFile, App.outcome. rewrite Hd. cbn [extract Extractors.worldOf].
  unfold Extractors.extractWith, Extractors.processOfficeFile.
  rewrite Hbuf, Hoff, Hread.
  assert (Hne : orElse (App.extensionOf file) (str "unknown") = App.extensionOf file).
  { apply elem_of_cons in Hext as [->|Hext]; [done|].
    apply list_elem_of_singleton in Hext as ->. done. }
  rewrite Hne. done.
Qed.

Lemma spreadsheet_file_end_to_end_witness :
  fst (App.processFile (Extractors.worldOf Cases.libs (Sample.world None)) Cases.book)
  = Some {| ProcessedFile.name := str "book.xlsx";
            ProcessedFile.content :=
              App.header (Sample.world None) Cases.book
              ++ Extractors.sheetsContent
                   [(str "First", str "1,2"); (str "Second", str "x")];
            ProcessedFile.originalType := str "xlsx";
            ProcessedFile.path := str "docs/book.xlsx" |}.
Proof.
  rewrite (spreadsheet_file_end_to_end Cases.libs (Sample.world None) Cases.book
             [(str "First", str "1,2"); (str "Second", str "x")] tt).
  - reflexivity.
  - vm_compute. right. by left.
  - reflexivity.
  - reflexivity.
  - reflexivity.
Defined.

(** X15: [initializeWorker] keeps one worker only when its calls do not
    overlap.  In a batch every call reads [workerRef] before any worker is
    stored, so with the reference empty [createWorker] is called once per
    image of the batch; with a worker stored it is not called; and calls
    made one after the other create one worker for any number of images. *)
Theorem ocr_worker_created_per_image_of_batch
    (batch : list File.t) (loaded : list nat) (c k n : nat) :
  Ocr.created (Ocr.steps (Ocr.batchEvents batch loaded)
                 {| Ocr.workerRef := None; Ocr.created := c |})
  = c + length (Ocr.images batch)
  ∧ Ocr.created (Ocr.steps (Ocr.batchEvents batch loaded)
                   {| Ocr.workerRef := Some k; Ocr.created := c |})
    = c
  ∧ Ocr.created (Ocr.sequentialEvents n Ocr.empty) = Nat.min n 1.
Proof.
  unfold Ocr.batchEvents. rewrite !steps_app.
  rewrite steps_calls_empty, steps_calls_set, !steps_assign_created.
  split; [done|]. split; [done|].
  destruct n as [|n]; [done|]. replace (Nat.min (S n) 1) with 1 by lia.
  simpl. apply sequentialEvents_set.
Qed.

(* ===================================================================== *)
(** * Further properties: runs of [src/App.tsx] *)
(* ===================================================================== *)

(** X16: when a run has made its last update, however it ended (all batches
    done, cancelled, or held up by an extraction that never settles), the
    error log holds as many lines as [failed] counts. *)
Theorem error_log_matches_failed_count
    (w : World) (files : list File.t) (st : AppState) :
  files ≠ [] →
  length (errorLogs (run (App.handleFolderUpload w files) st))
  = failed (stats (run (App.handleFolderUpload w files) st)).
Proof.
  intros Hne. rewrite handleFolderUpload_nonempty by done.
  rewrite logs_after_prologue, stats_after_prologue by apply loop_additive.
  apply balanced_loop.
Qed.

Lemma error_log_matches_failed_count_witness :
  length (errorLogs (run (App.handleFolderUpload (Sample.world (Some 5)) Sample.seven)
                         initialState))
  = failed (stats (run (App.handleFolderUpload (Sample.world (Some 5)) Sample.seven)
                       initialState)).
Proof.
  apply (error_log_matches_failed_count (Sample.world (Some 5)) Sample.seven
           initialState).
  discriminate.
Defined.

(** X17: [src/App.tsx] has no timer.  When batch [k] holds an extraction
    that never settles, the run stays there: [isProcessing] remains on,
    [processedFiles] holds the successes of the batches before only (those
    of the held-up batch are never added), the input text is not written,
    and [processed] stays below [total]. *)
Theorem hanging_extraction_stalls_run
    (w : World) (files : list File.t) (st : AppState) (k : nat) :
  App.batchSize * k < length files →
  (∀ j, j ≤ k → aborted w (App.batchSize * j) = false) →
  forallb (App.settles w) (take (App.batchSize * k) files) = true →
  forallb (App.settles w)
          (App.slice files (App.batchSize * k) (App.batchSize * k + App.batchSize))
  = false →
  let st' := run (App.handleFolderUpload w files) st in
  isProcessing st' = true
  ∧ processedFiles st'
    = match k with
      | 0 => processedFiles st
      | S _ => omap (fun f => fst (App.processFile w f))
                    (take (App.batchSize * k) files)
      end
  ∧ inputText st' = inputText st
  ∧ processed (stats st') < total (stats st').
Proof.
  intros Hlt Hnot Hall Hstall st'. subst st'.
  rewrite (stalled_run w files k) by done.
  set (batch := App.slice files (App.batchSize * k)
                          (App.batchSize * k + App.batchSize)) in *.
  pose proof (batchActions_inFlight w (App.batchSize * k) (length files) batch)
    as Hfl.
  repeat split.
  - rewrite isProcessing_run, !fold_left_app, busy_inFlight by done.
    by rewrite completed_busy.
  - rewrite processedFiles_run, !fold_left_app, files_inFlight by done.
    rewrite completed_files. destruct k; [done|].
    by rewrite completed_results.
  - rewrite inputText_run, !fold_left_app, input_inFlight by done.
    by rewrite completed_input.
  - rewrite stats_after_prologue
      by (rewrite forallb_app, completed_additive;
          by rewrite inFlight_additive).
    cbn [processed total]. rewrite nSucceeded_app, nFailed_app.
    destruct (completed_counts w files k 0 []) as [_ Hc]; [done|].
    change (drop 0 files) with files in Hc. rewrite length_take in Hc.
    pose proof (batchActions_counts_settled w (App.batchSize * k)
                  (length files) batch) as Hb.
    pose proof (length_filter_lt (App.settles w) batch Hstall) as Hf.
    assert (Hlen : length batch ≤ length files - App.batchSize * k).
    { subst batch. rewrite slice_batch, length_take, length_drop. lia. }
    lia.
Qed.

Lemma hanging_extraction_stalls_run_witness :
  isProcessing (run (App.handleFolderUpload (Sample.world None) Cases.withHang)
                    initialState) = true
  ∧ processedFiles (run (App.handleFolderUpload (Sample.world None) Cases.withHang)
                        initialState) = [].
Proof.
  destruct (hanging_extraction_stalls_run (Sample.world None) Cases.withHang
              initialState 0) as (H1 & H2 & _).
  - simpl. lia.
  - intros j _. reflexivity.
  - reflexivity.
  - reflexivity.
  - split; [exact H1|exact H2].
Defined.

(** X18: a run never writes [outputText] or the options.  What
    [handleDownload] gives after it is therefore the archive of the
    processed files when there are two or more, and otherwise the output
    text as it was before the run. *)
Theorem run_never_writes_output
    (w : World) (files : list File.t) (st : AppState) :
  outputText (run (App.handleFolderUpload w files) st) = outputText st
  ∧ options (run (App.handleFolderUpload w files) st) = options st
  ∧ App.handleDownload (run (App.handleFolderUpload w files) st)
    = if Nat.ltb 1 (length (processedFiles (run (App.handleFolderUpload w files) st)))
      then Archive
             (map (fun file =>
                     (App.stripExtension (ProcessedFile.path file) ++ str ".txt",
                      normalize (ProcessedFile.content file) (options st)))
                  (processedFiles (run (App.handleFolderUpload w files) st)))
      else SingleText (outputText st).
Proof.
  destruct (run_keeps_output (App.handleFolderUpload w files) st) as [Ho Hopt].
  split; [done|]. split; [done|].
  unfold App.handleDownload. by rewrite Ho, Hopt.
Qed.

(** X19: no run is in progress when the folder is selected, and during the
    run cancel is not clicked and no other folder is selected; the
    extractions all settle.  Then the run calls [updateStats] once per
    file, and the state it leaves accounts for every file: [processed]
    has reached [total], the number of files; [failed] and the processed
    files add up to it; the input text is the combined text of the
    processed files (empty if none); [isProcessing] is off. *)
Theorem full_run_accounts_for_every_file
    (w : World) (r0 : Abort.Ref) (during : nat → list Abort.Event)
    (files : list File.t) (st : AppState) :
  files ≠ [] →
  Abort.current r0 = None →
  (∀ j, during j = []) →
  forallb (App.settles w) files = true →
  let acts := App.handleFolderUpload (Abort.world w r0 during) files in
  let st' := run acts st in
  nSucceeded acts + nFailed acts = length files
  ∧ processed (stats st') = total (stats st')
  ∧ total (stats st') = length files
  ∧ failed (stats st') + length (processedFiles st') = length files
  ∧ inputText st' = App.combinedText (processedFiles st')
  ∧ isProcessing st' = false.
Proof.
  intros Hne _ Hquiet Hall acts st'.
  set (w' := Abort.world w r0 during) in *.
  assert (Hab : ∀ i, i < length files → aborted w' i = false).
  { intros i _. subst w'. cbn [aborted Abort.world].
    rewrite refAt_quiet by (intros; apply Hquiet). apply signal_renew. }
  destruct (full_run_state w' files st Hne Hab Hall)
    as (Hf & Hs & Hi & Hb & _ & _).
  fold acts st' in Hf, Hs, Hi, Hb.
  assert (Hcount : nSucceeded acts + nFailed acts = length files).
  { pose proof (stats_after_prologue files
                  (App.loop w' files (length files + 1) 0 []) st
                  (loop_additive w' files _ _ _)) as Hp.
    rewrite <- handleFolderUpload_nonempty in Hp by done.
    fold acts st' in Hp. rewrite Hs in Hp. injection Hp as Hp _.
    subst acts. rewrite handleFolderUpload_nonempty by done.
    rewrite nSucceeded_app, nFailed_app.
    change (nSucceeded (App.prologue files)) with 0.
    change (nFailed (App.prologue files)) with 0. lia. }
  split; [done|]. rewrite Hf, Hs, Hi. cbn [processed total failed].
  repeat split; try done.
  assert (length (omap (fun f => fst (App.processFile w' f)) files) ≤ length files).
  { rewrite length_omap_ok. apply length_filter_le. }
  lia.
Qed.

Lemma full_run_accounts_for_every_file_witness :
  stats (run (App.handleFolderUpload
                (Abort.world (Sample.world None) Abort.initial Cases.quiet)
                Sample.seven)
             initialState)
  = {| total := 7; processed := 7; failed := 2 |}
  ∧ length (processedFiles
              (run (App.handleFolderUpload
                      (Abort.world (Sample.world None) Abort.initial
                         Cases.quiet)
                      Sample.seven)
                   initialState))
    = 5.
Proof.
  destruct (full_run_accounts_for_every_file (Sample.world None) Abort.initial
              Cases.quiet Sample.seven initialState) as (_ & _ & _ & H & _).
  - discriminate.
  - reflexivity.
  - reflexivity.
  - reflexivity.
  - split; [reflexivity|].
    change (failed (stats (run (App.handleFolderUpload
                                  (Abort.world (Sample.world None)
                                     Abort.initial Cases.quiet)
                                  Sample.seven) initialState))) with 2 in H.
    change (length Sample.seven) with 7 in H. lia.
Defined.

(** X20: a cancelled run does not write the input text: the files it kept
    are in [processedFiles] only. *)
Theorem cancelled_run_keeps_input_text
    (w : World) (files : list File.t) (st : AppState) (k : nat) :
  App.batchSize * k < length files →
  aborted w (App.batchSize * k) = true →
  (∀ j, j < k → aborted w (App.batchSize * j) = false) →
  forallb (App.settles w) (take (App.batchSize * k) files) = true →
  inputText (run (App.handleFolderUpload w files) st) = inputText st.
Proof.
  intros Hlt Hab Hnot Hall. rewrite (cancelled_run w files k) by done.
  rewrite inputText_run, !fold_left_app. simpl. apply completed_input.
Qed.

Lemma cancelled_run_keeps_input_text_witness :
  inputText (run (App.handleFolderUpload (Sample.world (Some 5)) Sample.seven)
                 (Cases.holding []))
  = [].
Proof.
  apply (cancelled_run_keeps_input_text (Sample.world (Some 5)) Sample.seven
           (Cases.holding []) 1).
  - simpl. unfold App.batchSize. lia.
  - reflexivity.
  - intros j Hj. replace j with 0 by lia. reflexivity.
  - reflexivity.
Defined.

(* ===================================================================== *)
(** * Further properties: the copy with the timer *)
(* ===================================================================== *)

(** X21: in the copy with the timer an extraction that settles when the
    timer has fired (at the same moment counts: the timer was set first) is
    counted twice, once by the [catch] handler and once by [processFile]
    itself: when all updates are made, [processed] is the number of files
    plus the number of such late files, above [total] as soon as there is
    one. *)
Theorem timed_copy_counts_late_files_twice
    (w : World) (files : list File.t) (st : AppState) :
  files ≠ [] →
  let st' := run (Timed.timeline (Timed.handleFolderUpload w files)) st in
  total (stats st') = length files
  ∧ processed (stats st')
    = length files + length (List.filter (TimedExtra.late w) files).
Proof.
  intros Hne st'. subst st'. destruct files as [|f files]; [done|].
  destruct (timeline_nonempty w f files) as (rest & -> & Hperm).
  destruct (timed_loop_updates w (f :: files) (length (f :: files) + 1) 0 0%N [])
    as [Hu Ha]; [lia|].
  rewrite <- (forallb_perm _ _ _ Hperm) in Ha.
  rewrite <- (nSucceeded_perm _ _ Hperm), <- (nFailed_perm _ _ Hperm) in Hu.
  rewrite stats_run, fold_left_app. cbn [fold_left statsStep app].
  rewrite stats_additive by done. cbn [total processed].
  change (drop 0 (f :: files)) with (f :: files) in Hu. split; [done|]. lia.
Qed.

(** Four files: one in time, one that takes exactly 30,000 ms, one that
    takes 45,000 ms, one that never settles.  The second and the third are
    counted twice, and the second fails first and succeeds after. *)
Lemma timed_copy_counts_late_files_twice_witness :
  processed (stats (run (Timed.timeline
                           (Timed.handleFolderUpload (Sample.world None)
                              [Sample.A; Cases.tie; Sample.Slow; Sample.Hang]))
                        initialState))
  = 6
  ∧ Timed.timeline (Timed.handleFolderUpload (Sample.world None) [Cases.tie])
    = [SetIsProcessing true; SetProcessingStatus (str "Scanning files...");
       SetStats {| total := 1; processed := 0; failed := 0 |};
       ConsoleLog (str "Processing file: tie.txt, type: text/plain");
       UpdateStats false;
       LogError (str "tie.txt") (str "File processing timed out");
       SetProcessedFiles [];
       SetIsProcessing false; SetProcessingStatus [];
       UpdateStats true].
Proof.
  destruct (timed_copy_counts_late_files_twice (Sample.world None)
              [Sample.A; Cases.tie; Sample.Slow; Sample.Hang] initialState)
    as [_ H].
  - discriminate.
  - rewrite H. split; reflexivity.
Defined.

(** X22: the copy with the timer never reads the abort signal: two sets of
    collaborators that differ in it (and in the number format) give the
    same run, so [handleCancel] changes nothing there. *)
Theorem timed_copy_ignores_cancel (w w' : World) (files : list File.t) :
  extract w = extract w' →
  duration w = duration w' →
  toLocaleString w = toLocaleString w' →
  Timed.handleFolderUpload w files = Timed.handleFolderUpload w' files.
Proof.
  intros He Hd Ht. destruct files as [|f files]; [done|].
  unfold Timed.handleFolderUpload.
  by rewrite (timed_loop_same_reads w w' _ _ _ _ _ He Hd Ht).
Qed.

Lemma timed_copy_ignores_cancel_witness :
  Timed.handleFolderUpload (Sample.world (Some 0)) Sample.seven
  = Timed.handleFolderUpload (Sample.world None) Sample.seven.
Proof.
  apply (timed_copy_ignores_cancel (Sample.world (Some 0)) (Sample.world None)
           Sample.seven); reflexivity.
Defined.

(* ===================================================================== *)
(** * Further properties: the abort controller *)
(* ===================================================================== *)

(** X26: selecting a folder while a run is in progress aborts the controller
    of that run and does not stop it: the loop reads the controller in the
    reference, which is the new one.  As long as cancel is not clicked, no
    check of the earlier run reads a set signal, whatever uploads start or
    end meanwhile, and the run calls [processFile] for every one of its
    files. *)
Theorem second_upload_does_not_stop_first_run
    (w : World) (r0 : Abort.Ref) (during : nat → list Abort.Event)
    (files : list File.t) :
  files ≠ [] →
  (∀ j, Abort.CancelClick ∉ during j) →
  forallb (App.settles w) files = true →
  (∀ rest, during 0 = Abort.UploadStarts :: rest →
           Abort.signals (Abort.refAt r0 during 1) !! Abort.own r0 = Some true)
  ∧ (∀ i, aborted (Abort.world w r0 during) i = false)
  ∧ consoleLines (App.handleFolderUpload (Abort.world w r0 during) files)
    = map AppRun.startLine files.
Proof.
  intros Hne Hno Hall.
  assert (Hab : ∀ i, aborted (Abort.world w r0 during) i = false).
  { intros i. cbn [aborted Abort.world]. by apply refAt_no_click. }
  split; [|split; [done|]].
  - intros rest Hfirst. cbn [Abort.refAt]. rewrite Hfirst. cbn [fold_left].
    apply signal_stays_all, upload_aborts_own.
  - destruct (full_run_state (Abort.world w r0 during) files initialState)
      as (_ & _ & _ & _ & Hlines & _); [done|by intros|done|done].
Qed.

Lemma second_upload_does_not_stop_first_run_witness :
  Abort.signals (Abort.refAt Abort.initial Cases.secondUpload 1) !! 0
  = Some true
  ∧ length (consoleLines Cases.firstRun) = 7.
Proof.
  destruct (second_upload_does_not_stop_first_run (Sample.world None)
              Abort.initial Cases.secondUpload Sample.seven)
    as (H1 & _ & H2).
  - discriminate.
  - intros j. unfold Cases.secondUpload. destruct (Nat.eqb j 0).
    + intros H. repeat (apply elem_of_cons in H as [H|H]; [discriminate H|]).
      by apply elem_of_nil in H.
    + by intros H%elem_of_nil.
  - reflexivity.
  - split.
    + apply (H1 [Abort.RunEnds]). reflexivity.
    + unfold Cases.firstRun. rewrite H2. reflexivity.
Defined.

(* ===================================================================== *)
(** * Further properties: [handleConvert] *)
(* ===================================================================== *)

(** X23: with [removeEmptyLines] on, whatever the other options are, the
    converted text is empty or none of its lines is blank. *)
Theorem normalize_leaves_no_blank_line (text : jsstring) (o : ConversionOptions) :
  removeEmptyLines o = true →
  normalize text o = []
  ∨ Forall (fun line => trim line ≠ []) (split LF (normalize text o)).
Proof.
  intros Hrm. rewrite normalize_lines. unfold specNormalize.
  destruct (specLines_ok o text) as [HnoLF _ Hnb _].
  specialize (Hnb Hrm).
  destruct (specDropEmpty _ _) as [|l ls] eqn:E; [by left|]. right.
  destruct (specTerminator_cases (lineEnding o)) as [->|[->| ->]].
  - rewrite join_addCR, split_join;
      [by apply addCR_nonblank|by apply addCR_nonempty|by apply addCR_noLF].
  - rewrite split_id.
    + constructor; [|done]. by apply join_nonblank.
    + apply join_noLF; [|done]. by intros ?%list_elem_of_singleton.
  - by rewrite split_join.
Qed.

Lemma normalize_leaves_no_blank_line_witness :
  Forall (fun line => trim line ≠ [])
         (split LF (normalize Sample.text_padded (Sample.optionsWith "CRLF" true false))).
Proof.
  destruct (normalize_leaves_no_blank_line Sample.text_padded
              (Sample.optionsWith "CRLF" true false)) as [H|H].
  - reflexivity.
  - vm_compute in H. discriminate H.
  - exact H.
Defined.

(** X24: the line ending written.  With "CR" no line feed is left in the
    converted text; with "CRLF" every line feed of the converted text comes
    directly after a carriage return.  This holds for every text and every
    value of the other options. *)
Theorem normalize_writes_chosen_terminator
    (text enc : jsstring) (remove trimws : bool) :
  (LF ∉ normalize text {| encoding := enc; lineEnding := str "CR";
                          removeEmptyLines := remove; trimWhitespace := trimws |})
  ∧ crBeforeEveryLF false
      (normalize text {| encoding := enc; lineEnding := str "CRLF";
                         removeEmptyLines := remove; trimWhitespace := trimws |})
    = true.
Proof.
  unfold normalize. cbn [lineEnding]. split.
  - rewrite bool_decide_eq_false_2 by done. rewrite bool_decide_eq_true_2 by done.
    apply replaceLF_no_LF. by intros ?%list_elem_of_singleton.
  - rewrite bool_decide_eq_true_2 by done. apply crBeforeEveryLF_replace.
Qed.

(** X25: the converted text is never longer than the text, except with
    "CRLF", where it grows by at most one unit per line feed of the text. *)
Theorem normalize_length_bound (text : jsstring) (o : ConversionOptions) :
  length (normalize text o)
  ≤ length text
    + (if bool_decide (lineEnding o = str "CRLF") then lineFeeds text else 0).
Proof.
  rewrite normalize_lines. unfold specNormalize. rewrite length_join.
  fold (passLines o (split LF text)).
  destruct (passLines_shorter o (split LF text)) as [Ht Hl].
  rewrite length_split_lineFeeds in Hl.
  pose proof (totalLength_split text) as Hs.
  assert (Hp : pred (length (passLines o (split LF text))) ≤ lineFeeds text) by lia.
  unfold specTerminator.
  case_bool_decide; [simpl; lia|]. case_bool_decide; simpl; lia.
Qed.
